(** * Salem 1692 moderator: the game-state engine

    A shallow embedding of the engine of [src/]: the card dealer and the
    win-condition evaluator ([utils/gameLogic]), the phase machine
    ([logic/phaseTransitions]), the action processor
    ([logic/actionHandlers.ts]) and the masking of the broadcast state
    ([App.tsx]).

    Conventions of the embedding.
    - JavaScript strings are [string]; [a === b] on strings is [String.eqb].
    - Record fields carry a prefix ([c_], [p_], [wv_], [pa_], [nd_], [cs_],
      [tr_]) where the source uses one field name in several interfaces.
    - A value that may be [null] or [undefined] is an [option]; optional
      boolean fields ([isGhost?], [isDisconnected?], [isSmallGameMode?]) are
      booleans, an absent field reading as [false] (it is only ever tested
      for truthiness).
    - Arrays are lists; [push] appends at the end.
    - [Math.random()] is an oracle: a sequence of raw samples,
      [Math.floor(Math.random() * k)] being the next sample modulo [k].
    - A log entry is its message: the [id] and [timestamp] of [createLog]
      come from the clock and the random generator and nothing reads them.
    - The engine mutates the player and card objects it finds with
      [Array.find]; in the returned state this is an update of the first
      matching element, which [mutateFirst] writes out. *)

From Stdlib Require Import ZArith.
From stdpp Require Import gmap strings list fin_maps pretty.

Open Scope string_scope.
Open Scope list_scope.

(** ** Data model ([types.ts]) *)

Inductive CardType := NOT_A_WITCH | WITCH | CONSTABLE.

Definition CardType_eqb (a b : CardType) : bool :=
  match a, b with
  | NOT_A_WITCH, NOT_A_WITCH | WITCH, WITCH | CONSTABLE, CONSTABLE => true
  | _, _ => false
  end.

(** [c_type] is an option: the broadcast view stores [null] there, and a
    deck read past its end yields [undefined]. *)
Record Card := mkCard {
  c_id : string;
  c_type : option CardType;
  c_isRevealed : bool
}.

Record Player := mkPlayer {
  p_id : string;
  p_name : string;
  p_peerId : string;
  p_isHost : bool;
  p_isDead : bool;
  p_hasBlackCat : bool;
  p_cards : list Card;
  p_hasRevealedWitch : bool;
  p_immune : bool;
  p_isDisconnected : bool;
  p_isGhost : bool
}.

Inductive GamePhase :=
  | LOBBY | SETUP | NIGHT_INITIAL_WITCH | DAY | CONSPIRACY | NIGHT_WITCH_VOTE
  | NIGHT_CONSTABLE | NIGHT_CONFESSION | NIGHT_RESOLUTION | GAME_OVER.

Definition GamePhase_eqb (a b : GamePhase) : bool :=
  match a, b with
  | LOBBY, LOBBY | SETUP, SETUP | NIGHT_INITIAL_WITCH, NIGHT_INITIAL_WITCH
  | DAY, DAY | CONSPIRACY, CONSPIRACY | NIGHT_WITCH_VOTE, NIGHT_WITCH_VOTE
  | NIGHT_CONSTABLE, NIGHT_CONSTABLE | NIGHT_CONFESSION, NIGHT_CONFESSION
  | NIGHT_RESOLUTION, NIGHT_RESOLUTION | GAME_OVER, GAME_OVER => true
  | _, _ => false
  end.

Record ConspiracySelection := mkSelection {
  cs_playerId : option string;
  cs_selectedCardId : option string
}.

Definition LogEntry := string.

Record WitchVote := mkVote {
  wv_voterId : string;
  wv_witchName : string;
  wv_targetId : string;
  wv_targetName : string
}.

Record PendingAccusation := mkAccusation {
  pa_accuserId : string;
  pa_accuserName : string;
  pa_targetId : string;
  pa_targetName : string;
  pa_accepted : bool
}.

Record NightDamageSelection := mkDamage {
  nd_targetId : string;
  nd_chooserId : string;
  nd_pendingReveal : bool
}.

Record GameState := mkState {
  roomId : string;
  phase : GamePhase;
  players : list Player;
  logs : list LogEntry;
  nightKillTargetId : option string;
  constableGuardId : option string;
  turnCounter : Z;
  witchVotes : list WitchVote;
  pendingAccusation : option PendingAccusation;
  conspiracySelections : list ConspiracySelection;
  nightConfirmations : list string;
  fakeVotes : gmap string Z;
  isSmallGameMode : bool;
  nightDamageSelection : option NightDamageSelection
}.

(** Object spread with one field replaced: [{ ...x, field: v }]. *)

Definition card_reveal (c : Card) : Card :=
  mkCard (c_id c) (c_type c) true.

Definition card_with_type (t : option CardType) (c : Card) : Card :=
  mkCard (c_id c) t (c_isRevealed c).

Definition card_with_revealed (b : bool) (c : Card) : Card :=
  mkCard (c_id c) (c_type c) b.

Definition p_with_cards (cs : list Card) (p : Player) : Player :=
  mkPlayer (p_id p) (p_name p) (p_peerId p) (p_isHost p) (p_isDead p)
    (p_hasBlackCat p) cs (p_hasRevealedWitch p) (p_immune p)
    (p_isDisconnected p) (p_isGhost p).

Definition p_with_isDead (b : bool) (p : Player) : Player :=
  mkPlayer (p_id p) (p_name p) (p_peerId p) (p_isHost p) b
    (p_hasBlackCat p) (p_cards p) (p_hasRevealedWitch p) (p_immune p)
    (p_isDisconnected p) (p_isGhost p).

Definition p_with_hasBlackCat (b : bool) (p : Player) : Player :=
  mkPlayer (p_id p) (p_name p) (p_peerId p) (p_isHost p) (p_isDead p)
    b (p_cards p) (p_hasRevealedWitch p) (p_immune p)
    (p_isDisconnected p) (p_isGhost p).

Definition p_with_hasRevealedWitch (b : bool) (p : Player) : Player :=
  mkPlayer (p_id p) (p_name p) (p_peerId p) (p_isHost p) (p_isDead p)
    (p_hasBlackCat p) (p_cards p) b (p_immune p)
    (p_isDisconnected p) (p_isGhost p).

Definition p_with_immune (b : bool) (p : Player) : Player :=
  mkPlayer (p_id p) (p_name p) (p_peerId p) (p_isHost p) (p_isDead p)
    (p_hasBlackCat p) (p_cards p) (p_hasRevealedWitch p) b
    (p_isDisconnected p) (p_isGhost p).

Definition set_phase (v : GamePhase) (s : GameState) : GameState :=
  mkState (roomId s) v (players s) (logs s) (nightKillTargetId s)
    (constableGuardId s) (turnCounter s) (witchVotes s) (pendingAccusation s)
    (conspiracySelections s) (nightConfirmations s) (fakeVotes s)
    (isSmallGameMode s) (nightDamageSelection s).

Definition set_players (v : list Player) (s : GameState) : GameState :=
  mkState (roomId s) (phase s) v (logs s) (nightKillTargetId s)
    (constableGuardId s) (turnCounter s) (witchVotes s) (pendingAccusation s)
    (conspiracySelections s) (nightConfirmations s) (fakeVotes s)
    (isSmallGameMode s) (nightDamageSelection s).

Definition set_logs (v : list LogEntry) (s : GameState) : GameState :=
  mkState (roomId s) (phase s) (players s) v (nightKillTargetId s)
    (constableGuardId s) (turnCounter s) (witchVotes s) (pendingAccusation s)
    (conspiracySelections s) (nightConfirmations s) (fakeVotes s)
    (isSmallGameMode s) (nightDamageSelection s).

Definition set_nightKillTargetId (v : option string) (s : GameState) : GameState :=
  mkState (roomId s) (phase s) (players s) (logs s) v
    (constableGuardId s) (turnCounter s) (witchVotes s) (pendingAccusation s)
    (conspiracySelections s) (nightConfirmations s) (fakeVotes s)
    (isSmallGameMode s) (nightDamageSelection s).

Definition set_constableGuardId (v : option string) (s : GameState) : GameState :=
  mkState (roomId s) (phase s) (players s) (logs s) (nightKillTargetId s)
    v (turnCounter s) (witchVotes s) (pendingAccusation s)
    (conspiracySelections s) (nightConfirmations s) (fakeVotes s)
    (isSmallGameMode s) (nightDamageSelection s).

Definition set_turnCounter (v : Z) (s : GameState) : GameState :=
  mkState (roomId s) (phase s) (players s) (logs s) (nightKillTargetId s)
    (constableGuardId s) v (witchVotes s) (pendingAccusation s)
    (conspiracySelections s) (nightConfirmations s) (fakeVotes s)
    (isSmallGameMode s) (nightDamageSelection s).

Definition set_witchVotes (v : list WitchVote) (s : GameState) : GameState :=
  mkState (roomId s) (phase s) (players s) (logs s) (nightKillTargetId s)
    (constableGuardId s) (turnCounter s) v (pendingAccusation s)
    (conspiracySelections s) (nightConfirmations s) (fakeVotes s)
    (isSmallGameMode s) (nightDamageSelection s).

Definition set_pendingAccusation (v : option PendingAccusation) (s : GameState)
  : GameState :=
  mkState (roomId s) (phase s) (players s) (logs s) (nightKillTargetId s)
    (constableGuardId s) (turnCounter s) (witchVotes s) v
    (conspiracySelections s) (nightConfirmations s) (fakeVotes s)
    (isSmallGameMode s) (nightDamageSelection s).

Definition set_conspiracySelections (v : list ConspiracySelection) (s : GameState)
  : GameState :=
  mkState (roomId s) (phase s) (players s) (logs s) (nightKillTargetId s)
    (constableGuardId s) (turnCounter s) (witchVotes s) (pendingAccusation s)
    v (nightConfirmations s) (fakeVotes s)
    (isSmallGameMode s) (nightDamageSelection s).

Definition set_nightConfirmations (v : list string) (s : GameState) : GameState :=
  mkState (roomId s) (phase s) (players s) (logs s) (nightKillTargetId s)
    (constableGuardId s) (turnCounter s) (witchVotes s) (pendingAccusation s)
    (conspiracySelections s) v (fakeVotes s)
    (isSmallGameMode s) (nightDamageSelection s).

Definition set_fakeVotes (v : gmap string Z) (s : GameState) : GameState :=
  mkState (roomId s) (phase s) (players s) (logs s) (nightKillTargetId s)
    (constableGuardId s) (turnCounter s) (witchVotes s) (pendingAccusation s)
    (conspiracySelections s) (nightConfirmations s) v
    (isSmallGameMode s) (nightDamageSelection s).

Definition set_nightDamageSelection (v : option NightDamageSelection)
  (s : GameState) : GameState :=
  mkState (roomId s) (phase s) (players s) (logs s) (nightKillTargetId s)
    (constableGuardId s) (turnCounter s) (witchVotes s) (pendingAccusation s)
    (conspiracySelections s) (nightConfirmations s) (fakeVotes s)
    (isSmallGameMode s) v.

(** ** Array helpers *)

(** [c.type === t] *)
Definition typeIs (t : CardType) (c : Card) : bool :=
  match c_type c with
  | Some t' => CardType_eqb t' t
  | None => false
  end.

(** [x.id === v] where [v] may be undefined. *)
Definition idIs (v : option string) (i : string) : bool :=
  match v with
  | Some j => String.eqb i j
  | None => false
  end.

(** [arr.includes(x)] on strings. *)
Definition includes (x : string) (l : list string) : bool :=
  existsb (String.eqb x) l.

(** The effect, on the array, of mutating the object [arr.find(f)] by [g]. *)
Fixpoint mutateFirst {A} (f : A → bool) (g : A → A) (l : list A) : list A :=
  match l with
  | [] => []
  | x :: r => if f x then g x :: r else x :: mutateFirst f g r
  end.

(** [arr.findIndex(f)], [None] for -1. *)
Fixpoint findIndex {A} (f : A → bool) (l : list A) : option nat :=
  match l with
  | [] => None
  | x :: r => if f x then Some 0 else S <$> findIndex f r
  end.

(** ** Win condition ([utils/gameLogic], [checkWinCondition]) *)

Inductive WinResult := WITCH_WIN | TOWN_WIN.

Definition allRevealed (cs : list Card) : bool := forallb c_isRevealed cs.

Definition checkWinCondition (ps : list Player) (small : bool) : option WinResult :=
  if small then
    let witchCard := List.find (typeIs WITCH) (flat_map p_cards ps) in
    if match witchCard with Some c => c_isRevealed c | None => false end
    then Some TOWN_WIN
    else
      let anyEliminated :=
        existsb (λ p, (0 <? length (p_cards p))%nat && allRevealed (p_cards p)) ps in
      if anyEliminated then Some WITCH_WIN
      else
        let realPlayers := List.filter (λ p, negb (p_isGhost p)) ps in
        let allRealPlayersAreWitches :=
          (0 <? length realPlayers)%nat && forallb p_hasRevealedWitch realPlayers in
        if allRealPlayersAreWitches then Some WITCH_WIN else None
  else
    let alivePlayers := List.filter (λ p, negb (p_isDead p)) ps in
    let activeWitchCards :=
      List.filter (λ c, typeIs WITCH c && negb (c_isRevealed c))
        (flat_map p_cards alivePlayers) in
    if (length activeWitchCards =? 0)%nat then Some TOWN_WIN
    else
      let townTeamAlive :=
        List.filter (λ p, negb (p_hasRevealedWitch p)) alivePlayers in
      if (length townTeamAlive =? 0)%nat then Some WITCH_WIN else None.

(** ** The random oracle *)

(** Successive raw samples of [Math.random()]. *)
Definition Rand := nat → nat.

(** A computation that may draw samples. *)
Definition M (A : Type) : Type := Rand → A * Rand.

#[global] Instance M_ret : MRet M := λ A x r, (x, r).
#[global] Instance M_bind : MBind M :=
  λ A B f m r, let '(a, r') := m r in f a r'.

(** [Math.floor(Math.random() * k)]; every call has [k] at least 1. *)
Definition randomBelow (k : nat) : M nat :=
  λ r, (r 0%nat `mod` k, λ n, r (S n)).

(** The raw sample itself: [Math.random()]. *)
Definition randomSample : M nat :=
  λ r, (r 0%nat, λ n, r (S n)).

(** [for (const x of l) acc = f(acc, x)] with draws. *)
Fixpoint foldR {A B} (f : B → A → M B) (l : list A) (acc : B) : M B :=
  match l with
  | [] => mret acc
  | x :: r => acc' ← f acc x; foldR f r acc'
  end.

(** [l.map(f)] with draws, left to right. *)
Fixpoint mapR {A B} (f : A → M B) (l : list A) : M (list B) :=
  match l with
  | [] => mret []
  | x :: r => y ← f x; ys ← mapR f r; mret (y :: ys)
  end.

(** ** Dealer ([utils/gameLogic]) *)

Record Distribution := mkDist { notAWitch : nat; witch : nat; constable : nat }.

Definition TRYAL_CARD_DISTRIBUTION (playerCount : nat) : option Distribution :=
  match playerCount with
  | 4 => Some (mkDist 18 1 1)
  | 5 => Some (mkDist 23 1 1)
  | 6 => Some (mkDist 27 2 1)
  | 7 => Some (mkDist 32 2 1)
  | 8 => Some (mkDist 29 2 1)
  | 9 => Some (mkDist 33 2 1)
  | 10 => Some (mkDist 27 2 1)
  | 11 => Some (mkDist 30 2 1)
  | 12 => Some (mkDist 33 2 1)
  | _ => None
  end%nat.

Definition getCardsPerPlayer (playerCount : nat) : nat :=
  if (playerCount <=? 7)%nat then 5%nat
  else if (playerCount <=? 9)%nat then 4%nat
  else 3%nat.

(** [[a[i], a[j]] = [a[j], a[i]]] *)
Definition swap {A} (i j : nat) (l : list A) : list A :=
  match l !! i, l !! j with
  | Some x, Some y => <[j := x]> (<[i := y]> l)
  | _, _ => l
  end.

(** The loop of [shuffle]: [i] runs from its start value down to 1. *)
Fixpoint shuffleFrom {A} (i : nat) (l : list A) : M (list A) :=
  match i with
  | O => mret l
  | S i' => j ← randomBelow (i + 1); shuffleFrom i' (swap i j l)
  end.

Definition shuffle {A} (array : list A) : M (list A) :=
  shuffleFrom (length array - 1) array.

(** The deck before [shuffle]. The fallback's [townCount] may be negative in
    the source, where its loop then does not run: truncated subtraction. *)
Definition unshuffledDeck (playerCount : nat) : list CardType :=
  match TRYAL_CARD_DISTRIBUTION playerCount with
  | Some d =>
      replicate (witch d) WITCH ++ replicate (constable d) CONSTABLE
        ++ replicate (notAWitch d) NOT_A_WITCH
  | None =>
      let witchCount := if (5 <? playerCount)%nat then 2%nat else 1%nat in
      let constableCount := 1%nat in
      let cardsPerPlayer := getCardsPerPlayer playerCount in
      let totalCards := (playerCount * cardsPerPlayer)%nat in
      let townCount := (totalCards - witchCount - constableCount)%nat in
      replicate witchCount WITCH ++ replicate constableCount CONSTABLE
        ++ replicate townCount NOT_A_WITCH
  end.

Definition generateDeck (playerCount : nat) : M (list CardType) :=
  shuffle (unshuffledDeck playerCount).

Section Dealer.

(** The rendering [sample.toString(36).substring(2, 9)] of a raw sample. *)
Variable randomId : nat → string.

Definition createCard (type : option CardType) : M Card :=
  n ← randomSample; mret (mkCard (randomId n) type false).

(** The inner loop of [distributeCards] for one player: [n] cards, read
    from [deckTypes] at the running [cardIndex]. *)
Fixpoint dealPlayer (n : nat) (deckTypes : list CardType) (cardIndex : nat)
    (player : Player) : M (Player * nat) :=
  match n with
  | O => mret (player, cardIndex)
  | S n' =>
      let type := deckTypes !! cardIndex in
      c ← createCard type;
      let player1 := p_with_cards (p_cards player ++ [c]) player in
      let player2 :=
        match type with
        | Some WITCH => p_with_hasRevealedWitch true player1
        | _ => player1
        end in
      dealPlayer n' deckTypes (S cardIndex) player2
  end.

(** [playersWithCards.forEach(...)] *)
Fixpoint dealAll (cardsPerPlayer : nat) (deckTypes : list CardType)
    (cardIndex : nat) (ps : list Player) : M (list Player) :=
  match ps with
  | [] => mret []
  | p :: rest =>
      '(p', cardIndex') ← dealPlayer cardsPerPlayer deckTypes cardIndex p;
      rest' ← dealAll cardsPerPlayer deckTypes cardIndex' rest;
      mret (p' :: rest')
  end.

(** [distributeCards] after its first line, for the deck that
    [generateDeck] returned. *)
Definition dealDeck (deckTypes : list CardType) (ps : list Player)
  : M (list Player) :=
  let cardsPerPlayer := getCardsPerPlayer (length ps) in
  let playersWithCards :=
    map (λ p, p_with_hasRevealedWitch false (p_with_cards [] p)) ps in
  dealAll cardsPerPlayer deckTypes 0 playersWithCards.

Definition distributeCards (ps : list Player) : M (list Player) :=
  deckTypes ← generateDeck (length ps); dealDeck deckTypes ps.

End Dealer.

(** ** Masking ([App.tsx], the broadcast effect) *)

Definition maskCard (c : Card) : Card :=
  card_with_type (if c_isRevealed c then c_type c else None) c.

Definition publicState (gameState : GameState) : GameState :=
  set_players
    (map (λ p, p_with_cards (map maskCard (p_cards p)) p) (players gameState))
    gameState.

Inductive NetworkMessage :=
  | UPDATE_STATE (gameState : GameState)
  | UPDATE_HAND (cards : list Card).

(** What the host puts on the wire after a state change: [None] addresses
    the broadcast, [Some peer] one connection. The host's own hand is set
    locally and not sent. *)
Definition broadcastUpdates (myPlayerId : string) (gameState : GameState)
  : list (option string * NetworkMessage) :=
  if (0 <? length (players gameState))%nat then
    (None, UPDATE_STATE (publicState gameState))
    :: flat_map
         (λ p, if String.eqb (p_id p) myPlayerId then []
               else [(Some (p_id p), UPDATE_HAND (p_cards p))])
         (players gameState)
  else [].

(** ** Phase machine ([logic/phaseTransitions], [advancePhase]) *)

Definition hasActiveConstableCard (p : Player) : bool :=
  existsb (λ c, typeIs CONSTABLE c && negb (c_isRevealed c)) (p_cards p).

(** [!state.constableGuardId]: null, undefined and the empty string. *)
Definition falsy (v : option string) : bool :=
  match v with
  | Some s => String.eqb s ""
  | None => true
  end.

Definition advancePhase (state : GameState) : M GameState :=
  let logs0 := logs state in
  let nextTurn := turnCounter state in
  let finish nextPhase logs' nightConfirmations' :=
    set_nightConfirmations nightConfirmations'
      (set_turnCounter nextTurn (set_logs logs' (set_phase nextPhase state))) in
  match phase state with
  | SETUP =>
      let fallThrough := finish NIGHT_INITIAL_WITCH logs0 [] in
      if isSmallGameMode state then
        let aliveWitches :=
          List.filter (λ p, p_hasRevealedWitch p && negb (p_isDead p))
            (players state) in
        let realWitches := List.filter (λ p, negb (p_isGhost p)) aliveWitches in
        if (0 <? length aliveWitches)%nat && (length realWitches =? 0)%nat then
          let validTargets :=
            List.filter (λ p, negb (p_isGhost p)) (players state) in
          if (0 <? length validTargets)%nat then
            j ← randomBelow (length validTargets);
            match validTargets !! j with
            | Some randomTarget =>
                let newPlayers :=
                  map (λ p, p_with_hasBlackCat
                              (String.eqb (p_id p) (p_id randomTarget)) p)
                    (players state) in
                mret (set_nightConfirmations []
                        (set_logs logs0
                           (set_players newPlayers
                              (set_phase NIGHT_INITIAL_WITCH state))))
            | None => mret fallThrough
            end
          else mret fallThrough
        else mret fallThrough
      else mret fallThrough
  | NIGHT_INITIAL_WITCH =>
      mret (set_nightConfirmations []
              (set_witchVotes []
                 (set_turnCounter (nextTurn + 1)
                    (set_logs logs0 (set_phase DAY state)))))
  | DAY =>
      let fallThrough := finish NIGHT_WITCH_VOTE logs0 [] in
      if isSmallGameMode state then
        let aliveEntities :=
          List.filter (λ p, negb (p_isDead p)) (players state) in
        let aliveWitches := List.filter p_hasRevealedWitch aliveEntities in
        let realWitches := List.filter (λ p, negb (p_isGhost p)) aliveWitches in
        if (0 <? length aliveWitches)%nat && (length realWitches =? 0)%nat then
          let validTargets :=
            List.filter (λ p, negb (p_isGhost p)) aliveEntities in
          if (0 <? length validTargets)%nat then
            j ← randomBelow (length validTargets);
            match validTargets !! j with
            | Some randomTarget =>
                mret (set_nightKillTargetId (Some (p_id randomTarget))
                        (set_nightConfirmations []
                           (set_logs logs0 (set_phase NIGHT_WITCH_VOTE state))))
            | None => mret fallThrough
            end
          else mret fallThrough
        else mret fallThrough
      else mret fallThrough
  | NIGHT_WITCH_VOTE =>
      let hasActiveConstable :=
        existsb (λ p, negb (p_isDead p) && hasActiveConstableCard p)
          (players state) in
      if hasActiveConstable then mret (finish NIGHT_CONSTABLE logs0 [])
      else
        mret (finish NIGHT_CONFESSION
                (logs0 ++ ["No Constable to protect tonight."]) [])
  | NIGHT_CONSTABLE =>
      let fallThrough := finish NIGHT_CONFESSION logs0 [] in
      if falsy (constableGuardId state) then
        let ghostConstable :=
          List.find
            (λ p, negb (p_isDead p) && p_isGhost p && hasActiveConstableCard p)
            (players state) in
        match ghostConstable with
        | Some _ => mret (set_constableGuardId (Some "SKIP") fallThrough)
        | None => mret fallThrough
        end
      else mret fallThrough
  | NIGHT_CONFESSION =>
      mret (finish NIGHT_RESOLUTION
              (logs0 ++ ["Confession period has ended."])
              (nightConfirmations state))
  | NIGHT_RESOLUTION => mret state
  | _ => mret (finish (phase state) logs0 (nightConfirmations state))
  end.

(** ** Action processor ([logic/actionHandlers.ts]) *)

(** The payload object of an action; a field the sender left out is [None].
    [cardIds] is read only by NIGHT_DAMAGE_SELECT, which casts it to an
    array. *)
Record ActionData := mkData {
  targetId : option string;
  cardId : option string;
  fakeTargetId : option string;
  ghostId : option string;
  forPlayerId : option string;
  cardIds : list string
}.

(** Message templates of [constants.ts], split at their [{name}]
    placeholder. *)
Definition WITCH_FOUND_MESSAGES : list (string * string) :=
  [ ("A WITCH! ", " has been exposed as a servant of darkness!");
    ("The truth is revealed! ", " consorted with the Devil!");
    ("Justice prevails! ", "'s witchcraft is laid bare!");
    ("", "'s dark secret is exposed - WITCH!");
    ("The town rejoices! ", " is unmasked as a witch!");
    ("By God's light, ", "'s wickedness is revealed!") ].

Definition ALL_CARDS_REVEALED_MESSAGES : list (string * string) :=
  [ ("", " has been thoroughly tried and found... innocent! But the stress was too much.");
    ("", "'s honor is proven but their heart gives out from the ordeal!");
    ("Though proven innocent, ", " cannot survive the shame of accusation!");
    ("", " collapses after their final card is revealed!") ].

Definition getRandomMessage (messages : list (string * string)) (name : string)
  : M string :=
  j ← randomBelow (length messages);
  mret (match messages !! j with
        | Some (before, after) => before +:+ name +:+ after
        | None => ""
        end).

(** [`${card.type}`] *)
Definition typeName (t : option CardType) : string :=
  match t with
  | Some NOT_A_WITCH => "NOT_A_WITCH"
  | Some WITCH => "WITCH"
  | Some CONSTABLE => "CONSTABLE"
  | None => "undefined"
  end.

Definition findPlayer (i : option string) (ps : list Player) : option Player :=
  List.find (λ p, idIs i (p_id p)) ps.

Definition findCard (i : option string) (cs : list Card) : option Card :=
  List.find (λ c, idIs i (c_id c)) cs.

(** The pair of mutable locals [updates] and [logs]. *)
Definition Locals : Type := GameState * list LogEntry.

(** [if (!updates.nightConfirmations.includes(playerId)) ...] *)
Definition confirm (playerId : string) (updates : GameState) : GameState :=
  if includes playerId (nightConfirmations updates) then updates
  else set_nightConfirmations (nightConfirmations updates ++ [playerId]) updates.

Definition accuseStart (playerId : string) (data : ActionData) (l : Locals)
  : Locals :=
  let '(updates, logs) := l in
  match findPlayer (Some playerId) (players updates),
        findPlayer (targetId data) (players updates), targetId data with
  | Some accuser, Some target, Some tid =>
      if negb (p_isDead target) then
        let isGhostTarget := p_isGhost target in
        let updates' :=
          set_pendingAccusation
            (Some (mkAccusation playerId (p_name accuser) tid (p_name target)
                     isGhostTarget)) updates in
        let logs1 := logs ++ [p_name accuser +:+ " accuses " +:+ p_name target +:+ "!"] in
        (updates',
         if isGhostTarget then logs1 ++ ["The ghost cannot object..."] else logs1)
      else l
  | _, _, _ => l
  end.

Definition accuseAccept (playerId : string) (l : Locals) : Locals :=
  let '(updates, logs) := l in
  match pendingAccusation updates with
  | Some pa =>
      if String.eqb (pa_targetId pa) playerId then
        (set_pendingAccusation
           (Some (mkAccusation (pa_accuserId pa) (pa_accuserName pa)
                    (pa_targetId pa) (pa_targetName pa) true)) updates,
         logs ++ [pa_targetName pa +:+ " accepts the accusation."])
      else l
  | None => l
  end.

Definition accuseCancel (l : Locals) : Locals :=
  let '(updates, logs) := l in
  match pendingAccusation updates with
  | Some pa =>
      (set_pendingAccusation None updates,
       logs ++ ["Accusation against " +:+ pa_targetName pa +:+ " was withdrawn."])
  | None => l
  end.

Definition accuseReveal (playerId : string) (data : ActionData) (l : Locals)
  : M Locals :=
  let '(updates, logs) := l in
  match pendingAccusation updates with
  | Some pa =>
      if pa_accepted pa && String.eqb (pa_accuserId pa) playerId then
        let isTarget := λ p, String.eqb (p_id p) (pa_targetId pa) in
        match List.find isTarget (players updates) with
        | Some targetPlayer =>
            match findCard (cardId data) (p_cards targetPlayer) with
            | Some card =>
                if negb (c_isRevealed card) then
                  let cards1 :=
                    mutateFirst (λ c, idIs (cardId data) (c_id c)) card_reveal
                      (p_cards targetPlayer) in
                  let logs1 :=
                    logs ++ [p_name targetPlayer +:+ " revealed "
                               +:+ typeName (c_type card) +:+ "!"] in
                  if typeIs WITCH card then
                    msg ← getRandomMessage WITCH_FOUND_MESSAGES (p_name targetPlayer);
                    let players' :=
                      mutateFirst isTarget
                        (λ p, p_with_cards (map card_reveal cards1)
                                (p_with_isDead true p))
                        (players updates) in
                    mret (set_pendingAccusation None (set_players players' updates),
                          logs1 ++ [msg])
                  else if allRevealed cards1 then
                    msg ← getRandomMessage ALL_CARDS_REVEALED_MESSAGES
                            (p_name targetPlayer);
                    let players' :=
                      mutateFirst isTarget
                        (λ p, p_with_isDead true (p_with_cards cards1 p))
                        (players updates) in
                    mret (set_pendingAccusation None (set_players players' updates),
                          logs1 ++ [msg])
                  else
                    let players' :=
                      mutateFirst isTarget (p_with_cards cards1) (players updates) in
                    mret (set_pendingAccusation None (set_players players' updates),
                          logs1)
                else mret l
            | None => mret l
            end
        | None => mret l
        end
      else mret l
  | None => mret l
  end.

Definition nightConfirm (playerId : string) (data : ActionData) (l : Locals)
  : Locals :=
  let '(updates, logs) := l in
  if negb (includes playerId (nightConfirmations updates)) then
    let updates1 :=
      set_nightConfirmations (nightConfirmations updates ++ [playerId]) updates in
    match fakeTargetId data with
    | Some t =>
        if negb (String.eqb t "") then
          (set_fakeVotes
             (<[t := (default 0 (fakeVotes updates1 !! t) + 1)%Z]> (fakeVotes updates1))
             updates1, logs)
        else (updates1, logs)
    | None => (updates1, logs)
    end
  else l.

(** The shared first half of BLACK_CAT and KILL_VOTE: the caller's vote
    replaces their earlier one, then a vote is pushed for every living ghost
    witch that has none yet. *)
Definition addGhostVote (tid targetName : string) (votes : list WitchVote)
    (ghost : Player) : list WitchVote :=
  if existsb (λ v, String.eqb (wv_voterId v) (p_id ghost)) votes then votes
  else votes ++ [mkVote (p_id ghost) (p_name ghost) tid targetName].

Definition castWitchVote (playerId tid : string) (voter target : Player)
    (updates : GameState) : GameState :=
  let existingVotes :=
    List.filter (λ v, negb (String.eqb (wv_voterId v) playerId))
      (witchVotes updates) in
  let votes1 :=
    existingVotes ++ [mkVote playerId (p_name voter) tid (p_name target)] in
  let ghostWitches :=
    List.filter (λ p, p_isGhost p && p_hasRevealedWitch p && negb (p_isDead p))
      (players updates) in
  set_witchVotes (fold_left (addGhostVote tid (p_name target)) ghostWitches votes1)
    updates.

Definition blackCat (playerId : string) (data : ActionData) (l : Locals)
  : Locals :=
  let '(updates, logs) := l in
  match findPlayer (Some playerId) (players updates),
        findPlayer (targetId data) (players updates), targetId data with
  | Some voter, Some target, Some tid =>
      let updates1 := castWitchVote playerId tid voter target updates in
      let updates2 :=
        set_players
          (map (λ p, p_with_hasBlackCat (String.eqb (p_id p) tid) p)
             (players updates1)) updates1 in
      (confirm playerId updates2, logs)
  | _, _, _ => l
  end.

Definition killVote (playerId : string) (data : ActionData) (l : Locals)
  : Locals :=
  let '(updates, logs) := l in
  match findPlayer (Some playerId) (players updates),
        findPlayer (targetId data) (players updates), targetId data with
  | Some voter, Some target, Some tid =>
      let updates1 := castWitchVote playerId tid voter target updates in
      let updates2 := set_nightKillTargetId (Some tid) updates1 in
      (confirm playerId updates2, logs)
  | _, _, _ => l
  end.

Definition guardVote (playerId : string) (data : ActionData) (l : Locals)
  : Locals :=
  let '(updates, logs) := l in
  (confirm playerId (set_constableGuardId (targetId data) updates), logs).

Definition guardSkip (playerId : string) (l : Locals) : Locals :=
  let '(updates, logs) := l in
  (confirm playerId (set_constableGuardId (Some "SKIP") updates), logs).

Definition selfReveal (playerId : string) (data : ActionData) (l : Locals)
  : Locals :=
  let '(updates, logs) := l in
  let isCaller := λ p, String.eqb (p_id p) playerId in
  match List.find isCaller (players updates) with
  | Some player =>
      match findCard (cardId data) (p_cards player) with
      | Some card =>
          let players' :=
            mutateFirst isCaller
              (λ p, p_with_immune true
                      (p_with_cards
                         (mutateFirst (λ c, idIs (cardId data) (c_id c))
                            card_reveal (p_cards p)) p))
              (players updates) in
          (confirm playerId (set_players players' updates),
           logs ++ [p_name player +:+ " confessed to seek safety."])
      | None => (confirm playerId updates, logs)
      end
  | None => (confirm playerId updates, logs)
  end.

Definition confessionPass (playerId : string) (l : Locals) : Locals :=
  let '(updates, logs) := l in (confirm playerId updates, logs).

(** [player.cards = [...shuffle(hiddenCards), ...revealedCards]] on the
    player found by [f]. *)
Definition shuffleHidden (f : Player → bool) (l : Locals) : M Locals :=
  let '(updates, logs) := l in
  match List.find f (players updates) with
  | Some player =>
      let hiddenCards := List.filter (λ c, negb (c_isRevealed c)) (p_cards player) in
      let revealedCards := List.filter c_isRevealed (p_cards player) in
      shuffled ← shuffle hiddenCards;
      mret (set_players
              (mutateFirst f (p_with_cards (shuffled ++ revealedCards))
                 (players updates)) updates, logs)
  | None => mret l
  end.

Definition shuffleHand (playerId : string) (l : Locals) : M Locals :=
  shuffleHidden (λ p, String.eqb (p_id p) playerId) l.

Definition shuffleGhost (data : ActionData) (l : Locals) : M Locals :=
  shuffleHidden (λ p, idIs (ghostId data) (p_id p) && p_isGhost p) l.

Definition winMessage (win : WinResult) : string :=
  (match win with TOWN_WIN => "Town" | WITCH_WIN => "Witches" end) +:+ " Win!".

(** [`${targetPlayer?.name}`] *)
Definition nameOrUndefined (p : option Player) : string :=
  match p with
  | Some q => p_name q
  | None => "undefined"
  end.

Definition nightDamageSelect (playerId : string) (data : ActionData) (l : Locals)
  : Locals :=
  let '(updates, logs) := l in
  match nightDamageSelection updates with
  | Some nds =>
      if String.eqb (nd_chooserId nds) playerId then
        let tid := nd_targetId nds in
        let selectedCardIds := cardIds data in
        let targetPlayer := findPlayer (Some tid) (players updates) in
        let players' :=
          map (λ p,
                 if negb (String.eqb (p_id p) tid) then p
                 else
                   let newCards :=
                     map (λ c, card_with_revealed
                                 (if includes (c_id c) selectedCardIds then true
                                  else c_isRevealed c) c) (p_cards p) in
                   p_with_isDead (allRevealed newCards) (p_with_cards newCards p))
            (players updates) in
        let updates1 := set_players players' updates in
        let updatedTarget := findPlayer (Some tid) players' in
        let logs1 :=
          if match updatedTarget with Some q => p_isDead q | None => false end then
            logs ++ [nameOrUndefined targetPlayer
                       +:+ " had all their cards revealed and has been eliminated!"]
          else
            logs ++ [nameOrUndefined targetPlayer +:+ " lost "
                       +:+ pretty (length selectedCardIds)
                       +:+ " card(s) to the night attack."] in
        let '(updates2, logs2) :=
          match checkWinCondition (players updates1) (isSmallGameMode updates1) with
          | Some win => (set_phase GAME_OVER updates1, logs1 ++ [winMessage win])
          | None =>
              (set_turnCounter (turnCounter updates1 + 1) (set_phase DAY updates1),
               logs1)
          end in
        (set_nightDamageSelection None
           (set_witchVotes []
              (set_constableGuardId None
                 (set_nightKillTargetId None updates2))), logs2)
      else l
  | None => l
  end.

Definition triggerConspiracy (l : Locals) : Locals :=
  let '(updates, logs) := l in
  (set_conspiracySelections [] (set_phase CONSPIRACY updates),
   logs ++ ["Conspiracy begins! Each player selects a hidden card from their left neighbor."]).

(** *** Conspiracy *)

Record Transfer := mkTransfer {
  fromPlayerId : string;
  toPlayerId : string;
  tr_cardId : option string
}.

(** [a === b] on ids that may be undefined. *)
Definition optIdEqb (a b : option string) : bool :=
  match a, b with
  | Some x, Some y => String.eqb x y
  | None, None => true
  | _, _ => false
  end.

(** The entity before position [index] of [alive], wrapping around;
    [index] is the result of a [findIndex] ([None] for -1). *)
Definition leftNeighborAt (alive : list Player) (index : option nat)
  : option Player :=
  let leftIndex :=
    match index with
    | Some (S k) => k
    | _ => (length alive - 1)%nat
    end in
  alive !! leftIndex.

(** One round of the loop over the living ghosts. *)
Definition ghostSelect (aliveEntitiesList : list Player)
    (sels : list ConspiracySelection) (ghost : Player)
  : M (list ConspiracySelection) :=
  let ghostIndex :=
    findIndex (λ p, String.eqb (p_id p) (p_id ghost)) aliveEntitiesList in
  let hiddenCards :=
    match leftNeighborAt aliveEntitiesList ghostIndex with
    | Some leftNeighbor =>
        List.filter (λ c, negb (c_isRevealed c)) (p_cards leftNeighbor)
    | None => []
    end in
  if (0 <? length hiddenCards)%nat then
    j ← randomBelow (length hiddenCards);
    match hiddenCards !! j with
    | Some randomCard =>
        mret (sels ++ [mkSelection (Some (p_id ghost)) (Some (c_id randomCard))])
    | None => mret sels
    end
  else mret sels.

(** One round of the loop that builds [cardTransfers]. *)
Definition transferFor (ps : list Player) (selection : ConspiracySelection)
  : list Transfer :=
  match findPlayer (cs_playerId selection) ps, cs_playerId selection with
  | Some receivingPlayer, Some rid =>
      if p_isDead receivingPlayer then []
      else
        let aliveEntities := List.filter (λ p, negb (p_isDead p)) ps in
        let receiverIndex :=
          findIndex (λ p, String.eqb (p_id p) rid) aliveEntities in
        match leftNeighborAt aliveEntities receiverIndex with
        | Some leftNeighbor =>
            [mkTransfer (p_id leftNeighbor) rid (cs_selectedCardId selection)]
        | None => []
        end
  | _, _ => []
  end.

(** [playerCardsMap]: a later player with the same id overwrites. *)
Definition buildCardsMap (ps : list Player) : gmap string (list Card) :=
  fold_left (λ m p, <[p_id p := p_cards p]> m) ps ∅.

(** One round of the loop that executes the transfers, on the map and on
    [newWitchPlayerIds]. When source and destination are the same array the
    [push] sees the [splice]. *)
Definition executeTransfer (st : gmap string (list Card) * list string)
    (transfer : Transfer) : gmap string (list Card) * list string :=
  let '(m, newWitchPlayerIds) := st in
  match m !! fromPlayerId transfer, m !! toPlayerId transfer with
  | Some fromCards, Some _ =>
      match findIndex (λ c, idIs (tr_cardId transfer) (c_id c)) fromCards with
      | Some cardIndex =>
          match fromCards !! cardIndex with
          | Some card =>
              let m1 := <[fromPlayerId transfer := delete cardIndex fromCards]> m in
              let m2 :=
                <[toPlayerId transfer :=
                    default [] (m1 !! toPlayerId transfer) ++ [card]]> m1 in
              (m2, if typeIs WITCH card
                   then newWitchPlayerIds ++ [toPlayerId transfer]
                   else newWitchPlayerIds)
          | None => st
          end
      | None => st
      end
  | _, _ => st
  end.

Definition conspiracyResolve (updates : GameState) (logs : list LogEntry)
  : M Locals :=
  let ps := players updates in
  let aliveEntitiesList := List.filter (λ p, negb (p_isDead p)) ps in
  let ghosts := List.filter p_isGhost aliveEntitiesList in
  sels ← foldR (ghostSelect aliveEntitiesList) ghosts (conspiracySelections updates);
  let cardTransfers := flat_map (transferFor ps) sels in
  let '(playerCardsMap, newWitchPlayerIds) :=
    fold_left executeTransfer cardTransfers (buildCardsMap ps, []) in
  players' ←
    mapR (λ p,
            cards ← shuffle (default (p_cards p) (playerCardsMap !! p_id p));
            mret (p_with_hasRevealedWitch
                    (p_hasRevealedWitch p || includes (p_id p) newWitchPlayerIds)
                    (p_with_cards cards p))) ps;
  mret (set_conspiracySelections []
          (set_phase DAY (set_players players' updates)),
        logs ++ ["Conspiracy complete! Cards have been passed."]).

Definition conspiracySelect (forOther : bool) (playerId : string)
    (data : ActionData) (l : Locals) : M Locals :=
  let '(updates, logs) := l in
  let targetPlayerId := if forOther then forPlayerId data else Some playerId in
  let existingSelections :=
    List.filter (λ s, negb (optIdEqb (cs_playerId s) targetPlayerId))
      (conspiracySelections updates) in
  let updates1 :=
    set_conspiracySelections
      (existingSelections ++ [mkSelection targetPlayerId (cardId data)]) updates in
  let aliveRealPlayers :=
    List.filter (λ p, negb (p_isDead p) && negb (p_isGhost p)) (players updates1) in
  let allSelected :=
    forallb (λ p, existsb (λ s, idIs (cs_playerId s) (p_id p))
                    (conspiracySelections updates1)) aliveRealPlayers in
  if allSelected then conspiracyResolve updates1 logs
  else mret (updates1, logs).

(** *** The dispatcher *)

Definition dispatch (playerId action : string) (data : ActionData) (l : Locals)
  : M Locals :=
  if String.eqb action "ACCUSE_START" then mret (accuseStart playerId data l)
  else if String.eqb action "ACCUSE_ACCEPT" then mret (accuseAccept playerId l)
  else if String.eqb action "ACCUSE_CANCEL" then mret (accuseCancel l)
  else if String.eqb action "ACCUSE_REVEAL" then accuseReveal playerId data l
  else if String.eqb action "NIGHT_CONFIRM" then mret (nightConfirm playerId data l)
  else if String.eqb action "BLACK_CAT" then mret (blackCat playerId data l)
  else if String.eqb action "KILL_VOTE" then mret (killVote playerId data l)
  else if String.eqb action "GUARD_VOTE" then mret (guardVote playerId data l)
  else if String.eqb action "GUARD_SKIP" then mret (guardSkip playerId l)
  else if String.eqb action "SELF_REVEAL" then mret (selfReveal playerId data l)
  else if String.eqb action "CONFESSION_PASS" then mret (confessionPass playerId l)
  else if String.eqb action "SHUFFLE_HAND" then shuffleHand playerId l
  else if String.eqb action "SHUFFLE_GHOST" then shuffleGhost data l
  else if String.eqb action "NIGHT_DAMAGE_SELECT"
  then mret (nightDamageSelect playerId data l)
  else if String.eqb action "TRIGGER_CONSPIRACY" then mret (triggerConspiracy l)
  else if String.eqb action "CONSPIRACY_SELECT"
  then conspiracySelect false playerId data l
  else if String.eqb action "CONSPIRACY_SELECT_FOR_OTHER"
  then conspiracySelect true playerId data l
  else mret l.

(** The tail of [processPlayerAction]: the win check and the result. *)
Definition finishAction (state : GameState) (l : Locals) : GameState :=
  let '(updates, logs) := l in
  match checkWinCondition (players updates) (isSmallGameMode updates) with
  | Some win =>
      if negb (GamePhase_eqb (phase state) GAME_OVER) then
        set_logs (logs ++ [winMessage win]) (set_phase GAME_OVER updates)
      else set_logs logs updates
  | None => set_logs logs updates
  end.

Definition processPlayerAction (state : GameState) (playerId action : string)
    (data : ActionData) : M GameState :=
  l ← dispatch playerId action data (state, logs state);
  mret (finishAction state l).

(** The result of a computation under an oracle. *)
Definition run {A} (m : M A) (r : Rand) : A := fst (m r).


(** ** Night resolution ([logic/phaseTransitions]) *)

(** [v || null] on an id: the empty string is falsy. *)
Definition truthyId (v : option string) : option string :=
  match v with
  | Some s => if String.eqb s "" then None else Some s
  | None => None
  end.

Definition getLeftNeighborId (ps : list Player) (playerId : string)
  : option string :=
  let aliveEntities := List.filter (λ p, negb (p_isDead p)) ps in
  match findIndex (λ p, String.eqb (p_id p) playerId) aliveEntities with
  | None => None
  | Some index =>
      let leftIndex :=
        if (index =? 0)%nat then (length aliveEntities - 1)%nat
        else (index - 1)%nat in
      truthyId (p_id <$> aliveEntities !! leftIndex)
  end.

Definition NIGHT_KILL_MESSAGES : list (string * string) :=
  [ ("", " was found lifeless at dawn, victim of dark sorcery!");
    ("The witches claimed ", " in the dead of night!");
    ("", " met their end under the cover of darkness!");
    ("Alas! ", " has been struck down by malevolent forces!");
    ("", " was discovered at sunrise, their fate sealed by witchcraft!");
    ("The coven has claimed another soul - ", " breathes no more!");
    ("Dark magic has taken ", " from this mortal realm!");
    ("", " was found cold and still - the witches' work is done!");
    ("By unholy means, ", " has perished in the night!");
    ("The witches' curse fell upon ", " - they are no more!") ].

(** One round of [state.players.map(...)] in [resolveNight]: the new
    player, and [deathMessage] as the round leaves it. *)
Definition resolvePlayer (killed : option string) (targetDies : bool)
    (deathMessage : string) (p : Player) : M (Player * string) :=
  let player := p_with_immune false p in
  if idIs killed (p_id p) && targetDies then
    msg ← getRandomMessage NIGHT_KILL_MESSAGES (p_name p);
    mret (p_with_cards (map card_reveal (p_cards player))
            (p_with_isDead true player), msg)
  else mret (player, deathMessage).

Fixpoint resolvePlayers (killed : option string) (targetDies : bool)
    (deathMessage : string) (ps : list Player) : M (list Player * string) :=
  match ps with
  | [] => mret ([], deathMessage)
  | p :: rest =>
      '(p', deathMessage1) ← resolvePlayer killed targetDies deathMessage p;
      '(rest', deathMessage2) ← resolvePlayers killed targetDies deathMessage1 rest;
      mret (p' :: rest', deathMessage2)
  end.

(** [chooser?.name || 'Someone'] *)
Definition nameOrSomeone (p : option Player) : string :=
  match p with
  | Some q => if String.eqb (p_name q) "" then "Someone" else p_name q
  | None => "Someone"
  end.

(** The state both exits of [resolveNight] and [applyNightDamage] build
    once the night is over. *)
Definition endNight (state : GameState) (newPlayers : list Player)
    (logs : list LogEntry) : GameState :=
  let cleared s :=
    set_nightDamageSelection None
      (set_witchVotes []
         (set_constableGuardId None
            (set_nightKillTargetId None s))) in
  match checkWinCondition newPlayers (isSmallGameMode state) with
  | Some win =>
      cleared (set_phase GAME_OVER
                 (set_logs (logs ++ [winMessage win])
                    (set_players newPlayers state)))
  | None =>
      cleared (set_turnCounter (turnCounter state + 1)
                 (set_logs logs
                    (set_phase DAY (set_players newPlayers state))))
  end.

(** The part of [resolveNight] after the small-game branch. *)
Definition resolveNightFull (state : GameState) (targetDies : bool)
  : M GameState :=
  let killed := nightKillTargetId state in
  let targetPlayer := findPlayer killed (players state) in
  '(newPlayers, deathMessage0) ←
    resolvePlayers killed targetDies "The night was peaceful." (players state);
  let deathMessage :=
    if falsy killed then "The witches did not select a target."
    else if negb targetDies then
      nameOrUndefined targetPlayer +:+ " was targeted but survived the night!"
    else deathMessage0 in
  mret (endNight state newPlayers (logs state ++ [deathMessage])).

Definition resolveNight (state : GameState) (targetDies : bool) : M GameState :=
  let killed := nightKillTargetId state in
  let targetPlayer := findPlayer killed (players state) in
  match targetPlayer, killed with
  | Some target, Some killedId =>
      if isSmallGameMode state && targetDies && negb (falsy killed) then
        let leftNeighborId := getLeftNeighborId (players state) killedId in
        let chooserId :=
          if p_isGhost target then
            default ""
              (truthyId
                 (p_id <$> List.find (λ p, negb (p_isGhost p) && negb (p_isDead p))
                             (players state)))
          else default "" leftNeighborId in
        if negb (String.eqb chooserId "") then
          let chooser := findPlayer (Some chooserId) (players state) in
          let logs' :=
            logs state
            ++ [p_name target +:+ " was attacked! " +:+ nameOrSomeone chooser
                  +:+ " must choose 2 cards to reveal."] in
          let newPlayers := map (p_with_immune false) (players state) in
          mret (set_nightDamageSelection (Some (mkDamage killedId chooserId true))
                  (set_logs logs' (set_players newPlayers state)))
        else resolveNightFull state targetDies
      else resolveNightFull state targetDies
  | _, _ => resolveNightFull state targetDies
  end.

Definition applyNightDamage (state : GameState) (selectedCardIds : list string)
  : GameState :=
  match nightDamageSelection state with
  | None => state
  | Some nds =>
      let tid := nd_targetId nds in
      let targetPlayer := findPlayer (Some tid) (players state) in
      let newPlayers :=
        map (λ p,
               if negb (String.eqb (p_id p) tid) then p
               else
                 let newCards :=
                   map (λ c, card_with_revealed
                               (if includes (c_id c) selectedCardIds then true
                                else c_isRevealed c) c) (p_cards p) in
                 p_with_isDead (allRevealed newCards) (p_with_cards newCards p))
          (players state) in
      let updatedTarget := findPlayer (Some tid) newPlayers in
      let revealedCount := length selectedCardIds in
      let logs' :=
        if match updatedTarget with Some q => p_isDead q | None => false end then
          logs state
          ++ [nameOrUndefined targetPlayer
                +:+ " had all their cards revealed and has been eliminated!"]
        else
          logs state
          ++ [nameOrUndefined targetPlayer +:+ " lost " +:+ pretty revealedCount
                +:+ " card(s) to the night attack."] in
      endNight state newPlayers logs'
  end.

(** ** The host ([App.tsx]) *)

Definition p_with_peerId (v : string) (p : Player) : Player :=
  mkPlayer (p_id p) (p_name p) v (p_isHost p) (p_isDead p)
    (p_hasBlackCat p) (p_cards p) (p_hasRevealedWitch p) (p_immune p)
    (p_isDisconnected p) (p_isGhost p).

Definition p_with_isDisconnected (b : bool) (p : Player) : Player :=
  mkPlayer (p_id p) (p_name p) (p_peerId p) (p_isHost p) (p_isDead p)
    (p_hasBlackCat p) (p_cards p) (p_hasRevealedWitch p) (p_immune p)
    b (p_isGhost p).

Definition set_isSmallGameMode (v : bool) (s : GameState) : GameState :=
  mkState (roomId s) (phase s) (players s) (logs s) (nightKillTargetId s)
    (constableGuardId s) (turnCounter s) (witchVotes s) (pendingAccusation s)
    (conspiracySelections s) (nightConfirmations s) (fakeVotes s)
    v (nightDamageSelection s).

(** *** Seating *)

Inductive Direction := up | down.

(** [movePlayer(index, direction)]. [None] stands for the roster the source
    leaves with an [undefined] entry: the new index is a seat but [index]
    itself is not (-1 going down, or the length going up). *)
Definition movePlayer (isHost : bool) (index : Z) (direction : Direction)
    (state : GameState) : option GameState :=
  if negb isHost then Some state
  else
    let newIndex :=
      match direction with up => (index - 1)%Z | down => (index + 1)%Z end in
    let len := Z.of_nat (length (players state)) in
    if (newIndex <? 0)%Z || (len <=? newIndex)%Z then Some state
    else if (index <? 0)%Z || (len <=? index)%Z then None
    else
      Some (set_players
              (swap (Z.to_nat index) (Z.to_nat newIndex) (players state)) state).

Definition MIN_PLAYERS : nat := 2.

Section Host.

(** The rendering [sample.toString(36).substring(2, 9)] of a raw sample. *)
Variable randomId : nat → string.

Definition createGhost (name : string) : M Player :=
  n ← randomSample;
  mret (mkPlayer ("ghost-" +:+ randomId n) name "" false false false []
          false false false true).

(** [allEntities] of [startGame]. *)
Definition seatEntities (ps : list Player) : M (list Player) :=
  match ps with
  | [p1; p2] =>
      g1 ← createGhost "Ghost 1";
      g2 ← createGhost "Ghost 2";
      mret [p1; g1; p2; g2]
  | [_; _; _] =>
      g ← createGhost "Ghost";
      mret (ps ++ [g])
  | _ => mret ps
  end.

(** [startGame]; the render state it reads the players from and the state
    its update is applied to are the same state. *)
Definition startGame (gameState : GameState) : M GameState :=
  if (length (players gameState) <? MIN_PLAYERS)%nat then mret gameState
  else
    let isSmallGame := (length (players gameState) <=? 3)%nat in
    allEntities ← seatEntities (players gameState);
    playersWithCards ← distributeCards randomId allEntities;
    let ghosts := (length allEntities - length (players gameState))%nat in
    let startMessage :=
      if isSmallGame then
        "Small Game Started (" +:+ pretty (length (players gameState))
          +:+ " players + " +:+ pretty ghosts +:+ " ghost"
          +:+ (if (1 <? ghosts)%nat then "s" else "")
          +:+ "). Cards distributed."
      else "Game Started. Cards distributed." in
    mret (set_logs (logs gameState ++ [startMessage])
            (set_fakeVotes ∅
               (set_isSmallGameMode isSmallGame
                  (set_players playersWithCards
                     (set_phase SETUP gameState))))).

End Host.

(** *** Messages from the clients *)

Inductive ClientMessage :=
  | JOIN (name : string)
  | REJOIN (name playerId : string)
  | LEAVE (playerId : string)
  | ACTION (action : string) (data : ActionData).

(** What the host sends back to one connection. *)
Inductive HostReply :=
  | WELCOME (gameState : GameState) (playerId : string)
  | HAND (cards : list Card)
  | ERROR (message : string).

Definition dquote : string := String (Ascii.ascii_of_nat 34) "".

Definition newPlayer (i name peer : string) : Player :=
  mkPlayer i name peer false false false [] false false false false.

(** [{ ...p, peerId: connId, isDisconnected: false }] on the players with
    the id [i]. *)
Definition reattach (i connId : string) (ps : list Player) : list Player :=
  map (λ p, if String.eqb (p_id p) i
            then p_with_isDisconnected false (p_with_peerId connId p) else p) ps.

Definition reconnected (prev : GameState) (existingPlayer : Player)
    (connId : string) : GameState * list (string * HostReply) :=
  let newState :=
    set_logs (logs prev ++ [p_name existingPlayer +:+ " reconnected."])
      (set_players (reattach (p_id existingPlayer) connId (players prev)) prev) in
  (newState,
   [(connId, WELCOME newState (p_id existingPlayer));
    (connId, HAND (p_cards existingPlayer))]).

Definition joined (prev : GameState) (i name connId : string)
  : GameState * list (string * HostReply) :=
  let newState :=
    set_logs (logs prev ++ [name +:+ " joined."])
      (set_players (players prev ++ [newPlayer i name connId]) prev) in
  (newState, [(connId, WELCOME newState i)]).

(** [handleHostMessage]: the new state and the replies it schedules. *)
Definition handleHostMessage (isHost : bool) (prev : GameState)
    (connId : string) (msg : ClientMessage)
  : M (GameState * list (string * HostReply)) :=
  if negb isHost then mret (prev, [])
  else
    match msg with
    | JOIN name =>
        match findPlayer (Some connId) (players prev) with
        | Some _ => mret (prev, [])
        | None =>
            let byName := List.find (λ p, String.eqb (p_name p) name) (players prev) in
            if negb (GamePhase_eqb (phase prev) LOBBY) then
              match byName with
              | Some existingPlayer => mret (reconnected prev existingPlayer connId)
              | None =>
                  mret (prev,
                        [(connId,
                          ERROR "Game has already started. Cannot join as a new player.")])
              end
            else
              match byName with
              | Some _ =>
                  mret (prev,
                        [(connId,
                          ERROR ("Name " +:+ dquote +:+ name +:+ dquote
                                   +:+ " is already taken. Please choose a different name."))])
              | None => mret (joined prev connId name connId)
              end
        end
    | REJOIN name playerId =>
        match findPlayer (Some playerId) (players prev) with
        | Some existingPlayer => mret (reconnected prev existingPlayer connId)
        | None => mret (joined prev playerId name connId)
        end
    | LEAVE playerId =>
        let logs' := logs prev ++ ["A player left the game."] in
        if GamePhase_eqb (phase prev) LOBBY then
          mret (set_logs logs'
                  (set_players
                     (List.filter (λ p, negb (String.eqb (p_id p) playerId))
                        (players prev)) prev), [])
        else
          mret (set_logs logs'
                  (set_players
                     (map (λ p, if String.eqb (p_id p) playerId
                                then p_with_isDisconnected true p else p)
                        (players prev)) prev), [])
    | ACTION action data =>
        state' ← processPlayerAction prev connId action data;
        mret (state', [])
    end.

(** The [onDisconnect] listener of the host. *)
Definition handleDisconnect (prev : GameState) (connId : string) : GameState :=
  match List.find (λ p, String.eqb (p_peerId p) connId) (players prev) with
  | None => prev
  | Some player =>
      set_logs (logs prev ++ [p_name player +:+ " disconnected."])
        (set_players
           (map (λ p, if String.eqb (p_peerId p) connId
                      then p_with_isDisconnected true p else p)
              (players prev)) prev)
  end.

(** ** Session storage ([services/sessionStorage]) *)

Record SessionData := mkSession {
  s_playerId : string;
  s_playerName : string;
  s_roomId : string;
  s_isHost : bool;
  s_gameState : option GameState;
  s_timestamp : Z
}.

(** The fields [saveSession] reads of its [Partial<SessionData>]. *)
Record SessionPatch := mkPatch {
  d_playerId : option string;
  d_playerName : option string;
  d_roomId : option string;
  d_isHost : option bool;
  d_gameState : option GameState
}.

(** The item of [localStorage] under [STORAGE_KEY]; a session is plain data
    and survives [JSON.stringify] and [JSON.parse] as it is. *)
Definition Storage : Type := option SessionData.

Definition SESSION_EXPIRY_MS : Z := 30 * 60 * 1000.

Definition clearSession (store : Storage) : Storage := None.

(** [loadSession] at the clock reading [now]: the result and the storage
    it leaves. *)
Definition loadSession (now : Z) (store : Storage)
  : option SessionData * Storage :=
  match store with
  | None => (None, store)
  | Some session =>
      if (SESSION_EXPIRY_MS <? now - s_timestamp session)%Z
      then (None, clearSession store)
      else (Some session, store)
  end.

Section Session.

(** The rendering [sample.toString(36).substring(2, 6).toUpperCase()]. *)
Variable randomPeerId : nat → string.

Definition generatePlayerId : M string :=
  n ← randomSample; mret (randomPeerId n).

(** [saveSession]; the clock is read once by [loadSession] ([tLoad]) and
    once for the new timestamp ([tSave]). *)
Definition saveSession (data : SessionPatch) (tLoad tSave : Z)
    (store : Storage) : M Storage :=
  let existing := fst (loadSession tLoad store) in
  playerId ←
    match truthyId (d_playerId data) with
    | Some i => mret i
    | None =>
        match truthyId (s_playerId <$> existing) with
        | Some i => mret i
        | None => generatePlayerId
        end
    end;
  mret (Some (mkSession playerId
                (default (default "" (s_playerName <$> existing)) (d_playerName data))
                (default (default "" (s_roomId <$> existing)) (d_roomId data))
                (default (default false (s_isHost <$> existing)) (d_isHost data))
                (match d_gameState data with
                 | Some g => Some g
                 | None => existing ≫= s_gameState
                 end)
                tSave)).

Definition saveGameState (gameState : GameState) (tLoad tSave : Z)
    (store : Storage) : M Storage :=
  saveSession (mkPatch None None None None (Some gameState)) tLoad tSave store.

End Session.

(** * Specification vocabulary and sample states *)

(** ** Phase machine *)

(** Some living entity holds an unrevealed CONSTABLE card. *)
Definition holdsActiveConstable (state : GameState) : Prop :=
  ∃ p c, In p (players state) ∧ p_isDead p = false ∧ In c (p_cards p)
         ∧ c_type c = Some CONSTABLE ∧ c_isRevealed c = false.

(** A night with the CONSTABLE card in a living hand, hidden or revealed. *)
Definition constableState (revealed : bool) : GameState :=
  mkState "room" NIGHT_WITCH_VOTE
    [mkPlayer "a" "Ann" "a" true false false
       [mkCard "k1" (Some CONSTABLE) revealed] false false false false;
     mkPlayer "b" "Bob" "b" false false false
       [mkCard "k2" (Some WITCH) false] true false false false]
    ["earlier"] None None 1 [] None [] ["a"; "b"] ∅ false None.

(** ** Win condition *)

(** [c] is the first WITCH card of [cs]. *)
Definition firstWitchCard (cs : list Card) (c : Card) : Prop :=
  ∃ before after, cs = before ++ c :: after
    ∧ (∀ x, In x before → c_type x ≠ Some WITCH)
    ∧ c_type c = Some WITCH.

(** The first WITCH card in seating order has been revealed. *)
Definition firstWitchRevealed (ps : list Player) : Prop :=
  ∃ c, firstWitchCard (flat_map p_cards ps) c ∧ c_isRevealed c = true.




(** A roster of two real players: a living witch and a dead townsperson
    whose card was never revealed. *)
Definition deadTownRoster : list Player :=
  [mkPlayer "a" "Ann" "a" true false false
     [mkCard "w" (Some WITCH) false] true false false false;
   mkPlayer "b" "Bob" "b" false true false
     [mkCard "n" (Some NOT_A_WITCH) false] false false false false].




(** Two witch-aligned players and one WITCH card, hidden or revealed. *)
Definition covenRoster (witchRevealed : bool) : list Player :=
  [mkPlayer "a" "Ann" "a" true false false
     [mkCard "w" (Some WITCH) witchRevealed; mkCard "n1" (Some NOT_A_WITCH) false]
     true false false false;
   mkPlayer "b" "Bob" "b" false false false
     [mkCard "n2" (Some NOT_A_WITCH) false] true false false false].

(** ** Masking *)

(** [d] is [c] with its role possibly replaced, when [c] is unrevealed. *)
Definition cardSameButHiddenType (c d : Card) : Prop :=
  c_id d = c_id c ∧ c_isRevealed d = c_isRevealed c
  ∧ (c_isRevealed c = true → c_type d = c_type c).

Definition playerSameButHiddenTypes (p q : Player) : Prop :=
  q = p_with_cards (p_cards q) p
  ∧ Forall2 cardSameButHiddenType (p_cards p) (p_cards q).

(** Two states that differ at most in the roles of unrevealed cards. *)
Definition sameButHiddenTypes (gs1 gs2 : GameState) : Prop :=
  gs2 = set_players (players gs2) gs1
  ∧ Forall2 playerSameButHiddenTypes (players gs1) (players gs2).

(** What the broadcast shows of one card. *)
Definition cardMasked (c d : Card) : Prop :=
  c_id d = c_id c ∧ c_isRevealed d = c_isRevealed c
  ∧ c_type d = if c_isRevealed c then c_type c else None.

(** What the broadcast shows of one player: every field but the roles of
    the unrevealed cards. *)
Definition playerMasked (p q : Player) : Prop :=
  q = p_with_cards (p_cards q) p ∧ Forall2 cardMasked (p_cards p) (p_cards q).

(** A player as the lobby creates it. *)
Definition lobbyPlayer (i name : string) (host : bool) : Player :=
  mkPlayer i name i host false false [] false false false false.

Definition fourPlayers : list Player :=
  [lobbyPlayer "a" "Ann" true; lobbyPlayer "b" "Bob" false;
   lobbyPlayer "c" "Cid" false; lobbyPlayer "d" "Dee" false].

(** The state [startGame] installs once the cards are dealt. *)
Definition startedState (ps : list Player) : GameState :=
  mkState "room" SETUP ps ["Game Started. Cards distributed."] None None 0 []
    None [] [] ∅ false None.

(** Two shuffles of the four-player deck: the WITCH card on top, and the
    WITCH card sixth. *)
Definition witchFirstDeck : list CardType :=
  WITCH :: CONSTABLE :: replicate 18 NOT_A_WITCH.

Definition witchSixthDeck : list CardType :=
  replicate 5 NOT_A_WITCH ++ WITCH :: CONSTABLE :: replicate 13 NOT_A_WITCH.

(** An id rendering and an oracle for the examples. *)
Definition sampleId (n : nat) : string := "card" +:+ pretty n.
Definition countingOracle : Rand := λ n, n.

(** The broadcast after dealing [deck1] is the broadcast after dealing
    [deck2]: what it would mean for the broadcast to say nothing about who
    holds which hidden role. *)
Definition broadcastIndependentOfDeal (ps : list Player)
    (deck1 deck2 : list CardType) : Prop :=
  publicState (startedState (run (dealDeck sampleId deck1 ps) countingOracle))
  = publicState (startedState (run (dealDeck sampleId deck2 ps) countingOracle)).

(** A state with a revealed and two hidden cards, and a variant with the
    hidden roles exchanged. *)
Definition maskSample (t1 t2 : CardType) : GameState :=
  mkState "room" DAY
    [mkPlayer "a" "Ann" "a" true false false
       [mkCard "x" (Some CONSTABLE) true; mkCard "y" (Some t1) false]
       true false false false;
     mkPlayer "b" "Bob" "b" false false false
       [mkCard "z" (Some t2) false] false false false false]
    [] None None 1 [] None [] [] ∅ false None.

(** ** Dealer *)

(** The deck positions seat [i] of [n] would get from a round-robin deal of
    [cardsPerPlayer] rounds: [i], [i + n], [i + 2n], ... *)
Definition roundRobinPositions (n i cardsPerPlayer : nat) : list nat :=
  map (λ k, i + k * n)%nat (seq 0 cardsPerPlayer).

(** The deck positions seat [i] gets from [distributeCards]: a block of
    [cardsPerPlayer] consecutive cards. *)
Definition blockPositions (i cardsPerPlayer : nat) : list nat :=
  seq (i * cardsPerPlayer) cardsPerPlayer.

(** The roles dealt to seat [i]. *)
Definition dealtTypes (randomId : nat → string) (deck : list CardType)
    (ps : list Player) (r : Rand) (i : nat) : option (list (option CardType)) :=
  (λ p, map c_type (p_cards p)) <$> (run (dealDeck randomId deck ps) r !! i).

(** The deal as the specification words it. *)
Definition specRoundRobinDeal (randomId : nat → string) (deck : list CardType)
    (ps : list Player) (r : Rand) (i : nat) : Prop :=
  dealtTypes randomId deck ps r i
  = Some (map (λ k, deck !! k)
            (roundRobinPositions (length ps) i (getCardsPerPlayer (length ps)))).

(** A player as [distributeCards] returns it: [p] with a new hand and a new
    [hasRevealedWitch]. *)
Definition dealtFrom (p p' : Player) : Prop :=
  p' = p_with_hasRevealedWitch (p_hasRevealedWitch p') (p_with_cards (p_cards p') p).

(** [type === CardType.WITCH] on a deck entry. *)
Definition isWitchType (t : option CardType) : bool :=
  match t with Some WITCH => true | _ => false end.

(** ** Actions *)

(** SELF_REVEAL as the specification words its guard: naming a WITCH card
    or a card already revealed leaves the caller's hand and immunity as
    they were. *)
Definition specSelfRevealGuard (state : GameState) (playerId : string)
    (data : ActionData) (r : Rand) : Prop :=
  ∀ player card,
    findPlayer (Some playerId) (players state) = Some player →
    findCard (cardId data) (p_cards player) = Some card →
    c_type card = Some WITCH ∨ c_isRevealed card = true →
    ∃ player',
      findPlayer (Some playerId)
        (players (run (processPlayerAction state playerId "SELF_REVEAL" data) r))
      = Some player'
      ∧ p_cards player' = p_cards player ∧ p_immune player' = p_immune player.

Definition noData : ActionData := mkData None None None None None [].
Definition onCard (i : string) : ActionData := mkData None (Some i) None None None [].
Definition onTarget (i : string) : ActionData := mkData (Some i) None None None None [].

(** A confession night of three: Ann holds a hidden WITCH card and a
    hidden NOT_A_WITCH card, Bob a hidden WITCH card too. *)
Definition confessionState : GameState :=
  mkState "room" NIGHT_CONFESSION
    [mkPlayer "a" "Ann" "a" true false false
       [mkCard "w1" (Some WITCH) false; mkCard "n1" (Some NOT_A_WITCH) false]
       true false false false;
     mkPlayer "b" "Bob" "b" false false false
       [mkCard "w2" (Some WITCH) false; mkCard "n2" (Some NOT_A_WITCH) false]
       true false false false;
     mkPlayer "c" "Cid" "c" false false false
       [mkCard "k" (Some CONSTABLE) false; mkCard "n3" (Some NOT_A_WITCH) false]
       false false false false]
    [] None None 2 [] None [] [] ∅ false None.

(** A small game on its second night: Ann, a real witch, the ghost Ghost 1,
    a witch too, and Ben with Ghost 2 on the town side. *)
Definition ghostWitchState : GameState :=
  mkState "room" NIGHT_WITCH_VOTE
    [mkPlayer "a" "Ann" "a" true false false
       [mkCard "n1" (Some NOT_A_WITCH) false; mkCard "n2" (Some NOT_A_WITCH) false]
       true false false false;
     mkPlayer "g1" "Ghost 1" "" false false false
       [mkCard "w" (Some WITCH) false; mkCard "n3" (Some NOT_A_WITCH) false]
       true false false true;
     mkPlayer "b" "Ben" "b" false false false
       [mkCard "k" (Some CONSTABLE) false; mkCard "n4" (Some NOT_A_WITCH) false]
       false false false false;
     mkPlayer "g2" "Ghost 2" "" false false false
       [mkCard "n5" (Some NOT_A_WITCH) false; mkCard "n6" (Some NOT_A_WITCH) false]
       false false false true]
    [] None None 2 [] None [] [] ∅ true None.

(** Who votes for whom. *)
Definition voteTable (state : GameState) : list (string * string) :=
  map (λ v, (wv_voterId v, wv_targetId v)) (witchVotes state).

(** The votes of one voter. *)
Definition votesOf (playerId : string) (votes : list WitchVote) : list WitchVote :=
  List.filter (λ v, String.eqb (wv_voterId v) playerId) votes.

(** ** Hidden WITCH cards *)

(** [c] is not an unrevealed WITCH card. *)
Definition safeCard (c : Card) : Prop :=
  typeIs WITCH c && negb (c_isRevealed c) = false.


(** No living player holds an unrevealed WITCH card. *)
Definition noLivingHiddenWitch (ps : list Player) : Prop :=
  ∀ p, In p ps → p_isDead p = false → Forall safeCard (p_cards p).


(** A standard-mode state where the only unrevealed WITCH card is in the
    hand of a dead player, with a night-damage selection pending on that
    player. *)
Definition deadWitchState : GameState :=
  mkState "room" NIGHT_RESOLUTION
    [mkPlayer "a" "Ann" "a" true false false
       [mkCard "n1" (Some NOT_A_WITCH) false] false false false false;
     mkPlayer "b" "Bob" "b" false true false
       [mkCard "w" (Some WITCH) false] true false false false]
    [] None None 3 [] None [] [] ∅ false (Some (mkDamage "b" "a" true)).

(** The lobby of a four-player room, before any card is dealt. *)
Definition lobbyState : GameState :=
  mkState "room" LOBBY fourPlayers [] None None 0 [] None [] [] ∅ false None.


(** ** Conspiracy *)

(** The living entities, in seating order. *)
Definition aliveOf (ps : list Player) : list Player :=
  List.filter (λ p, negb (p_isDead p)) ps.

(** The selection of [p] when it chose the card [choice p]. *)
Definition selectionOf (choice : Player → string) (p : Player)
  : ConspiracySelection :=
  mkSelection (Some (p_id p)) (Some (choice p)).

(** The hand size [playerCardsMap] records for an id. *)
Definition lenAt (m : gmap string (list Card)) (x : string) : nat :=
  length (default [] (m !! x)).

(** How many transfers leave, and reach, an id. *)
Definition outs (x : string) (ts : list Transfer) : nat :=
  length (List.filter (λ t, String.eqb (fromPlayerId t) x) ts).

Definition ins (x : string) (ts : list Transfer) : nat :=
  length (List.filter (λ t, String.eqb (toPlayerId t) x) ts).

(** A transfer that will find its card: both hands are in the map and the
    card is in the source hand. *)
Definition validTransfer (m : gmap string (list Card)) (t : Transfer) : Prop :=
  ∃ fromCards c,
    m !! fromPlayerId t = Some fromCards ∧ is_Some (m !! toPlayerId t)
    ∧ tr_cardId t = Some c ∧ In c (map c_id fromCards).

(** All the cards of a map of hands. *)
Definition allCards (m : gmap string (list Card)) : list Card :=
  concat (map snd (map_to_list m)).

(** The conspiracy selections once the caller's selection is recorded. *)
Definition selectionsAfter (state : GameState) (playerId : string)
    (data : ActionData) : list ConspiracySelection :=
  List.filter (λ s, negb (optIdEqb (cs_playerId s) (Some playerId)))
    (conspiracySelections state)
  ++ [mkSelection (Some playerId) (cardId data)].

(** The living ring turned by one seat: position [k] holds the left
    neighbour of the entity at position [k]. *)
Definition ringLeft (alive : list Player) : list Player :=
  drop (length alive - 1) alive ++ take (length alive - 1) alive.

(** The id of the left neighbour of [p], as [transferFor] computes it. *)
Definition leftIdOf (alive : list Player) (p : Player) : string :=
  match leftNeighborAt alive
          (findIndex (λ q, String.eqb (p_id q) (p_id p)) alive) with
  | Some nb => p_id nb
  | None => ""
  end.

(** The transfer the selection of [p] gives rise to. *)
Definition transferOf (alive : list Player) (choice : Player → string)
    (p : Player) : Transfer :=
  mkTransfer (leftIdOf alive p) (p_id p) (Some (choice p)).

(** [choice p] is the id of a hidden card of the left neighbour of the
    entity [p] at position [k] of the living ring. *)
Definition pickedFromLeft (alive : list Player) (k : nat) (c : string) : Prop :=
  ∃ nb card, leftNeighborAt alive (Some k) = Some nb
    ∧ In card (p_cards nb) ∧ c_isRevealed card = false ∧ c_id card = c.

(** Every living entity chose a hidden card of its left neighbour. *)
Definition choosesFromLeft (alive : list Player) (choice : Player → string)
  : Prop :=
  ∀ k p, alive !! k = Some p → pickedFromLeft alive k (choice p).

(** Every living real player chose a hidden card of its left neighbour. *)
Definition realChooseFromLeft (alive : list Player) (choice : Player → string)
  : Prop :=
  ∀ k p, alive !! k = Some p → p_isGhost p = false →
         pickedFromLeft alive k (choice p).

(** The left neighbour of every living ghost has a hidden card left. *)
Definition ghostsCanChoose (alive : list Player) : Prop :=
  ∀ k g, alive !! k = Some g → p_isGhost g = true →
         ∃ c, pickedFromLeft alive k c.

(** The living real players. *)
Definition realOf (alive : list Player) : list Player :=
  List.filter (λ p, negb (p_isGhost p)) alive.

(** Four players with two hidden cards each; Ann, Bob and Cid have already
    chosen from their left neighbours (Dee, Ann and Bob). *)
Definition twoCards (i name c1 c2 : string) (t1 : CardType) : Player :=
  mkPlayer i name i false false false
    [mkCard c1 (Some t1) false; mkCard c2 (Some NOT_A_WITCH) false]
    (CardType_eqb t1 WITCH) false false false.

Definition conspiracyState : GameState :=
  mkState "room" CONSPIRACY
    [twoCards "a" "Ann" "a1" "a2" WITCH; twoCards "b" "Bob" "b1" "b2" CONSTABLE;
     twoCards "c" "Cid" "c1" "c2" NOT_A_WITCH;
     twoCards "d" "Dee" "d1" "d2" NOT_A_WITCH]
    [] None None 1 [] None
    [mkSelection (Some "a") (Some "d1"); mkSelection (Some "b") (Some "a2");
     mkSelection (Some "c") (Some "b1")]
    [] ∅ false None.

Definition sampleChoice (p : Player) : string :=
  if String.eqb (p_id p) "a" then "d1"
  else if String.eqb (p_id p) "b" then "a2"
  else if String.eqb (p_id p) "c" then "b1"
  else "c2".

(** The small game of [ghostWitchState] in its conspiracy: Ann has chosen
    from Ghost 2, Ben is about to choose from Ghost 1, and the engine will
    choose for the two ghosts. *)
Definition ghostConspiracyState : GameState :=
  mkState "room" CONSPIRACY (players ghostWitchState) [] None None 2 [] None
    [mkSelection (Some "a") (Some "n6")] [] ∅ true None.

(** ** Night resolution *)

(** A player the witches killed, as [resolveNight] leaves it. *)
Definition slain (p : Player) : Player :=
  p_with_cards (map card_reveal (p_cards p))
    (p_with_isDead true (p_with_immune false p)).

(** The log entry of the win check, when it finds a winner. *)
Definition winTail (ps : list Player) (small : bool) : list LogEntry :=
  match checkWinCondition ps small with
  | Some win => [winMessage win]
  | None => []
  end.

(** Two states that differ at most in the constable's guard and in who is
    immune. *)
Definition sameButProtection (s1 s2 : GameState) : Prop :=
  s2 = set_constableGuardId (constableGuardId s2) (set_players (players s2) s1)
  ∧ map (p_with_immune false) (players s2) = map (p_with_immune false) (players s1).

(** The small game of [ghostWitchState] at dawn, the witches having chosen
    [target]. *)
Definition dawnState (target : string) : GameState :=
  mkState "room" NIGHT_RESOLUTION (players ghostWitchState) [] (Some target)
    (Some "b") 2 [] None [] [] ∅ true None.

(** A standard game of four at dawn: Bob, the target, confessed and is
    immune, and the constable guards him. *)
Definition guardedState : GameState :=
  mkState "room" NIGHT_RESOLUTION
    [twoCards "a" "Ann" "a1" "a2" WITCH;
     p_with_immune true (twoCards "b" "Bob" "b1" "b2" CONSTABLE);
     twoCards "c" "Cid" "c1" "c2" NOT_A_WITCH;
     twoCards "d" "Dee" "d1" "d2" NOT_A_WITCH]
    [] (Some "b") (Some "b") 1 [] None [] [] ∅ false None.

(** What a night resolution decides: the roster, the log, the phase, the
    pending selection and the turn. *)
Definition nightView (s : GameState)
  : list Player * list LogEntry * GamePhase * option NightDamageSelection * Z :=
  (players s, logs s, phase s, nightDamageSelection s, turnCounter s).

(** A state with the guard dropped and every immunity cleared. *)
Definition unprotected (s : GameState) : GameState :=
  set_constableGuardId None
    (set_players (map (p_with_immune false) (players s)) s).

(** A small game with a night-damage selection pending on Ben, Ann
    choosing. *)
Definition damageState : GameState :=
  mkState "room" NIGHT_RESOLUTION (players ghostWitchState) ["dawn"] (Some "b")
    None 2 [] None [] ["a"] ∅ true (Some (mkDamage "b" "a" true)).

Definition onCards (ids : list string) : ActionData :=
  mkData None None None None None ids.

(** ** Phase machine, continued *)

(** The host pressing "next phase" [n] times. *)
Fixpoint advanceTimes (n : nat) (state : GameState) : M GameState :=
  match n with
  | O => mret state
  | S n' => state' ← advancePhase state; advanceTimes n' state'
  end.


(** Witches are alive, and every living witch is a ghost. *)
Definition onlyGhostWitches (ps : list Player) : Prop :=
  (∃ w, In w ps ∧ p_hasRevealedWitch w = true ∧ p_isDead w = false)
  ∧ ∀ w, In w ps → p_hasRevealedWitch w = true → p_isDead w = false →
         p_isGhost w = true.

(** A small game where the only witch is Ghost 1, in a given phase. *)
Definition ghostCovenState (ph : GamePhase) : GameState :=
  mkState "room" ph
    [mkPlayer "a" "Ann" "a" true false false
       [mkCard "n1" (Some NOT_A_WITCH) false; mkCard "n2" (Some NOT_A_WITCH) false]
       false false false false;
     mkPlayer "g1" "Ghost 1" "" false false false
       [mkCard "w" (Some WITCH) false; mkCard "n3" (Some NOT_A_WITCH) false]
       true false false true;
     mkPlayer "b" "Ben" "b" false false false
       [mkCard "k" (Some CONSTABLE) false; mkCard "n4" (Some NOT_A_WITCH) false]
       false false false false;
     mkPlayer "g2" "Ghost 2" "" false false false
       [mkCard "n5" (Some NOT_A_WITCH) false; mkCard "n6" (Some NOT_A_WITCH) false]
       false false false true]
    ["earlier"] (Some "stale") None 1 [] None [] ["a"] ∅ true None.

(** ** Actions, continued *)

(** What no action changes of a player: who it is. The allegiance may only
    turn towards the witches. *)
Definition sameIdentity (p q : Player) : Prop :=
  p_id q = p_id p ∧ p_name q = p_name p ∧ p_peerId q = p_peerId p
  ∧ p_isHost q = p_isHost p ∧ p_isGhost q = p_isGhost p
  ∧ p_isDisconnected q = p_isDisconnected p
  ∧ (p_hasRevealedWitch p = true → p_hasRevealedWitch q = true).

(** The confirmations are as before, or the caller, who had not confirmed,
    was added at the end. *)
Definition confirmsOnly (playerId : string) (before after : list string) : Prop :=
  after = before
  ∨ (includes playerId before = false ∧ after = before ++ [playerId]).

(** The actions that set the phase themselves. *)
Definition phaseActions : list string :=
  ["NIGHT_DAMAGE_SELECT"; "TRIGGER_CONSPIRACY"; "CONSPIRACY_SELECT";
   "CONSPIRACY_SELECT_FOR_OTHER"].

(** One run of the dispatcher, on the locals. *)
Definition actionStep (playerId action : string) (l l' : Locals) : Prop :=
  Forall2 sameIdentity (players (fst l)) (players (fst l'))
  ∧ snd l `prefix_of` snd l'
  ∧ confirmsOnly playerId (nightConfirmations (fst l)) (nightConfirmations (fst l'))
  ∧ isSmallGameMode (fst l') = isSmallGameMode (fst l)
  ∧ roomId (fst l') = roomId (fst l)
  ∧ (phase (fst l') = phase (fst l) ∨ In action phaseActions).

(** A hand after a shuffle of its hidden cards: the hidden cards in some
    order, then the revealed cards in their old order. *)
Definition hiddenShuffled (cs cs' : list Card) : Prop :=
  ∃ shuffled,
    shuffled ≡ₚ List.filter (λ c, negb (c_isRevealed c)) cs
    ∧ cs' = shuffled ++ List.filter c_isRevealed cs.

(** The standard game of [conspiracyState] by day, Bob having accused Ann
    and Ann having accepted; Ann holds the only WITCH card. *)
Definition trialState : GameState :=
  mkState "room" DAY (players conspiracyState) [] None None 1 []
    (Some (mkAccusation "b" "Bob" "a" "Ann" true)) [] [] ∅ false None.

(** A finished game. *)
Definition finishedState : GameState :=
  mkState "room" GAME_OVER (players conspiracyState) ["Town Win!"] None None 3 []
    None [] [] ∅ false None.

(** A player whose WITCH card was revealed in a trial. *)
Definition executed (p : Player) : Player :=
  p_with_cards (map card_reveal (p_cards p)) (p_with_isDead true p).

(** [q] is [p] with the hidden cards of its hand shuffled. *)
Definition handShuffled (p q : Player) : Prop :=
  q = p_with_cards (p_cards q) p ∧ hiddenShuffled (p_cards p) (p_cards q).

(** ** Dealer, continued *)

(** How many cards of a role a deck holds. *)
Definition countType (t : CardType) (deck : list CardType) : nat :=
  length (List.filter (CardType_eqb t) deck).

(** The roles in all hands, seat after seat. *)
Definition dealtRoles (ps : list Player) : list (option CardType) :=
  concat (map (λ p, map c_type (p_cards p)) ps).

(** ** The host *)

(** [q] is [p] but for its connection. *)
Definition sameButConnection (p q : Player) : Prop :=
  q = p_with_isDisconnected (p_isDisconnected q) (p_with_peerId (p_peerId q) p).

(** The state and the replies of the host after a message. *)
Definition hostState (prev : GameState) (connId : string) (msg : ClientMessage)
    (r : Rand) : GameState :=
  fst (run (handleHostMessage true prev connId msg) r).

Definition hostReplies (prev : GameState) (connId : string) (msg : ClientMessage)
    (r : Rand) : list (string * HostReply) :=
  snd (run (handleHostMessage true prev connId msg) r).

(** A lobby of two. *)
Definition twoPlayers : list Player :=
  [lobbyPlayer "a" "Ann" true; lobbyPlayer "b" "Bob" false].

Definition lobbyOf (ps : list Player) : GameState :=
  mkState "room" LOBBY ps [] None None 0 [] None [] [] ∅ false None.

(** Which seats [startGame] gives to ghosts, for [n] players in the
    lobby. *)
Definition ghostSeats (n : nat) : list bool :=
  match n with
  | 2 => [false; true; false; true]
  | 3 => [false; false; false; true]
  | _ => replicate n false
  end%nat.

(** The standard game of [conspiracyState] by day, Bob's connection
    lost. *)
Definition awayState : GameState :=
  mkState "room" DAY
    [twoCards "a" "Ann" "a1" "a2" WITCH;
     p_with_isDisconnected true (twoCards "b" "Bob" "b1" "b2" CONSTABLE);
     twoCards "c" "Cid" "c1" "c2" NOT_A_WITCH;
     twoCards "d" "Dee" "d1" "d2" NOT_A_WITCH]
    [] None None 1 [] None [] [] ∅ false None.

(** ** Session storage *)

(** A stored session is too old at the clock reading [now]. *)
Definition expired (now : Z) (session : SessionData) : bool :=
  (SESSION_EXPIRY_MS <? now - s_timestamp session)%Z.

Definition samplePeerId (n : nat) : string := "P" +:+ pretty n.

(** The host's session of the room "ROOM", written at time 1000. *)
Definition hostSession : SessionData :=
  mkSession "ROOM" "Ann" "ROOM" true None 1000.

(** * Theorems *)

(** ** Lists, the oracle and [shuffle] *)

Lemma typeIs_spec t c : typeIs t c = true ↔ c_type c = Some t.
Proof.
  unfold typeIs. destruct (c_type c) as [t'|]; [|split; discriminate].
  destruct t', t; simpl; split; intros H; try discriminate; try reflexivity;
    inversion H.
Qed.

Lemma find_first {A} (f : A → bool) (l : list A) (x : A) :
  List.find f l = Some x
  ↔ ∃ before after, l = before ++ x :: after
      ∧ (∀ y, In y before → f y = false) ∧ f x = true.
Proof.
  induction l as [|a l IH]; simpl.
  - split; [discriminate|]. intros (b & t & H & _). by destruct b.
  - destruct (f a) eqn:Fa.
    + split.
      * intros [= ->]. exists [], l. repeat split; auto. intros y [].
      * intros (b & t & H & Hb & Hx). destruct b as [|b0 b].
        -- simpl in H. by inversion H.
        -- simpl in H. inversion H; subst.
           rewrite Hb in Fa by (by left). discriminate.
    + rewrite IH. split.
      * intros (b & t & -> & Hb & Hx). exists (a :: b), t.
        repeat split; auto. intros y [<-|Hy]; auto.
      * intros (b & t & H & Hb & Hx). destruct b as [|b0 b].
        -- simpl in H. inversion H; subst. rewrite Hx in Fa. discriminate.
        -- simpl in H. inversion H; subst. exists b, t.
           repeat split; auto. intros y Hy. apply Hb. by right.
Qed.

(** Mutating the object that [find] returns rewrites the array at the first
    match, and nowhere else. *)
Lemma mutateFirst_first {A} (f : A → bool) (g : A → A) before x after :
  (∀ y, In y before → f y = false) → f x = true →
  mutateFirst f g (before ++ x :: after) = before ++ g x :: after.
Proof.
  intros Hb Hx. induction before as [|a b IH]; simpl.
  - by rewrite Hx.
  - rewrite (Hb a) by (by left). f_equal. apply IH. intros y Hy. apply Hb.
    by right.
Qed.

Lemma mutateFirst_none {A} (f : A → bool) (g : A → A) l :
  List.find f l = None → mutateFirst f g l = l.
Proof.
  induction l as [|a l IH]; simpl; [done|].
  destruct (f a); [discriminate|]. intros H. by rewrite IH.
Qed.


Lemma mutateFirst_length {A} (f : A → bool) (g : A → A) l :
  length (mutateFirst f g l) = length l.
Proof.
  induction l as [|a l IH]; simpl; [done|]. destruct (f a); simpl; congruence.
Qed.


(** *** [swap] and [shuffle] permute *)

Lemma swap_head_Permutation {A} (a y : A) l j :
  l !! j = Some y → y :: <[j := a]> l ≡ₚ a :: l.
Proof.
  revert j. induction l as [|b l IH]; intros j Hj; [done|].
  destruct j as [|j]; simpl in *.
  - injection Hj as ->. apply perm_swap.
  - rewrite (perm_swap b y). rewrite (IH j Hj). apply perm_swap.
Qed.

Lemma swap_Permutation {A} (i j : nat) (l : list A) : swap i j l ≡ₚ l.
Proof.
  unfold swap. revert i j. induction l as [|a l IH]; intros i j.
  - by destruct i, j.
  - destruct i as [|i], j as [|j]; simpl.
    + done.
    + destruct (l !! j) as [y|] eqn:Hj; [|done]. simpl.
      by apply swap_head_Permutation.
    + destruct (l !! i) as [x|] eqn:Hi; [|done]. simpl.
      by apply swap_head_Permutation.
    + specialize (IH i j).
      destruct (l !! i) as [x|]; [|done]. destruct (l !! j) as [y|]; [|done].
      simpl. by rewrite IH.
Qed.

Lemma shuffleFrom_Permutation {A} (i : nat) :
  ∀ (l : list A) (r : Rand), fst (shuffleFrom i l r) ≡ₚ l.
Proof.
  induction i as [|i IH]; intros l r; [done|].
  cbn [shuffleFrom]. cbv [mbind M_bind randomBelow]. cbv beta iota.
  rewrite IH. apply swap_Permutation.
Qed.

Lemma shuffle_Permutation {A} (l : list A) (r : Rand) : fst (shuffle l r) ≡ₚ l.
Proof. apply shuffleFrom_Permutation. Qed.

(** ** Phase machine: leaving NIGHT_WITCH_VOTE *)

Lemma hasActiveConstable_spec state :
  existsb (λ p, negb (p_isDead p) && hasActiveConstableCard p) (players state) = true
  ↔ holdsActiveConstable state.
Proof.
  unfold holdsActiveConstable, hasActiveConstableCard.
  rewrite existsb_exists. split.
  - intros (p & Hp & H). apply andb_prop in H as [Hd Hc].
    apply existsb_exists in Hc as (c & Hc & H).
    apply andb_prop in H as [Ht Hr].
    exists p, c. repeat split; auto.
    + by destruct (p_isDead p).
    + by apply typeIs_spec.
    + by destruct (c_isRevealed c).
  - intros (p & c & Hp & Hd & Hc & Ht & Hr).
    exists p. split; [done|]. rewrite Hd. simpl.
    apply existsb_exists. exists c. split; [done|].
    rewrite Hr. apply typeIs_spec in Ht. by rewrite Ht.
Qed.

(** C8. From NIGHT_WITCH_VOTE, [advancePhase] goes to NIGHT_CONSTABLE exactly
    when some living entity holds an unrevealed CONSTABLE card; otherwise it
    goes to NIGHT_CONFESSION and appends "No Constable to protect tonight.";
    either way the night confirmations are cleared. *)
Theorem advancePhase_from_witch_vote (state : GameState) (r : Rand) :
  phase state = NIGHT_WITCH_VOTE →
  let state' := run (advancePhase state) r in
  nightConfirmations state' = []
  ∧ (holdsActiveConstable state ↔ phase state' = NIGHT_CONSTABLE)
  ∧ (holdsActiveConstable state → logs state' = logs state)
  ∧ (¬ holdsActiveConstable state →
     phase state' = NIGHT_CONFESSION
     ∧ logs state' = logs state ++ ["No Constable to protect tonight."]).
Proof.
  intros Hph. unfold advancePhase, run. rewrite Hph.
  pose proof (hasActiveConstable_spec state) as Hspec.
  destruct (existsb _ (players state)) eqn:E; simpl.
  - assert (holdsActiveConstable state) as Hc by (by apply Hspec).
    split; [reflexivity|]. split; [by split|].
    split; [reflexivity|]. intros Hn. by destruct Hn.
  - assert (¬ holdsActiveConstable state) as Hn.
    { intros Hc. apply Hspec in Hc. discriminate. }
    split; [reflexivity|]. split; [split; [done|discriminate]|].
    split; [done|]. intros _. by split.
Qed.

Lemma advancePhase_from_witch_vote_witness :
  let state' := run (advancePhase (constableState true)) (λ _, 0%nat) in
  nightConfirmations state' = []
  ∧ (holdsActiveConstable (constableState true) ↔ phase state' = NIGHT_CONSTABLE)
  ∧ (holdsActiveConstable (constableState true) →
     logs state' = logs (constableState true))
  ∧ (¬ holdsActiveConstable (constableState true) →
     phase state' = NIGHT_CONFESSION
     ∧ logs state' = logs (constableState true)
                       ++ ["No Constable to protect tonight."]).
Proof.
  apply (advancePhase_from_witch_vote (constableState true) (λ _, 0%nat)).
  reflexivity.
Defined.

Example advancePhase_constable_present :
  phase (run (advancePhase (constableState false)) (λ _, 0%nat)) = NIGHT_CONSTABLE.
Proof. reflexivity. Qed.

Example advancePhase_constable_revealed :
  let s := run (advancePhase (constableState true)) (λ _, 0%nat) in
  phase s = NIGHT_CONFESSION
  ∧ logs s = ["earlier"; "No Constable to protect tonight."].
Proof. split; reflexivity. Qed.

(** ** NIGHT_CONFIRM *)

Lemma includes_app_self x l : includes x (l ++ [x]) = true.
Proof.
  unfold includes. rewrite existsb_app. simpl.
  rewrite String.eqb_refl. by rewrite orb_true_r.
Qed.

Lemma nightConfirm_confirms playerId data l :
  includes playerId (nightConfirmations (fst (nightConfirm playerId data l))) = true.
Proof.
  destruct l as [updates logs0]. unfold nightConfirm.
  destruct (includes playerId (nightConfirmations updates)) eqn:E; simpl; [done|].
  destruct (fakeTargetId data) as [t|]; simpl; [|apply includes_app_self].
  destruct (String.eqb t ""); simpl; apply includes_app_self.
Qed.

Lemma nightConfirm_again playerId data l :
  includes playerId (nightConfirmations (fst l)) = true →
  nightConfirm playerId data l = l.
Proof.
  destruct l as [updates logs0]. simpl. intros H. unfold nightConfirm.
  by rewrite H.
Qed.

Lemma finishAction_nightConfirmations state l :
  nightConfirmations (finishAction state l) = nightConfirmations (fst l).
Proof.
  destruct l as [updates logs0]. unfold finishAction. simpl.
  destruct (checkWinCondition _ _); [destruct (negb _)|]; reflexivity.
Qed.

Lemma finishAction_fakeVotes state l :
  fakeVotes (finishAction state l) = fakeVotes (fst l).
Proof.
  destruct l as [updates logs0]. unfold finishAction. simpl.
  destruct (checkWinCondition _ _); [destruct (negb _)|]; reflexivity.
Qed.

Lemma processPlayerAction_NIGHT_CONFIRM state playerId data r :
  run (processPlayerAction state playerId "NIGHT_CONFIRM" data) r
  = finishAction state (nightConfirm playerId data (state, logs state)).
Proof. reflexivity. Qed.

(** C9. A second NIGHT_CONFIRM from the same entity, whatever its payload,
    leaves [nightConfirmations] and the fake-vote tally as the first one
    left them. *)
Theorem night_confirm_idempotent (state : GameState) (playerId : string)
    (data1 data2 : ActionData) (r1 r2 : Rand) :
  let once := run (processPlayerAction state playerId "NIGHT_CONFIRM" data1) r1 in
  let twice := run (processPlayerAction once playerId "NIGHT_CONFIRM" data2) r2 in
  nightConfirmations twice = nightConfirmations once
  ∧ fakeVotes twice = fakeVotes once
  ∧ includes playerId (nightConfirmations once) = true.
Proof.
  intros once twice. subst twice.
  rewrite (processPlayerAction_NIGHT_CONFIRM once).
  rewrite finishAction_nightConfirmations, finishAction_fakeVotes.
  assert (includes playerId (nightConfirmations once) = true) as Hin.
  { subst once. rewrite processPlayerAction_NIGHT_CONFIRM.
    rewrite finishAction_nightConfirmations. apply nightConfirm_confirms. }
  rewrite nightConfirm_again by exact Hin. auto.
Qed.

(** ** Win condition *)

Lemma typeIs_false t c : typeIs t c = false ↔ c_type c ≠ Some t.
Proof.
  rewrite <- typeIs_spec. destruct (typeIs t c); split; try done.
Qed.

Lemma find_witch_spec cs c :
  List.find (typeIs WITCH) cs = Some c ↔ firstWitchCard cs c.
Proof.
  rewrite find_first. unfold firstWitchCard.
  split; intros (b & t & H & Hb & Hx); exists b, t; repeat split; auto.
  - intros x Hx'. apply typeIs_false. auto.
  - by apply typeIs_spec.
  - intros x Hx'. apply typeIs_false. auto.
  - by apply typeIs_spec.
Qed.

Lemma witchCard_revealed_spec ps :
  match List.find (typeIs WITCH) (flat_map p_cards ps) with
  | Some c => c_isRevealed c
  | None => false
  end = true ↔ firstWitchRevealed ps.
Proof.
  unfold firstWitchRevealed. split.
  - destruct (List.find _ _) as [c|] eqn:E; [|discriminate].
    intros H. exists c. split; [by apply find_witch_spec|done].
  - intros (c & Hc & Hr). apply find_witch_spec in Hc. by rewrite Hc.
Qed.




(** The small-game branch, case by case. *)
Lemma checkWinCondition_small ps :
  checkWinCondition ps true =
    if match List.find (typeIs WITCH) (flat_map p_cards ps) with
       | Some c => c_isRevealed c
       | None => false
       end
    then Some TOWN_WIN
    else if existsb (λ p, (0 <? length (p_cards p))%nat && allRevealed (p_cards p)) ps
    then Some WITCH_WIN
    else if (0 <? length (List.filter (λ p, negb (p_isGhost p)) ps))%nat
            && forallb p_hasRevealedWitch (List.filter (λ p, negb (p_isGhost p)) ps)
    then Some WITCH_WIN else None.
Proof. reflexivity. Qed.

Lemma small_town_win_iff ps :
  checkWinCondition ps true = Some TOWN_WIN ↔ firstWitchRevealed ps.
Proof.
  rewrite checkWinCondition_small, <- witchCard_revealed_spec.
  destruct (match List.find _ _ with Some c => c_isRevealed c | None => false end).
  - done.
  - destruct (existsb _ ps); [done|].
    destruct (_ && _); done.
Qed.



Example small_dead_town_no_win : checkWinCondition deadTownRoster true = None.
Proof. reflexivity. Qed.

(** ** Win-condition monotonicity *)


Lemma filter_length_0 {A} (f : A → bool) l :
  (length (List.filter f l) =? 0)%nat = true ↔ ∀ x, In x l → f x = false.
Proof.
  rewrite Nat.eqb_eq. induction l as [|a l IH]; simpl.
  - split; [intros _ x []|done].
  - destruct (f a) eqn:Fa; simpl.
    + split; [discriminate|]. intros H. rewrite H in Fa by (by left). discriminate.
    + rewrite IH. split.
      * intros H x [<-|Hx]; auto.
      * intros H x Hx. apply H. by right.
Qed.












(** The WITCH win of [covenRoster] becomes a TOWN win when its WITCH card is
    revealed: the winner is kept, the side need not be. *)
Example witch_win_turns_town :
  checkWinCondition (covenRoster false) false = Some WITCH_WIN
  ∧ checkWinCondition (covenRoster true) false = Some TOWN_WIN.
Proof. split; reflexivity. Qed.

(** ** Masking *)

Lemma maskCard_masked c : cardMasked c (maskCard c).
Proof. by destruct c as [i t []]. Qed.

Lemma maskCard_same c d :
  cardSameButHiddenType c d → maskCard c = maskCard d.
Proof.
  destruct c as [i t b], d as [j u e]. unfold cardSameButHiddenType, maskCard.
  simpl. intros (-> & -> & Ht). unfold card_with_type. simpl.
  destruct b; [by rewrite Ht|done].
Qed.

Lemma mask_cards_same cs ds :
  Forall2 cardSameButHiddenType cs ds → map maskCard cs = map maskCard ds.
Proof.
  induction 1 as [|c d cs ds H _ IH]; simpl; [done|].
  by rewrite (maskCard_same c d H), IH.
Qed.

Lemma mask_players_same ps qs :
  Forall2 playerSameButHiddenTypes ps qs →
  map (λ p, p_with_cards (map maskCard (p_cards p)) p) ps
  = map (λ p, p_with_cards (map maskCard (p_cards p)) p) qs.
Proof.
  induction 1 as [|p q ps qs [Hq Hc] _ IH]; simpl; [done|].
  rewrite IH. f_equal. rewrite (mask_cards_same _ _ Hc). by rewrite Hq.
Qed.

(** C1, as the code has it. The broadcast differs from the state only in
    the hands: every card keeps its place, id and revealed flag, a revealed
    card keeps its role and an unrevealed card has none; hence two states
    that differ only in the roles of unrevealed cards are broadcast alike.
    Every other field goes out as it is, the [hasRevealedWitch] flags and
    the witch votes among them. *)
Theorem publicState_masks_hidden_roles (gs : GameState) :
  publicState gs = set_players (players (publicState gs)) gs
  ∧ Forall2 playerMasked (players gs) (players (publicState gs))
  ∧ (∀ gs', sameButHiddenTypes gs gs' → publicState gs = publicState gs')
  ∧ map p_hasRevealedWitch (players (publicState gs))
    = map p_hasRevealedWitch (players gs)
  ∧ witchVotes (publicState gs) = witchVotes gs.
Proof.
  split; [reflexivity|]. split; [|split; [|split]].
  - unfold publicState. simpl.
    induction (players gs) as [|p ps IH]; simpl; constructor; [|done].
    split; [done|]. simpl.
    induction (p_cards p) as [|c cs IHc]; simpl; constructor; [|done].
    apply maskCard_masked.
  - intros gs' [Hgs Hps]. unfold publicState.
    rewrite (mask_players_same _ _ Hps). by rewrite Hgs.
  - unfold publicState. simpl. rewrite map_map. reflexivity.
  - reflexivity.
Qed.

Lemma publicState_masks_hidden_roles_witness :
  sameButHiddenTypes (maskSample WITCH NOT_A_WITCH) (maskSample NOT_A_WITCH WITCH)
  ∧ publicState (maskSample WITCH NOT_A_WITCH)
    = publicState (maskSample NOT_A_WITCH WITCH).
Proof.
  assert (sameButHiddenTypes (maskSample WITCH NOT_A_WITCH)
            (maskSample NOT_A_WITCH WITCH)) as H.
  { split; [reflexivity|]. repeat constructor; simpl; done. }
  split; [exact H|].
  exact (proj1 (proj2 (proj2
           (publicState_masks_hidden_roles (maskSample WITCH NOT_A_WITCH))))
           _ H).
Defined.

(** C1, as stated, fails: dealing two shuffles of the same deck to the same
    players gives broadcasts that differ, in the [hasRevealedWitch] flag of
    whoever got the WITCH card. *)
Lemma broadcast_reveals_witch_holder :
  ¬ broadcastIndependentOfDeal fourPlayers witchFirstDeck witchSixthDeck.
Proof.
  unfold broadcastIndependentOfDeal. intros H.
  apply (f_equal (λ s, map p_hasRevealedWitch (players s))) in H.
  vm_compute in H. discriminate.
Qed.

Example broadcast_flags_after_deal :
  map p_hasRevealedWitch
    (players (publicState
       (startedState (run (dealDeck sampleId witchFirstDeck fourPlayers)
                        countingOracle))))
  = [true; false; false; false]
  ∧ map p_hasRevealedWitch
      (players (publicState
         (startedState (run (dealDeck sampleId witchSixthDeck fourPlayers)
                          countingOracle))))
    = [false; true; false; false].
Proof. split; vm_compute; reflexivity. Qed.

(** The private hands: every UPDATE_HAND message carries the hand of the
    entity it is addressed to. *)
Lemma private_hands_go_to_owner (myPlayerId : string) (gs : GameState)
    (peer : option string) (cards : list Card) :
  In (peer, UPDATE_HAND cards) (broadcastUpdates myPlayerId gs) →
  ∃ p, In p (players gs) ∧ peer = Some (p_id p) ∧ cards = p_cards p.
Proof.
  unfold broadcastUpdates. destruct (0 <? length (players gs))%nat; [|done].
  intros [H|H]; [discriminate|].
  apply in_flat_map in H as (p & Hp & H). exists p. split; [done|].
  destruct (String.eqb (p_id p) myPlayerId); [done|].
  destruct H as [H|[]]. by injection H as <- <-.
Qed.

(** ** Dealer *)

Lemma dealPlayer_spec randomId n deck :
  ∀ idx player r,
  ∃ p', dealPlayer randomId n deck idx player r
        = ((p', (idx + n)%nat), λ k, r (n + k)%nat)
  ∧ dealtFrom player p'
  ∧ p_cards p' =
      p_cards player
      ++ map (λ k, mkCard (randomId (r (k - idx)%nat)) (deck !! k) false) (seq idx n)
  ∧ p_hasRevealedWitch p' =
      p_hasRevealedWitch player
      || existsb isWitchType (map (λ k, deck !! k) (seq idx n)).
Proof.
  induction n as [|n IH]; intros idx player r.
  - exists player. simpl. rewrite Nat.add_0_r, app_nil_r, orb_false_r.
    split; [done|]. split; [by destruct player|done].
  - cbn [dealPlayer]. cbv [mbind M_bind createCard randomSample mret M_ret].
    cbv beta iota.
    set (c := mkCard (randomId (r 0%nat)) (deck !! idx) false).
    set (player2 := match deck !! idx with
                    | Some WITCH =>
                        p_with_hasRevealedWitch true
                          (p_with_cards (p_cards player ++ [c]) player)
                    | _ => p_with_cards (p_cards player ++ [c]) player
                    end).
    destruct (IH (S idx) player2 (λ k, r (S k))) as (p' & E & Hd & Hc & Hw).
    exists p'. rewrite E.
    assert (p_cards player2 = p_cards player ++ [c]) as Hc2.
    { subst player2. by destruct (deck !! idx) as [[]|]. }
    assert (p_hasRevealedWitch player2
            = p_hasRevealedWitch player || isWitchType (deck !! idx)) as Hw2.
    { subst player2. destruct (deck !! idx) as [[]|]; simpl;
        by rewrite ?orb_false_r, ?orb_true_r. }
    assert (dealtFrom player player2) as Hd2.
    { subst player2. destruct player. by destruct (deck !! idx) as [[]|]. }
    split; [|split; [|split]].
    + f_equal. f_equal. lia.
    + unfold dealtFrom in *. rewrite Hd. rewrite Hd2 at 1.
      by destruct player, player2, p'.
    + rewrite Hc, Hc2, <- app_assoc. f_equal. simpl. f_equal.
      * subst c. by rewrite Nat.sub_diag.
      * apply map_ext_in. intros k Hk. apply in_seq in Hk.
        replace (k - idx)%nat with (S (k - S idx)) by lia. done.
    + rewrite Hw, Hw2. simpl. by rewrite orb_assoc.
Qed.

Lemma dealAll_spec randomId cpp deck :
  ∀ ps idx r i p,
    ps !! i = Some p →
    ∃ p' r', fst (dealAll randomId cpp deck idx ps r) !! i = Some p'
      ∧ dealtFrom p p'
      ∧ p_cards p' =
          p_cards p
          ++ map (λ k, mkCard (randomId (r' (k - (idx + i * cpp))%nat)) (deck !! k) false)
               (seq (idx + i * cpp) cpp)
      ∧ p_hasRevealedWitch p' =
          p_hasRevealedWitch p
          || existsb isWitchType (map (λ k, deck !! k) (seq (idx + i * cpp) cpp)).
Proof.
  induction ps as [|q ps IH]; intros idx r i p Hi; [done|].
  cbn [dealAll]. unfold mbind, M_bind, mret, M_ret.
  destruct (dealPlayer_spec randomId cpp deck idx q r) as (q' & E & Hd & Hc & Hw).
  rewrite E.
  destruct (dealAll randomId cpp deck (idx + cpp) ps (λ k, r (cpp + k)%nat))
    as [rest r2] eqn:E2.
  simpl fst. destruct i as [|i].
  - simpl in Hi. injection Hi as <-. exists q', r. simpl.
    rewrite Nat.add_0_r. auto.
  - simpl in Hi.
    destruct (IH (idx + cpp)%nat (λ k, r (cpp + k)%nat) i p Hi)
      as (p' & r' & H1 & H2 & H3 & H4).
    rewrite E2 in H1. simpl in H1. exists p', r'. simpl.
    replace (idx + (cpp + i * cpp))%nat with (idx + cpp + i * cpp)%nat by lia.
    auto.
Qed.

Lemma dealAll_length randomId cpp deck ps :
  ∀ idx r, length (fst (dealAll randomId cpp deck idx ps r)) = length ps.
Proof.
  induction ps as [|q ps IH]; intros idx r; [done|].
  cbn [dealAll]. unfold mbind, M_bind, mret, M_ret.
  destruct (dealPlayer randomId cpp deck idx q r) as [[q' idx'] r1].
  specialize (IH idx' r1).
  destruct (dealAll randomId cpp deck idx' ps r1) as [rest r2].
  simpl in *. by rewrite IH.
Qed.

Lemma existsb_isWitchType ts :
  existsb isWitchType ts = true ↔ In (Some WITCH) ts.
Proof.
  rewrite existsb_exists. split.
  - intros (t & Ht & H). by destruct t as [[]|].
  - intros H. by exists (Some WITCH).
Qed.

(** [distributeCards] is [dealDeck] on the deck that [generateDeck] returns,
    a permutation of the table's deck. *)
Lemma distributeCards_dealDeck randomId ps r :
  run (distributeCards randomId ps) r
  = run (dealDeck randomId (fst (generateDeck (length ps) r)) ps)
      (snd (generateDeck (length ps) r)).
Proof.
  unfold run, distributeCards. cbv [mbind M_bind]. cbv beta.
  by destruct (generateDeck (length ps) r).
Qed.

Lemma generateDeck_Permutation n r :
  fst (generateDeck n r) ≡ₚ unshuffledDeck n.
Proof. apply shuffle_Permutation. Qed.

(** C5, as the code has it. [distributeCards] hands the shuffled deck out in
    blocks: with [c] cards per player, seat [i] gets the deck cards at
    positions [i*c], [i*c + 1], ..., [i*c + c - 1], unrevealed and in that
    order; its [hasRevealedWitch] is set exactly when a WITCH card is among
    them; nothing else of the player changes, and the seating is kept. *)
Theorem dealDeck_blocks (randomId : nat → string) (deck : list CardType)
    (ps : list Player) (r : Rand) (i : nat) (p : Player) :
  ps !! i = Some p →
  let dealt := run (dealDeck randomId deck ps) r in
  length dealt = length ps
  ∧ ∃ p', dealt !! i = Some p'
      ∧ dealtFrom p p'
      ∧ map c_type (p_cards p')
        = map (λ k, deck !! k) (blockPositions i (getCardsPerPlayer (length ps)))
      ∧ Forall (λ c, c_isRevealed c = false) (p_cards p')
      ∧ (p_hasRevealedWitch p' = true ↔ In (Some WITCH) (map c_type (p_cards p'))).
Proof.
  intros Hi dealt. subst dealt. unfold run, dealDeck.
  split; [by rewrite dealAll_length, length_map|].
  set (cpp := getCardsPerPlayer (length ps)).
  set (reset := λ p, p_with_hasRevealedWitch false (p_with_cards [] p)).
  assert (map reset ps !! i = Some (reset p)) as Hi'.
  { by rewrite list_lookup_fmap, Hi. }
  destruct (dealAll_spec randomId cpp deck _ 0%nat r i _ Hi')
    as (p' & r' & H1 & H2 & H3 & H4).
  simpl in H3, H4. exists p'. split; [exact H1|].
  assert (map c_type (p_cards p')
          = map (λ k, deck !! k) (blockPositions i cpp)) as Ht.
  { rewrite H3, map_map. unfold blockPositions. done. }
  split; [|split; [exact Ht|split]].
  - unfold dealtFrom in *. rewrite H2. by destruct p.
  - rewrite H3. apply Forall_forall. intros c Hc.
    apply list_elem_of_In, in_map_iff in Hc as (k & <- & _). done.
  - rewrite H4, Ht. apply existsb_isWitchType.
Qed.

Lemma dealDeck_blocks_witness :
  let dealt := run (dealDeck sampleId witchSixthDeck fourPlayers) countingOracle in
  length dealt = length fourPlayers
  ∧ ∃ p', dealt !! 1%nat = Some p'
      ∧ dealtFrom (lobbyPlayer "b" "Bob" false) p'
      ∧ map c_type (p_cards p')
        = map (λ k, witchSixthDeck !! k)
            (blockPositions 1 (getCardsPerPlayer (length fourPlayers)))
      ∧ Forall (λ c, c_isRevealed c = false) (p_cards p')
      ∧ (p_hasRevealedWitch p' = true ↔ In (Some WITCH) (map c_type (p_cards p'))).
Proof.
  apply (dealDeck_blocks sampleId witchSixthDeck fourPlayers countingOracle 1
           (lobbyPlayer "b" "Bob" false)).
  reflexivity.
Defined.

(** C5, as stated, fails: seat 0 of four gets the first five cards of the
    deck, not the cards at positions 0, 4, 8, 12 and 16. *)
Lemma deal_is_not_round_robin :
  ¬ specRoundRobinDeal sampleId witchFirstDeck fourPlayers countingOracle 0.
Proof. unfold specRoundRobinDeal. vm_compute. discriminate. Qed.

Example dealt_first_seat :
  dealtTypes sampleId witchFirstDeck fourPlayers countingOracle 0
  = Some [Some WITCH; Some CONSTABLE; Some NOT_A_WITCH; Some NOT_A_WITCH;
          Some NOT_A_WITCH].
Proof. vm_compute. reflexivity. Qed.

(** ** SELF_REVEAL *)

Lemma finishAction_players state l :
  players (finishAction state l) = players (fst l).
Proof.
  destruct l as [updates logs0]. unfold finishAction. simpl.
  destruct (checkWinCondition _ _); [destruct (negb _)|]; reflexivity.
Qed.

Lemma confirm_players playerId updates :
  players (confirm playerId updates) = players updates.
Proof. unfold confirm. by destruct (includes _ _). Qed.

Lemma confirm_confirms playerId updates :
  includes playerId (nightConfirmations (confirm playerId updates)) = true.
Proof.
  unfold confirm.
  destruct (includes playerId (nightConfirmations updates)) eqn:E; [done|].
  simpl. apply includes_app_self.
Qed.

Lemma processPlayerAction_SELF_REVEAL state playerId data r :
  run (processPlayerAction state playerId "SELF_REVEAL" data) r
  = finishAction state (selfReveal playerId data (state, logs state)).
Proof. reflexivity. Qed.

Lemma selfReveal_confirms playerId data l :
  includes playerId (nightConfirmations (fst (selfReveal playerId data l))) = true.
Proof.
  destruct l as [updates logs0]. unfold selfReveal.
  destruct (List.find _ (players updates)) as [player|]; simpl;
    [|apply confirm_confirms].
  destruct (findCard _ _); simpl; apply confirm_confirms.
Qed.

(** C4, as the code has it. SELF_REVEAL applies whenever the caller is in
    the roster, alive or dead, and names a card of their hand, whatever its
    role and whether or not it is already revealed: the first entity with
    the caller's id gets the first card with that id marked revealed and is
    made immune, and nothing else of the roster changes. When the caller is
    not in the roster or the card not in the hand, the roster is unchanged.
    In every case the caller is in the confirmation set afterwards. *)
Theorem self_reveal_effect (state : GameState) (playerId : string)
    (data : ActionData) (r : Rand) :
  let state' := run (processPlayerAction state playerId "SELF_REVEAL" data) r in
  (∀ cid psBefore player psAfter before card after,
     cardId data = Some cid →
     players state = psBefore ++ player :: psAfter →
     (∀ q, In q psBefore → p_id q ≠ playerId) → p_id player = playerId →
     p_cards player = before ++ card :: after →
     (∀ c, In c before → c_id c ≠ cid) → c_id card = cid →
     players state' =
       psBefore
       ++ p_with_immune true
            (p_with_cards (before ++ card_reveal card :: after) player)
       :: psAfter)
  ∧ (findPlayer (Some playerId) (players state) = None
     ∨ (∃ player, findPlayer (Some playerId) (players state) = Some player
                  ∧ findCard (cardId data) (p_cards player) = None) →
     players state' = players state)
  ∧ includes playerId (nightConfirmations state') = true.
Proof.
  intros state'. subst state'. rewrite processPlayerAction_SELF_REVEAL.
  rewrite finishAction_players, finishAction_nightConfirmations.
  split; [|split; [|apply selfReveal_confirms]].
  - intros cid psBefore player psAfter before card after Hcid Hps Hb Hp Hc Hcb Hcard.
    assert (∀ q, In q psBefore → String.eqb (p_id q) playerId = false) as Hb'.
    { intros q Hq. apply String.eqb_neq. auto. }
    assert (String.eqb (p_id player) playerId = true) as Hp'.
    { by apply String.eqb_eq. }
    assert (List.find (λ p, String.eqb (p_id p) playerId) (players state)
            = Some player) as Hfind.
    { apply find_first. by exists psBefore, psAfter. }
    assert (∀ c, In c before → idIs (Some cid) (c_id c) = false) as Hcb'.
    { intros c Hc'. simpl. apply String.eqb_neq. auto. }
    assert (idIs (Some cid) (c_id card) = true) as Hcard'.
    { simpl. by apply String.eqb_eq. }
    assert (findCard (Some cid) (p_cards player) = Some card) as Hfc.
    { apply find_first. by exists before, after. }
    unfold selfReveal. simpl. rewrite Hfind, Hcid, Hfc. simpl.
    rewrite confirm_players. simpl. rewrite Hps.
    rewrite (mutateFirst_first _ _ psBefore player psAfter Hb' Hp').
    rewrite Hc. by rewrite (mutateFirst_first _ _ before card after Hcb' Hcard').
  - unfold selfReveal, findPlayer. simpl.
    assert ((λ p, String.eqb (p_id p) playerId)
            = (λ p : Player, idIs (Some playerId) (p_id p))) as -> by done.
    intros [Hnone|(player & Hp & Hc)].
    + rewrite Hnone. simpl. by rewrite confirm_players.
    + rewrite Hp, Hc. simpl. by rewrite confirm_players.
Qed.

Lemma self_reveal_effect_witness :
  players (run (processPlayerAction confessionState "a" "SELF_REVEAL" (onCard "n1"))
             countingOracle)
  = [] ++ p_with_immune true
            (p_with_cards
               ([mkCard "w1" (Some WITCH) false]
                ++ card_reveal (mkCard "n1" (Some NOT_A_WITCH) false) :: [])
               (mkPlayer "a" "Ann" "a" true false false
                  [mkCard "w1" (Some WITCH) false;
                   mkCard "n1" (Some NOT_A_WITCH) false]
                  true false false false))
     :: skipn 1 (players confessionState).
Proof.
  apply (proj1 (self_reveal_effect confessionState "a" (onCard "n1") countingOracle)
           "n1" []
           (mkPlayer "a" "Ann" "a" true false false
              [mkCard "w1" (Some WITCH) false; mkCard "n1" (Some NOT_A_WITCH) false]
              true false false false)
           (skipn 1 (players confessionState))
           [mkCard "w1" (Some WITCH) false]
           (mkCard "n1" (Some NOT_A_WITCH) false) []).
  - reflexivity.
  - reflexivity.
  - intros q [].
  - reflexivity.
  - reflexivity.
  - intros c [<-|[]]. simpl. discriminate.
  - reflexivity.
Defined.

(** C4, as stated, fails: Ann confesses with her hidden WITCH card; the
    card is revealed and she is immune. *)
Lemma self_reveal_witch_counterexample :
  ¬ specSelfRevealGuard confessionState "a" (onCard "w1") countingOracle.
Proof.
  intros H.
  destruct (H (mkPlayer "a" "Ann" "a" true false false
                 [mkCard "w1" (Some WITCH) false;
                  mkCard "n1" (Some NOT_A_WITCH) false]
                 true false false false)
              (mkCard "w1" (Some WITCH) false))
    as (player' & Hf & Hc & Hi); [reflexivity|reflexivity|by left|].
  vm_compute in Hf. injection Hf as <-. discriminate.
Qed.

Example self_reveal_witch_card :
  let state' :=
    run (processPlayerAction confessionState "a" "SELF_REVEAL" (onCard "w1"))
      countingOracle in
  (λ p, (map c_isRevealed (p_cards p), p_immune p)) <$> (players state' !! 0%nat)
  = Some ([true; false], true)
  ∧ phase state' = NIGHT_CONFESSION.
Proof. split; vm_compute; reflexivity. Qed.

(** ** KILL_VOTE *)

Lemma processPlayerAction_KILL_VOTE state playerId data r :
  run (processPlayerAction state playerId "KILL_VOTE" data) r
  = finishAction state (killVote playerId data (state, logs state)).
Proof. reflexivity. Qed.

Lemma finishAction_witchVotes state l :
  witchVotes (finishAction state l) = witchVotes (fst l).
Proof.
  destruct l as [updates logs0]. unfold finishAction. simpl.
  destruct (checkWinCondition _ _); [destruct (negb _)|]; reflexivity.
Qed.

Lemma finishAction_nightKillTargetId state l :
  nightKillTargetId (finishAction state l) = nightKillTargetId (fst l).
Proof.
  destruct l as [updates logs0]. unfold finishAction. simpl.
  destruct (checkWinCondition _ _); [destruct (negb _)|]; reflexivity.
Qed.

Lemma votesOf_app playerId v1 v2 :
  votesOf playerId (v1 ++ v2) = votesOf playerId v1 ++ votesOf playerId v2.
Proof. apply List.filter_app. Qed.

Lemma votesOf_others playerId votes :
  votesOf playerId
    (List.filter (λ v, negb (String.eqb (wv_voterId v) playerId)) votes) = [].
Proof.
  unfold votesOf. induction votes as [|v votes IH]; simpl; [done|].
  destruct (String.eqb (wv_voterId v) playerId) eqn:E; simpl; [done|].
  by rewrite E.
Qed.

Lemma existsb_votesOf i votes :
  existsb (λ v, String.eqb (wv_voterId v) i) votes = false ↔ votesOf i votes = [].
Proof.
  unfold votesOf. induction votes as [|v votes IH]; simpl; [done|].
  destruct (String.eqb (wv_voterId v) i); simpl; [split; discriminate|done].
Qed.

(** The ghost loop never touches the votes of a voter who has one. *)
Lemma addGhostVotes_votesOf tid targetName playerId ghosts :
  ∀ votes, votesOf playerId votes ≠ [] →
  votesOf playerId (fold_left (addGhostVote tid targetName) ghosts votes)
  = votesOf playerId votes.
Proof.
  induction ghosts as [|g ghosts IH]; intros votes Hne; [done|].
  simpl. unfold addGhostVote at 2.
  destruct (existsb _ votes) eqn:E; [by apply IH|].
  rewrite IH.
  - rewrite votesOf_app. simpl.
    destruct (String.eqb (p_id g) playerId) eqn:Eg; [|by rewrite app_nil_r].
    apply String.eqb_eq in Eg. subst playerId.
    apply existsb_votesOf in E. by destruct Hne.
  - rewrite votesOf_app. intros H. apply app_eq_nil in H as [H _]. by destruct Hne.
Qed.

(** The part of C6 that holds: whoever the caller is, once the caller and
    the target are in the roster a KILL_VOTE leaves exactly one vote of the
    caller, for the new target, and makes that target the night's kill
    target. *)
Lemma kill_vote_replaces (state : GameState) (playerId tid : string)
    (data : ActionData) (voter target : Player) (r : Rand) :
  targetId data = Some tid →
  findPlayer (Some playerId) (players state) = Some voter →
  findPlayer (Some tid) (players state) = Some target →
  let state' := run (processPlayerAction state playerId "KILL_VOTE" data) r in
  votesOf playerId (witchVotes state')
  = [mkVote playerId (p_name voter) tid (p_name target)]
  ∧ nightKillTargetId state' = Some tid.
Proof.
  intros Ht Hv Htg state'. subst state'. rewrite processPlayerAction_KILL_VOTE.
  rewrite finishAction_witchVotes, finishAction_nightKillTargetId.
  unfold killVote. rewrite Ht, Hv, Htg. simpl.
  assert (∀ u, witchVotes (confirm playerId u) = witchVotes u) as Hcw.
  { intros u. unfold confirm. by destruct (includes _ _). }
  assert (∀ u, nightKillTargetId (confirm playerId u) = nightKillTargetId u) as Hck.
  { intros u. unfold confirm. by destruct (includes _ _). }
  rewrite Hcw, Hck. simpl. split; [|done].
  assert (votesOf playerId
            (List.filter (λ v, negb (String.eqb (wv_voterId v) playerId))
               (witchVotes state)
             ++ [mkVote playerId (p_name voter) tid (p_name target)])
          = [mkVote playerId (p_name voter) tid (p_name target)]) as H1.
  { rewrite votesOf_app, votesOf_others. simpl. by rewrite String.eqb_refl. }
  rewrite addGhostVotes_votesOf; [exact H1|]. by rewrite H1.
Qed.

(** C6 at its failing input: Ann votes for Ben and then for Ghost 2. Her
    own vote is replaced and the kill target follows, but the mirrored vote
    of the ghost witch Ghost 1 still names Ben. *)
Theorem kill_vote_ghost_mirror_stale :
  let once :=
    run (processPlayerAction ghostWitchState "a" "KILL_VOTE" (onTarget "b"))
      countingOracle in
  let twice :=
    run (processPlayerAction once "a" "KILL_VOTE" (onTarget "g2")) countingOracle in
  voteTable once = [("a", "b"); ("g1", "b")]
  ∧ voteTable twice = [("g1", "b"); ("a", "g2")]
  ∧ nightKillTargetId twice = Some "g2".
Proof. vm_compute. done. Qed.

(** ** The TOWN win of a roster without hidden WITCH cards *)

Lemma standard_town_win ps :
  noLivingHiddenWitch ps → checkWinCondition ps false = Some TOWN_WIN.
Proof.
  intros H. unfold checkWinCondition.
  assert ((length
             (List.filter (λ c, typeIs WITCH c && negb (c_isRevealed c))
                (flat_map p_cards (List.filter (λ p, negb (p_isDead p)) ps)))
           =? 0)%nat = true) as ->; [|done].
  apply filter_length_0. intros c Hc.
  apply in_flat_map in Hc as (p & Hp & Hc). apply filter_In in Hp as [Hp Hd].
  assert (Forall safeCard (p_cards p)) as Hs.
  { apply H; [done|]. by destruct (p_isDead p). }
  rewrite Forall_forall in Hs. apply Hs. by apply list_elem_of_In.
Qed.






















(** *** The conspiracy keeps the invariant *)


Lemma findIndex_lookup {A} (f : A → bool) (l : list A) (i : nat) :
  findIndex f l = Some i →
  ∃ x, l !! i = Some x ∧ f x = true ∧ ∀ j y, (j < i)%nat → l !! j = Some y → f y = false.
Proof.
  revert i. induction l as [|a l IH]; intros i; simpl; [done|].
  destruct (f a) eqn:Fa.
  - intros [= <-]. exists a. repeat split; auto. intros j y Hj. lia.
  - destruct (findIndex f l) as [k|] eqn:E; simpl; [|done].
    intros [= <-]. destruct (IH k eq_refl) as (x & Hx & Hfx & Hlt).
    exists x. repeat split; auto. intros [|j] y Hj Hy; simpl in Hy.
    + by injection Hy as <-.
    + apply (Hlt j); [lia|done].
Qed.










Example dead_witch_state_is_won :
  checkWinCondition (players deadWitchState) false = Some TOWN_WIN
  ∧ phase (run (processPlayerAction deadWitchState "a" "NIGHT_DAMAGE_SELECT" noData)
             countingOracle) = DAY.
Proof. split; vm_compute; reflexivity. Qed.

(** ** Conspiracy: executing the transfers *)

Lemma findIndex_card (c : string) cs :
  In c (map c_id cs) →
  ∃ i card, findIndex (λ x, idIs (Some c) (c_id x)) cs = Some i
            ∧ cs !! i = Some card ∧ c_id card = c.
Proof.
  induction cs as [|a cs IH]; cbn [map In findIndex]; [done|].
  destruct (idIs (Some c) (c_id a)) eqn:E; simpl in E.
  - intros _. exists 0%nat, a. apply String.eqb_eq in E. auto.
  - intros [H|H]; [apply String.eqb_neq in E; by destruct E|].
    destruct (IH H) as (i & card & Hi & Hc & Hid).
    exists (S i), card. rewrite Hi. auto.
Qed.

Lemma ids_delete (c c' : string) cs i card :
  cs !! i = Some card → c_id card = c → c' ≠ c →
  In c' (map c_id cs) → In c' (map c_id (delete i cs)).
Proof.
  intros Hi Hc Hne Hin. apply list_elem_of_In.
  apply list_elem_of_In in Hin.
  rewrite (delete_Permutation cs i card Hi) in Hin. simpl in Hin.
  rewrite Hc in Hin. apply elem_of_cons in Hin as [Hin|Hin]; [done|].
  exact Hin.
Qed.

(** What one valid transfer does to the map. *)
Lemma executeTransfer_valid m w t :
  validTransfer m t →
  ∃ fromCards i card toCards,
    m !! fromPlayerId t = Some fromCards
    ∧ fromCards !! i = Some card ∧ tr_cardId t = Some (c_id card)
    ∧ <[fromPlayerId t := delete i fromCards]> m !! toPlayerId t = Some toCards
    ∧ fst (executeTransfer (m, w) t)
      = <[toPlayerId t := toCards ++ [card]]>
          (<[fromPlayerId t := delete i fromCards]> m).
Proof.
  intros (fromCards & c & Hf & [toCards0 Ht] & Hc & Hin).
  destruct (findIndex_card c fromCards Hin) as (i & card & Hi & Hcard & Hid).
  assert (is_Some (<[fromPlayerId t := delete i fromCards]> m !! toPlayerId t))
    as [toCards Ht'].
  { rewrite lookup_insert. case_decide; [by eexists|]. by rewrite Ht. }
  exists fromCards, i, card, toCards.
  split; [done|]. split; [done|]. split; [by rewrite Hc, Hid|]. split; [done|].
  unfold executeTransfer. rewrite Hf, Ht, Hc, Hi, Hcard. simpl.
  by rewrite Ht'.
Qed.

Lemma executeTransfer_lenAt m w t x :
  validTransfer m t →
  (lenAt (fst (executeTransfer (m, w) t)) x
   + (if String.eqb (fromPlayerId t) x then 1 else 0)
   = lenAt m x + (if String.eqb (toPlayerId t) x then 1 else 0))%nat.
Proof.
  intros Hv.
  destruct (executeTransfer_valid m w t Hv)
    as (fromCards & i & card & toCards & Hf & Hi & _ & Ht & ->).
  unfold lenAt.
  assert (length (delete i fromCards) + 1 = length fromCards)%nat as Hlen.
  { rewrite length_delete by (by eexists).
    apply lookup_lt_Some in Hi. lia. }
  destruct (String.eqb (toPlayerId t) x) eqn:Et.
  - apply String.eqb_eq in Et. subst x. rewrite lookup_insert_eq. simpl.
    rewrite length_app. simpl.
    destruct (String.eqb (fromPlayerId t) (toPlayerId t)) eqn:Ef.
    + apply String.eqb_eq in Ef. rewrite Ef in *.
      rewrite lookup_insert_eq in Ht. injection Ht as <-.
      rewrite Hf. simpl. lia.
    + apply String.eqb_neq in Ef. rewrite lookup_insert_ne in Ht by done.
      rewrite Ht. simpl. lia.
  - apply String.eqb_neq in Et. rewrite lookup_insert_ne by done.
    destruct (String.eqb (fromPlayerId t) x) eqn:Ef.
    + apply String.eqb_eq in Ef. subst x. rewrite lookup_insert_eq, Hf. simpl. lia.
    + apply String.eqb_neq in Ef. rewrite lookup_insert_ne by done. lia.
Qed.

Lemma executeTransfer_keeps_valid m w t t' :
  validTransfer m t → validTransfer m t' → tr_cardId t' ≠ tr_cardId t →
  validTransfer (fst (executeTransfer (m, w) t)) t'.
Proof.
  intros Hv (fc' & c' & Hf' & Ht' & Hc' & Hin') Hne.
  destruct (executeTransfer_valid m w t Hv)
    as (fromCards & i & card & toCards & Hf & Hi & Hc & Ht & ->).
  assert (c' ≠ c_id card) as Hne'.
  { intros ->. apply Hne. by rewrite Hc', Hc. }
  assert (∀ x, is_Some (m !! x) →
               is_Some (<[toPlayerId t := toCards ++ [card]]>
                          (<[fromPlayerId t := delete i fromCards]> m) !! x)) as Hkeys.
  { intros x Hx. rewrite lookup_insert. case_decide; [by eexists|].
    rewrite lookup_insert. case_decide; [by eexists|done]. }
  destruct (decide (toPlayerId t = fromPlayerId t')) as [E1|E1].
  - exists (toCards ++ [card]), c'. rewrite <- E1, lookup_insert_eq.
    split; [done|]. split; [by apply Hkeys|]. split; [done|].
    rewrite map_app. apply in_or_app. left.
    rewrite <- E1 in Hf'.
    destruct (decide (fromPlayerId t = toPlayerId t)) as [E2|E2].
    + rewrite E2 in *. rewrite lookup_insert_eq in Ht. injection Ht as <-.
      rewrite Hf in Hf'. injection Hf' as <-.
      by apply (ids_delete (c_id card) c' fromCards i card).
    + rewrite lookup_insert_ne in Ht by done. rewrite Hf' in Ht.
      by injection Ht as <-.
  - destruct (decide (fromPlayerId t = fromPlayerId t')) as [E2|E2].
    + exists (delete i fromCards), c'.
      rewrite lookup_insert_ne by done. rewrite <- E2, lookup_insert_eq.
      split; [done|]. split; [by apply Hkeys|]. split; [done|].
      rewrite <- E2, Hf in Hf'. injection Hf' as <-.
      by apply (ids_delete (c_id card) c' fromCards i card).
    + exists fc', c'. rewrite !lookup_insert_ne by done.
      split; [done|]. split; [by apply Hkeys|]. done.
Qed.

(** After any run of valid transfers on distinct cards, every hand has its
    old size, less what left, plus what came. *)
Lemma executeTransfers_lenAt ts :
  ∀ m w x,
    NoDup (map tr_cardId ts) → Forall (validTransfer m) ts →
    (lenAt (fst (fold_left executeTransfer ts (m, w))) x + outs x ts
     = lenAt m x + ins x ts)%nat.
Proof.
  induction ts as [|t ts IH]; intros m w x Hnd Hv; [done|].
  simpl in Hnd. apply NoDup_cons in Hnd as [Hnotin Hnd].
  inversion Hv as [|? ? Hvt Hvts]; subst.
  cbn [fold_left].
  destruct (executeTransfer (m, w) t) as [m1 w1] eqn:E.
  assert (m1 = fst (executeTransfer (m, w) t)) as Hm1 by (by rewrite E).
  assert (Forall (validTransfer m1) ts) as Hv1.
  { rewrite Hm1. apply Forall_forall. intros t' Ht'.
    rewrite Forall_forall in Hvts.
    apply executeTransfer_keeps_valid; [done|by apply Hvts|].
    intros Heq. apply Hnotin. rewrite <- Heq.
    apply list_elem_of_In, in_map, list_elem_of_In, Ht'. }
  pose proof (IH m1 w1 x Hnd Hv1) as HIH.
  pose proof (executeTransfer_lenAt m w t x Hvt) as Hstep.
  rewrite <- Hm1 in Hstep. unfold outs, ins in *. simpl.
  destruct (String.eqb (fromPlayerId t) x), (String.eqb (toPlayerId t) x);
    simpl; lia.
Qed.

(** *** No card is lost or duplicated *)

Lemma concat_Permutation {A} (l1 l2 : list (list A)) :
  l1 ≡ₚ l2 → concat l1 ≡ₚ concat l2.
Proof.
  induction 1 as [|x l l' _ IH|x y l|l l' l'' _ IH1 _ IH2]; simpl.
  - done.
  - by rewrite IH.
  - rewrite !app_assoc. f_equiv. apply Permutation_app_comm.
  - by rewrite IH1.
Qed.

Lemma allCards_lookup (m : gmap string (list Card)) k v :
  m !! k = Some v → allCards m ≡ₚ v ++ allCards (delete k m).
Proof.
  intros H. unfold allCards.
  rewrite <- (map_to_list_delete m k v H). reflexivity.
Qed.

Lemma allCards_insert (m : gmap string (list Card)) k v :
  allCards (<[k := v]> m) ≡ₚ v ++ allCards (delete k m).
Proof.
  rewrite <- (insert_delete_eq m). unfold allCards.
  rewrite map_to_list_insert by apply lookup_delete_eq.
  reflexivity.
Qed.

Lemma allCards_replace (m : gmap string (list Card)) k old new :
  m !! k = Some old → allCards (<[k := new]> m) ++ old ≡ₚ allCards m ++ new.
Proof.
  intros H. rewrite allCards_insert, (allCards_lookup m k old H).
  rewrite (Permutation_app_comm (new ++ _) old).
  rewrite (Permutation_app_comm (old ++ _) new).
  apply Permutation_app_swap_app.
Qed.

(** A transfer, whether or not it finds its card, keeps the cards of the
    map and its keys. *)
Lemma executeTransfer_allCards st t :
  allCards (fst (executeTransfer st t)) ≡ₚ allCards (fst st)
  ∧ ∀ k, is_Some (fst (executeTransfer st t) !! k) ↔ is_Some (fst st !! k).
Proof.
  destruct st as [m w]. unfold executeTransfer. simpl.
  destruct (m !! fromPlayerId t) as [fromCards|] eqn:Ef; [|done].
  destruct (m !! toPlayerId t) as [toCards0|] eqn:Et; [|done].
  destruct (findIndex _ fromCards) as [i|]; [|done].
  destruct (fromCards !! i) as [card|] eqn:Ei; [|done]. simpl.
  set (m1 := <[fromPlayerId t := delete i fromCards]> m).
  assert (is_Some (m1 !! toPlayerId t)) as [toCards Ht1].
  { subst m1. rewrite lookup_insert. case_decide; [by eexists|]. by rewrite Et. }
  rewrite Ht1. simpl. split.
  - pose proof (allCards_replace m (fromPlayerId t) fromCards
                  (delete i fromCards) Ef) as H1.
    pose proof (allCards_replace m1 (toPlayerId t) toCards
                  (toCards ++ [card]) Ht1) as H2.
    fold m1 in H1.
    pose proof (delete_Permutation fromCards i card Ei) as Hd.
    assert (card :: allCards m1 ≡ₚ allCards m) as H3.
    { apply (Permutation_app_inv_r (delete i fromCards)). rewrite <- H1.
      simpl. rewrite Permutation_middle. by apply Permutation_app_head. }
    rewrite <- H3.
    apply (Permutation_app_inv_r toCards). rewrite H2, app_assoc.
    symmetry. apply Permutation_cons_append.
  - intros k. subst m1. rewrite !lookup_insert.
    repeat case_decide; subst; rewrite ?Ef, ?Et; try done;
      split; intros _; by eexists.
Qed.

Lemma executeTransfers_allCards ts :
  ∀ st,
    allCards (fst (fold_left executeTransfer ts st)) ≡ₚ allCards (fst st)
    ∧ ∀ k, is_Some (fst (fold_left executeTransfer ts st) !! k)
           ↔ is_Some (fst st !! k).
Proof.
  induction ts as [|t ts IH]; intros st; [done|].
  simpl. destruct (IH (executeTransfer st t)) as [H1 H2].
  destruct (executeTransfer_allCards st t) as [H3 H4].
  split; [by rewrite H1|]. intros k. by rewrite H2.
Qed.

(** The hands the map holds for a roster with distinct ids are all its
    cards. *)
Lemma hands_allCards ps :
  ∀ m : gmap string (list Card),
    NoDup (map p_id ps) →
    (∀ k, is_Some (m !! k) ↔ In k (map p_id ps)) →
    concat (map (λ p, default [] (m !! p_id p)) ps) ≡ₚ allCards m.
Proof.
  induction ps as [|p ps IH]; intros m Hnd Hkeys.
  - simpl. assert (m = ∅) as ->.
    { apply map_empty. intros k. apply eq_None_not_Some. rewrite Hkeys.
      simpl. tauto. }
    unfold allCards. by rewrite map_to_list_empty.
  - simpl in *. apply NoDup_cons in Hnd as [Hnotin Hnd].
    destruct (proj2 (Hkeys (p_id p))) as [v Hv]; [by left|].
    rewrite Hv. simpl. rewrite (allCards_lookup m (p_id p) v Hv). f_equiv.
    assert (map (λ q, default [] (m !! p_id q)) ps
            = map (λ q, default [] (delete (p_id p) m !! p_id q)) ps) as ->.
    { apply map_ext_in. intros q Hq.
      rewrite lookup_delete_ne; [done|]. intros E. apply Hnotin.
      rewrite E. by apply list_elem_of_In, in_map. }
    apply IH; [done|]. intros k.
    rewrite lookup_delete. case_decide as E.
    + subst k. split; [by intros [? ?]|].
      intros H. by apply list_elem_of_In in H.
    + rewrite Hkeys. split; [|by right]. by intros [H|H].
Qed.

Lemma buildCardsMap_other ps :
  ∀ (m : gmap string (list Card)) k,
    ¬ In k (map p_id ps) →
    fold_left (λ m p, <[p_id p := p_cards p]> m) ps m !! k = m !! k.
Proof.
  induction ps as [|p ps IH]; intros m k Hk; [done|].
  simpl in *. rewrite IH by tauto. apply lookup_insert_ne. tauto.
Qed.

Lemma buildCardsMap_lookup ps p :
  NoDup (map p_id ps) → In p ps →
  buildCardsMap ps !! p_id p = Some (p_cards p).
Proof.
  unfold buildCardsMap. generalize (∅ : gmap string (list Card)).
  induction ps as [|q ps IH]; intros m Hnd Hin; [done|].
  simpl in *. apply NoDup_cons in Hnd as [Hnotin Hnd].
  destruct Hin as [->|Hin].
  - rewrite buildCardsMap_other.
    + apply lookup_insert_eq.
    + intros H. apply Hnotin. by apply list_elem_of_In.
  - by apply IH.
Qed.

Lemma buildCardsMap_keys ps k :
  is_Some (buildCardsMap ps !! k) ↔ In k (map p_id ps).
Proof.
  unfold buildCardsMap.
  assert (∀ m : gmap string (list Card),
            is_Some (fold_left (λ m p, <[p_id p := p_cards p]> m) ps m !! k)
            ↔ In k (map p_id ps) ∨ is_Some (m !! k)) as H.
  { induction ps as [|p ps IH]; intros m; simpl; [tauto|].
    rewrite IH, lookup_insert. case_decide; [|tauto].
    split; [tauto|]. intros _. right. by eexists. }
  rewrite H, lookup_empty. split; [|tauto]. intros [?|[? ?]]; done.
Qed.

Lemma buildCardsMap_hands ps :
  NoDup (map p_id ps) →
  map (λ p, default [] (buildCardsMap ps !! p_id p)) ps = map p_cards ps.
Proof.
  intros Hnd. apply map_ext_in. intros p Hp.
  by rewrite (buildCardsMap_lookup ps p Hnd Hp).
Qed.

(** *** The ring of living entities *)

Lemma find_by_id ps p :
  NoDup (map p_id ps) → In p ps → findPlayer (Some (p_id p)) ps = Some p.
Proof.
  unfold findPlayer. induction ps as [|q ps IH]; intros Hnd Hin; [done|].
  simpl in *. apply NoDup_cons in Hnd as [Hnotin Hnd].
  destruct Hin as [->|Hin]; [by rewrite String.eqb_refl|].
  destruct (String.eqb (p_id q) (p_id p)) eqn:E; [|by apply IH].
  apply String.eqb_eq in E. destruct Hnotin. rewrite E.
  by apply list_elem_of_In, in_map.
Qed.

Lemma findIndex_by_id l k p :
  NoDup (map p_id l) → l !! k = Some p →
  findIndex (λ q, String.eqb (p_id q) (p_id p)) l = Some k.
Proof.
  revert k. induction l as [|q l IH]; intros k Hnd Hk; [done|].
  simpl in Hnd. apply NoDup_cons in Hnd as [Hnotin Hnd].
  destruct k as [|k]; simpl in Hk.
  - injection Hk as ->. simpl. by rewrite String.eqb_refl.
  - cbn [findIndex]. destruct (String.eqb (p_id q) (p_id p)) eqn:E.
    + apply String.eqb_eq in E. destruct Hnotin. rewrite E.
      apply list_elem_of_In, in_map, list_elem_of_In.
      apply list_elem_of_lookup. by exists k.
    + by rewrite (IH k Hnd Hk).
Qed.

Lemma aliveOf_In ps p : In p (aliveOf ps) ↔ In p ps ∧ p_isDead p = false.
Proof.
  unfold aliveOf. rewrite filter_In. destruct (p_isDead p); simpl; intuition.
Qed.

Lemma aliveOf_NoDup ps : NoDup (map p_id ps) → NoDup (map p_id (aliveOf ps)).
Proof.
  unfold aliveOf. induction ps as [|p ps IH]; simpl; [done|].
  intros Hnd. apply NoDup_cons in Hnd as [Hnotin Hnd].
  destruct (negb (p_isDead p)); [|by apply IH]. simpl.
  apply NoDup_cons. split; [|by apply IH].
  intros H. apply Hnotin. apply list_elem_of_In in H.
  apply in_map_iff in H as (q & Hq & Hin). apply filter_In in Hin as [Hin _].
  rewrite <- Hq. by apply list_elem_of_In, in_map.
Qed.

Lemma ringLeft_Permutation alive : ringLeft alive ≡ₚ alive.
Proof.
  unfold ringLeft. rewrite Permutation_app_comm. by rewrite take_drop.
Qed.

Lemma ringLeft_lookup alive k :
  (k < length alive)%nat → leftNeighborAt alive (Some k) = ringLeft alive !! k.
Proof.
  intros Hk. unfold leftNeighborAt, ringLeft.
  assert (length (drop (length alive - 1) alive) = 1%nat) as Hd.
  { rewrite length_drop. lia. }
  destruct k as [|k].
  - rewrite lookup_app_l by lia. rewrite lookup_drop. f_equal. lia.
  - rewrite lookup_app_r by lia. rewrite Hd. simpl. rewrite Nat.sub_0_r.
    rewrite lookup_take_lt by lia. done.
Qed.

Lemma leftIdOf_ring alive :
  NoDup (map p_id alive) →
  map (leftIdOf alive) alive = map p_id (ringLeft alive).
Proof.
  intros Hnd. apply list_eq. intros k. rewrite !list_lookup_fmap.
  destruct (alive !! k) as [p|] eqn:Hk; simpl.
  - unfold leftIdOf. rewrite (findIndex_by_id alive k p Hnd Hk).
    pose proof (lookup_lt_Some _ _ _ Hk) as Hlt.
    rewrite (ringLeft_lookup alive k Hlt).
    destruct (ringLeft alive !! k) as [nb|] eqn:E; [done|].
    apply lookup_ge_None in E.
    rewrite (Permutation_length (ringLeft_Permutation alive)) in E. lia.
  - apply lookup_ge_None in Hk.
    assert (ringLeft alive !! k = None) as ->; [|done].
    apply lookup_ge_None.
    by rewrite (Permutation_length (ringLeft_Permutation alive)).
Qed.

Lemma transferFor_alive ps choice p :
  NoDup (map p_id ps) → In p (aliveOf ps) →
  is_Some (leftNeighborAt (aliveOf ps)
             (findIndex (λ q, String.eqb (p_id q) (p_id p)) (aliveOf ps))) →
  transferFor ps (selectionOf choice p) = [transferOf (aliveOf ps) choice p].
Proof.
  intros Hnd Hin [nb Hleft]. apply aliveOf_In in Hin as [Hin Hd].
  unfold transferFor, selectionOf, transferOf, leftIdOf. simpl.
  rewrite (find_by_id ps p Hnd Hin), Hd. fold (aliveOf ps).
  by rewrite Hleft.
Qed.

Lemma flat_map_singletons {A B} (f : A → list B) (g : A → B) l :
  (∀ x, In x l → f x = [g x]) → flat_map f l = map g l.
Proof.
  induction l as [|a l IH]; intros H; [done|].
  simpl. rewrite (H a) by (by left). simpl. f_equal. apply IH.
  intros x Hx. apply H. by right.
Qed.

Lemma filter_length_Permutation {A} (f : A → bool) l l' :
  l ≡ₚ l' → length (List.filter f l) = length (List.filter f l').
Proof.
  induction 1 as [|x l l' _ IH|x y l|l l' l'' _ IH1 _ IH2]; simpl.
  - done.
  - destruct (f x); simpl; congruence.
  - destruct (f x), (f y); simpl; congruence.
  - congruence.
Qed.

Lemma filter_length_map {A B} (g : B → bool) (h : A → B) l :
  length (List.filter (λ x, g (h x)) l) = length (List.filter g (map h l)).
Proof.
  induction l as [|a l IH]; simpl; [done|].
  destruct (g (h a)); simpl; congruence.
Qed.

(** In the ring every living entity gives one card and takes one. *)
Lemma ring_outs_ins alive choice x :
  NoDup (map p_id alive) →
  outs x (map (transferOf alive choice) alive)
  = ins x (map (transferOf alive choice) alive).
Proof.
  intros Hnd. unfold outs, ins.
  rewrite (filter_length_map (λ i, String.eqb i x) fromPlayerId).
  rewrite (filter_length_map (λ i, String.eqb i x) toPlayerId).
  rewrite !map_map. simpl.
  change (map (λ p, leftIdOf alive p) alive) with (map (leftIdOf alive) alive).
  rewrite (leftIdOf_ring alive Hnd).
  apply filter_length_Permutation.
  change (map (λ p, p_id p) alive) with (map p_id alive).
  apply Permutation_map, ringLeft_Permutation.
Qed.

(** *** The conspiracy as a whole *)

Lemma mapR_shuffle_back (m : gmap string (list Card)) (newW : list string) ps :
  ∀ r,
    Forall2 (λ p p', p_id p' = p_id p
                     ∧ p_cards p' ≡ₚ default (p_cards p) (m !! p_id p))
      ps
      (fst (mapR (λ p,
                    cards ← shuffle (default (p_cards p) (m !! p_id p));
                    mret (p_with_hasRevealedWitch
                            (p_hasRevealedWitch p || includes (p_id p) newW)
                            (p_with_cards cards p))) ps r)).
Proof.
  induction ps as [|p ps IH]; intros r; [constructor|].
  cbn [mapR]. cbv [mbind M_bind mret M_ret]. cbv beta.
  pose proof (shuffle_Permutation (default (p_cards p) (m !! p_id p)) r) as Hperm.
  destruct (shuffle _ r) as [cards r1]. simpl in Hperm.
  specialize (IH r1). destruct (mapR _ ps r1) as [rest r2]. simpl in *.
  constructor; [|done]. by split.
Qed.

Lemma conspiracyResolve_players updates logs0 r :
  ∃ m newW,
    fold_left executeTransfer
      (flat_map (transferFor (players updates))
         (fst (foldR (ghostSelect (aliveOf (players updates)))
                 (List.filter p_isGhost (aliveOf (players updates)))
                 (conspiracySelections updates) r)))
      (buildCardsMap (players updates), []) = (m, newW)
    ∧ Forall2 (λ p p', p_id p' = p_id p
                       ∧ p_cards p' ≡ₚ default (p_cards p) (m !! p_id p))
        (players updates)
        (players (fst (fst (conspiracyResolve updates logs0 r)))).
Proof.
  unfold conspiracyResolve. fold (aliveOf (players updates)).
  cbv [mbind M_bind mret M_ret]. cbv beta.
  destruct (foldR _ _ _ r) as [sels r1]. simpl fst.
  destruct (fold_left executeTransfer _ _) as [m newW] eqn:E.
  exists m, newW. split; [done|].
  pose proof (mapR_shuffle_back m newW (players updates) r1) as H.
  destruct (mapR _ (players updates) r1) as [players' r']. exact H.
Qed.

(** With every living entity choosing a different card of its left
    neighbour, the map of hands ends with every hand at its old size. *)
Lemma conspiracy_lenAt ps sels choice :
  NoDup (map p_id ps) →
  sels ≡ₚ map (selectionOf choice) (aliveOf ps) →
  choosesFromLeft (aliveOf ps) choice →
  NoDup (map choice (aliveOf ps)) →
  ∀ p, In p ps →
    lenAt (fst (fold_left executeTransfer (flat_map (transferFor ps) sels)
                  (buildCardsMap ps, []))) (p_id p)
    = length (p_cards p).
Proof.
  intros Hnd Hsels Hleft Hchoice p Hp.
  set (alive := aliveOf ps) in *.
  pose proof (aliveOf_NoDup ps Hnd) as Hnda. fold alive in Hnda.
  assert (∀ q, In q alive →
            ∃ k nb card, alive !! k = Some q
              ∧ leftNeighborAt alive
                  (findIndex (λ x, String.eqb (p_id x) (p_id q)) alive) = Some nb
              ∧ In nb alive ∧ In card (p_cards nb) ∧ c_id card = choice q) as Hq.
  { intros q Hin. apply list_elem_of_In, list_elem_of_lookup in Hin as [k Hk].
    destruct (Hleft k q Hk) as (nb & card & Hnb & Hcard & _ & Hid).
    exists k, nb, card. rewrite (findIndex_by_id alive k q Hnda Hk).
    split; [done|]. split; [done|]. split; [|done].
    unfold leftNeighborAt in Hnb. apply list_elem_of_In.
    apply list_elem_of_lookup. eauto. }
  assert (flat_map (transferFor ps) sels ≡ₚ map (transferOf alive choice) alive)
    as Hts.
  { rewrite (Permutation_flat_map (transferFor ps) Hsels).
    rewrite flat_map_concat_map, map_map, <- flat_map_concat_map.
    rewrite (flat_map_singletons _ (transferOf alive choice)); [done|].
    intros q Hin. apply transferFor_alive; [done|done|].
    destruct (Hq q Hin) as (k & nb & card & _ & Hnb & _). by eexists. }
  assert (Forall (validTransfer (buildCardsMap ps))
            (flat_map (transferFor ps) sels)) as Hvalid.
  { rewrite Hts. apply Forall_forall. intros t Ht.
    apply list_elem_of_In, in_map_iff in Ht as (q & <- & Hin).
    destruct (Hq q Hin) as (k & nb & card & _ & Hnb & Hnbin & Hcard & Hid).
    exists (p_cards nb), (choice q). unfold transferOf, leftIdOf. simpl.
    rewrite Hnb. apply aliveOf_In in Hnbin as [Hnbin _].
    apply aliveOf_In in Hin as [Hin _].
    split; [by apply buildCardsMap_lookup|].
    split; [apply buildCardsMap_keys; by apply in_map|].
    split; [done|]. rewrite <- Hid. by apply in_map. }
  assert (NoDup (map tr_cardId (flat_map (transferFor ps) sels))) as Hndc.
  { rewrite Hts, map_map. simpl.
    change (map (λ x, Some (choice x)) alive) with (Some ∘ choice <$> alive).
    rewrite list_fmap_compose. apply (NoDup_fmap_2 Some). exact Hchoice. }
  pose proof (executeTransfers_lenAt _ (buildCardsMap ps) [] (p_id p) Hndc Hvalid)
    as Hlen.
  pose proof (ring_outs_ins alive choice (p_id p) Hnda) as Hring.
  unfold outs, ins in Hlen, Hring.
  rewrite !(filter_length_Permutation _ _ _ Hts) in Hlen.
  unfold lenAt in Hlen at 2. rewrite (buildCardsMap_lookup ps p Hnd Hp) in Hlen.
  simpl in Hlen. lia.
Qed.

Lemma processPlayerAction_CONSPIRACY_SELECT state playerId data r :
  run (processPlayerAction state playerId "CONSPIRACY_SELECT" data) r
  = finishAction state
      (fst (conspiracySelect false playerId data (state, logs state) r)).
Proof.
  unfold run, processPlayerAction. cbv [mbind M_bind mret M_ret]. cbv beta.
  change (dispatch playerId "CONSPIRACY_SELECT" data (state, logs state) r)
    with (conspiracySelect false playerId data (state, logs state) r).
  by destruct (conspiracySelect false playerId data (state, logs state) r).
Qed.

Lemma allSelected_true ps sels choice :
  sels ≡ₚ map (selectionOf choice) (realOf (aliveOf ps)) →
  forallb (λ p, existsb (λ s, idIs (cs_playerId s) (p_id p)) sels)
    (List.filter (λ p, negb (p_isDead p) && negb (p_isGhost p)) ps) = true.
Proof.
  intros Hsels. apply forallb_forall. intros p Hp.
  apply filter_In in Hp as [Hp Hb]. apply andb_prop in Hb as [Hd Hg].
  apply existsb_exists. exists (selectionOf choice p). split.
  - apply list_elem_of_In. rewrite Hsels. apply list_elem_of_In, in_map.
    apply filter_In. split; [|done].
    apply aliveOf_In. split; [done|]. by destruct (p_isDead p).
  - simpl. apply String.eqb_refl.
Qed.

(** *** The selections the engine makes for the ghosts *)

Lemma filter_ids_NoDup (f : Player → bool) ps :
  NoDup (map p_id ps) → NoDup (map p_id (List.filter f ps)).
Proof.
  induction ps as [|p ps IH]; simpl; [done|].
  intros Hnd. apply NoDup_cons in Hnd as [Hnotin Hnd].
  destruct (f p); [|by apply IH]. simpl.
  apply NoDup_cons. split; [|by apply IH].
  intros H. apply Hnotin. apply list_elem_of_In in H.
  apply in_map_iff in H as (q & Hq & Hin). apply filter_In in Hin as [Hin _].
  rewrite <- Hq. by apply list_elem_of_In, in_map.
Qed.

Lemma filter_split_Permutation {A} (f : A → bool) l :
  List.filter (λ x, negb (f x)) l ++ List.filter f l ≡ₚ l.
Proof.
  induction l as [|a l IH]; simpl; [done|].
  destruct (f a); simpl.
  - rewrite <- Permutation_middle. by rewrite IH.
  - by rewrite IH.
Qed.

Lemma ghostSelect_picks alive sels g k r :
  NoDup (map p_id alive) → alive !! k = Some g →
  (∃ c, pickedFromLeft alive k c) →
  ∃ c, pickedFromLeft alive k c
       ∧ ghostSelect alive sels g r
         = (sels ++ [mkSelection (Some (p_id g)) (Some c)], λ n, r (S n)).
Proof.
  intros Hnd Hk (c0 & nb & card0 & Hnb & Hin0 & Hhid0 & _).
  unfold ghostSelect. rewrite (findIndex_by_id alive k g Hnd Hk), Hnb.
  set (hiddenCards := List.filter (λ c, negb (c_isRevealed c)) (p_cards nb)).
  assert (In card0 hiddenCards) as Hin.
  { apply filter_In. split; [done|]. by rewrite Hhid0. }
  assert (0 < length hiddenCards)%nat as Hlen.
  { destruct hiddenCards; [destruct Hin|simpl; lia]. }
  assert ((0 <? length hiddenCards)%nat = true) as -> by (by apply Nat.ltb_lt).
  cbv [mbind M_bind randomBelow mret M_ret]. cbv beta iota.
  destruct (hiddenCards !! (r 0%nat `mod` length hiddenCards)) as [randomCard|]
    eqn:E.
  - exists (c_id randomCard). split; [|done].
    exists nb, randomCard. split; [done|].
    assert (In randomCard hiddenCards) as Hr.
    { apply list_elem_of_In, list_elem_of_lookup. eauto. }
    apply filter_In in Hr as [Hr Hh]. split; [done|]. split; [|done].
    by destruct (c_isRevealed randomCard).
  - apply lookup_ge_None in E.
    pose proof (Nat.mod_upper_bound (r 0%nat) (length hiddenCards)). lia.
Qed.

Lemma ghosts_fold alive :
  NoDup (map p_id alive) →
  ∀ ghosts,
    NoDup (map p_id ghosts) →
    (∀ g, In g ghosts → ∃ k, alive !! k = Some g ∧ ∃ c, pickedFromLeft alive k c) →
    ∀ sels r,
    ∃ gchoice : Player → string,
      fst (foldR (ghostSelect alive) ghosts sels r)
      = sels ++ map (selectionOf gchoice) ghosts
      ∧ ∀ g k, In g ghosts → alive !! k = Some g →
               pickedFromLeft alive k (gchoice g).
Proof.
  intros Hnd ghosts. induction ghosts as [|g gs IH]; intros Hndg Hcan sels r.
  - exists (λ _, ""). split; [by rewrite app_nil_r|]. intros g k [].
  - simpl in Hndg. apply NoDup_cons in Hndg as [Hnotin Hndg].
    destruct (Hcan g) as (k & Hk & Hc); [by left|].
    destruct (ghostSelect_picks alive sels g k r Hnd Hk Hc) as (c & Hpick & Hsel).
    cbn [foldR]. cbv [mbind M_bind]. cbv beta. rewrite Hsel.
    destruct (IH Hndg (λ g' Hg', Hcan g' (or_intror Hg'))
                (sels ++ [mkSelection (Some (p_id g)) (Some c)]) (λ n, r (S n)))
      as (gchoice & Hfold & Hvalid).
    exists (λ p, if String.eqb (p_id p) (p_id g) then c else gchoice p).
    assert (∀ g', In g' gs → String.eqb (p_id g') (p_id g) = false) as Hother.
    { intros g' Hg'. apply String.eqb_neq. intros E. apply Hnotin.
      rewrite <- E. by apply list_elem_of_In, in_map. }
    split.
    + rewrite Hfold, <- app_assoc. f_equal. simpl. unfold selectionOf at 2.
      rewrite String.eqb_refl. f_equal. apply map_ext_in. intros g' Hg'.
      unfold selectionOf. by rewrite (Hother g' Hg').
    + intros g' k' [<-|Hg'] Hk'.
      * rewrite String.eqb_refl.
        assert (k' = k) as ->; [|done].
        apply (NoDup_lookup (map p_id alive) k' k (p_id g) Hnd);
          by rewrite list_lookup_fmap, ?Hk, ?Hk'.
      * rewrite (Hother g' Hg'). by apply Hvalid.
Qed.

(** A card id names one hand of a roster whose card ids are distinct. *)
Lemma card_owner ps :
  NoDup (map c_id (concat (map p_cards ps))) →
  ∀ i j p q c d,
    ps !! i = Some p → ps !! j = Some q →
    In c (p_cards p) → In d (p_cards q) → c_id c = c_id d → i = j.
Proof.
  induction ps as [|a ps IH]; intros Hnd i j p q c d Hi Hj Hc Hd Hid; [done|].
  simpl in Hnd. rewrite map_app in Hnd.
  apply NoDup_app in Hnd as (Hnda & Hdisj & Hndr).
  assert (∀ k x y, ps !! k = Some x → In y (p_cards x) →
                   c_id y ∈ map c_id (concat (map p_cards ps))) as Hrest.
  { intros k x y Hk Hy. apply list_elem_of_In, in_map, in_concat.
    exists (p_cards x). split; [|done]. apply in_map.
    apply list_elem_of_In, list_elem_of_lookup. eauto. }
  destruct i as [|i], j as [|j]; simpl in Hi, Hj.
  - done.
  - injection Hi as <-. exfalso. apply (Hdisj (c_id c)).
    + by apply list_elem_of_In, in_map.
    + rewrite Hid. by apply (Hrest j q d).
  - injection Hj as <-. exfalso. apply (Hdisj (c_id d)).
    + by apply list_elem_of_In, in_map.
    + rewrite <- Hid. by apply (Hrest i p c).
  - f_equal. by apply (IH Hndr i j p q c d).
Qed.

Lemma shuffled_back_ids (m : gmap string (list Card)) ps ps' :
  Forall2 (λ p p', p_id p' = p_id p
                   ∧ p_cards p' ≡ₚ default (p_cards p) (m !! p_id p)) ps ps' →
  map p_id ps' = map p_id ps.
Proof.
  induction 1 as [|p p' ps ps' [Hid _] _ IH]; [done|].
  simpl. by rewrite Hid, IH.
Qed.

Lemma shuffled_back_cards (m : gmap string (list Card)) ps ps' :
  Forall2 (λ p p', p_id p' = p_id p
                   ∧ p_cards p' ≡ₚ default (p_cards p) (m !! p_id p)) ps ps' →
  (∀ p, In p ps → is_Some (m !! p_id p)) →
  concat (map p_cards ps') ≡ₚ concat (map (λ p, default [] (m !! p_id p)) ps).
Proof.
  induction 1 as [|p p' ps ps' [_ Hc] _ IH]; intros Hkeys; [done|].
  simpl. rewrite Hc, IH by (intros q Hq; apply Hkeys; by right).
  destruct (Hkeys p) as [cs ->]; [by left|]. done.
Qed.

Lemma shuffled_back_lengths (m : gmap string (list Card)) ps ps' :
  Forall2 (λ p p', p_id p' = p_id p
                   ∧ p_cards p' ≡ₚ default (p_cards p) (m !! p_id p)) ps ps' →
  (∀ p, In p ps → ∃ cs, m !! p_id p = Some cs ∧ length cs = length (p_cards p)) →
  map (λ p, length (p_cards p)) ps' = map (λ p, length (p_cards p)) ps.
Proof.
  induction 1 as [|p p' ps ps' [_ Hc] _ IH]; intros Hlen; [done|].
  simpl. rewrite IH by (intros q Hq; apply Hlen; by right). f_equal.
  rewrite Hc. destruct (Hlen p) as (cs & -> & Hl); [by left|]. done.
Qed.

Lemma picks_distinct ps choice :
  NoDup (map p_id ps) →
  NoDup (map c_id (concat (map p_cards ps))) →
  choosesFromLeft (aliveOf ps) choice →
  NoDup (map choice (aliveOf ps)).
Proof.
  intros Hnd Hcards Hleft. set (alive := aliveOf ps) in *.
  pose proof (aliveOf_NoDup ps Hnd) as Hnda. fold alive in Hnda.
  assert (NoDup (map p_id (ringLeft alive))) as Hndr.
  { by rewrite (ringLeft_Permutation alive). }
  apply NoDup_alt. intros i j x Hi Hj.
  rewrite list_lookup_fmap in Hi, Hj.
  destruct (alive !! i) as [p|] eqn:Ei; [|done].
  destruct (alive !! j) as [q|] eqn:Ej; [|done].
  simpl in Hi, Hj. injection Hi as Hi. injection Hj as Hj.
  destruct (Hleft i p Ei) as (nbi & ci & Hnbi & Hci & _ & Hidi).
  destruct (Hleft j q Ej) as (nbj & cj & Hnbj & Hcj & _ & Hidj).
  rewrite (ringLeft_lookup alive i (lookup_lt_Some _ _ _ Ei)) in Hnbi.
  rewrite (ringLeft_lookup alive j (lookup_lt_Some _ _ _ Ej)) in Hnbj.
  assert (∀ k nb, ringLeft alive !! k = Some nb → ∃ a, ps !! a = Some nb) as Hps.
  { intros k nb Hk. apply list_elem_of_lookup.
    assert (nb ∈ ringLeft alive) as Hin by (apply list_elem_of_lookup; eauto).
    rewrite (ringLeft_Permutation alive) in Hin.
    apply list_elem_of_In, aliveOf_In in Hin as [Hin _].
    by apply list_elem_of_In. }
  destruct (Hps i nbi Hnbi) as [a Ha]. destruct (Hps j nbj Hnbj) as [b Hb].
  assert (a = b) as ->.
  { apply (card_owner ps Hcards a b nbi nbj ci cj); try done. congruence. }
  rewrite Ha in Hb. injection Hb as <-.
  apply (NoDup_lookup (map p_id (ringLeft alive)) i j (p_id nbi) Hndr);
    by rewrite list_lookup_fmap, ?Hnbi, ?Hnbj.
Qed.

(** C7. When the CONSPIRACY_SELECT that completes the selections finds
    every living real player with one selection, a hidden card of its left
    neighbour in the living ring, the engine picks for every living ghost a
    hidden card of that ghost's left neighbour and resolves the conspiracy.
    With distinct entity ids and distinct card ids the roster then keeps its
    seating, every hand keeps its size, and the hands together hold exactly
    the cards they held before: no card id is lost and none is duplicated.
    This holds for any number of living entities, four among them. *)
Theorem conspiracy_keeps_hands (state : GameState) (playerId : string)
    (data : ActionData) (r : Rand) (choice : Player → string) :
  NoDup (map p_id (players state)) →
  NoDup (map c_id (concat (map p_cards (players state)))) →
  selectionsAfter state playerId data
    ≡ₚ map (selectionOf choice) (realOf (aliveOf (players state))) →
  realChooseFromLeft (aliveOf (players state)) choice →
  ghostsCanChoose (aliveOf (players state)) →
  let state' := run (processPlayerAction state playerId "CONSPIRACY_SELECT" data) r in
  map p_id (players state') = map p_id (players state)
  ∧ map (λ p, length (p_cards p)) (players state')
    = map (λ p, length (p_cards p)) (players state)
  ∧ concat (map p_cards (players state')) ≡ₚ concat (map p_cards (players state))
  ∧ NoDup (map c_id (concat (map p_cards (players state')))).
Proof.
  intros Hnd Hcards Hsels Hreal Hghost state'. subst state'.
  rewrite processPlayerAction_CONSPIRACY_SELECT, finishAction_players.
  unfold conspiracySelect. fold (selectionsAfter state playerId data).
  set (updates1 := set_conspiracySelections (selectionsAfter state playerId data) state).
  change (players updates1) with (players state).
  change (conspiracySelections updates1) with (selectionsAfter state playerId data).
  rewrite (allSelected_true _ _ choice Hsels).
  destruct (conspiracyResolve_players updates1 (logs state) r)
    as (m & newW & Hfold & Hback).
  change (players updates1) with (players state) in Hfold, Hback.
  change (conspiracySelections updates1)
    with (selectionsAfter state playerId data) in Hfold.
  set (players' := players (fst (fst (conspiracyResolve updates1 (logs state) r))))
    in *.
  set (ps := players state) in *. set (alive := aliveOf ps) in *.
  pose proof (aliveOf_NoDup ps Hnd) as Hnda. fold alive in Hnda.
  (* the selections of the ghosts *)
  destruct (ghosts_fold alive Hnda (List.filter p_isGhost alive)
              (filter_ids_NoDup _ _ Hnda)) with
    (sels := selectionsAfter state playerId data) (r := r)
    as (gchoice & Hgsels & Hgvalid).
  { intros g Hg. apply filter_In in Hg as [Hg Hgh].
    apply list_elem_of_In, list_elem_of_lookup in Hg as [k Hk].
    exists k. split; [done|]. by apply (Hghost k g). }
  rewrite Hgsels in Hfold.
  set (sels := selectionsAfter state playerId data
               ++ map (selectionOf gchoice) (List.filter p_isGhost alive)) in *.
  set (choice' := λ p, if p_isGhost p then gchoice p else choice p).
  assert (sels ≡ₚ map (selectionOf choice') alive) as Hsels'.
  { subst sels. rewrite Hsels.
    rewrite <- (filter_split_Permutation p_isGhost alive) at 3.
    rewrite map_app. unfold realOf. f_equiv.
    - apply Permutation_refl'. apply map_ext_in. intros p Hp.
      apply filter_In in Hp as [_ Hp]. unfold selectionOf, choice'.
      by destruct (p_isGhost p).
    - apply Permutation_refl'. apply map_ext_in. intros p Hp.
      apply filter_In in Hp as [_ Hp]. unfold selectionOf, choice'.
      by rewrite Hp. }
  assert (choosesFromLeft alive choice') as Hleft.
  { intros k p Hk. unfold choice'. destruct (p_isGhost p) eqn:Eg.
    - apply Hgvalid; [|done]. apply filter_In. split; [|done].
      apply list_elem_of_In, list_elem_of_lookup. eauto.
    - by apply Hreal. }
  pose proof (picks_distinct ps choice' Hnd Hcards Hleft) as Hchoice.
  assert (m = fst (fold_left executeTransfer (flat_map (transferFor ps) sels)
                     (buildCardsMap ps, []))) as Hm
    by (by rewrite Hfold).
  assert (∀ p, In p ps →
               ∃ cs, m !! p_id p = Some cs ∧ length cs = length (p_cards p)) as Hlen.
  { intros p Hp.
    pose proof (conspiracy_lenAt _ _ choice' Hnd Hsels' Hleft Hchoice p Hp) as H.
    rewrite <- Hm in H. unfold lenAt in H.
    destruct (executeTransfers_allCards (flat_map (transferFor ps) sels)
                (buildCardsMap ps, [])) as [_ Hkeys].
    rewrite <- Hm in Hkeys. simpl in Hkeys.
    destruct (proj2 (Hkeys (p_id p))) as [cs Hcs].
    { apply buildCardsMap_keys. by apply in_map. }
    exists cs. rewrite Hcs in H. by split. }
  assert (concat (map p_cards players') ≡ₚ concat (map p_cards ps)) as Hperm.
  { transitivity (concat (map (λ p, default [] (m !! p_id p)) ps)).
    - apply shuffled_back_cards; [done|]. intros q Hq.
      destruct (Hlen q Hq) as (cs & -> & _). by eexists.
    - rewrite hands_allCards; [|done|].
      + rewrite Hm.
        destruct (executeTransfers_allCards (flat_map (transferFor ps) sels)
                    (buildCardsMap ps, [])) as [-> _].
        simpl. rewrite <- (hands_allCards ps); [|done|].
        * by rewrite buildCardsMap_hands.
        * apply buildCardsMap_keys.
      + intros k. rewrite Hm.
        destruct (executeTransfers_allCards (flat_map (transferFor ps) sels)
                    (buildCardsMap ps, [])) as [_ ->].
        apply buildCardsMap_keys. }
  split; [|split; [|split]].
  - by apply (shuffled_back_ids m).
  - by apply (shuffled_back_lengths m).
  - exact Hperm.
  - by rewrite Hperm.
Qed.

Lemma conspiracy_keeps_hands_witness :
  let state' :=
    run (processPlayerAction conspiracyState "d" "CONSPIRACY_SELECT" (onCard "c2"))
      countingOracle in
  map p_id (players state') = map p_id (players conspiracyState)
  ∧ map (λ p, length (p_cards p)) (players state')
    = map (λ p, length (p_cards p)) (players conspiracyState)
  ∧ concat (map p_cards (players state'))
    ≡ₚ concat (map p_cards (players conspiracyState))
  ∧ NoDup (map c_id (concat (map p_cards (players state')))).
Proof.
  apply (conspiracy_keeps_hands conspiracyState "d" (onCard "c2") countingOracle
           sampleChoice).
  - apply (bool_decide_unpack _). vm_compute. reflexivity.
  - apply (bool_decide_unpack _). vm_compute. reflexivity.
  - reflexivity.
  - intros [|[|[|[|k]]]] p Hk _; simpl in Hk; try discriminate;
      injection Hk as <-.
    + exists (twoCards "d" "Dee" "d1" "d2" NOT_A_WITCH),
        (mkCard "d1" (Some NOT_A_WITCH) false).
      repeat split; try reflexivity. by left.
    + exists (twoCards "a" "Ann" "a1" "a2" WITCH),
        (mkCard "a2" (Some NOT_A_WITCH) false).
      repeat split; try reflexivity. right. by left.
    + exists (twoCards "b" "Bob" "b1" "b2" CONSTABLE),
        (mkCard "b1" (Some CONSTABLE) false).
      repeat split; try reflexivity. by left.
    + exists (twoCards "c" "Cid" "c1" "c2" NOT_A_WITCH),
        (mkCard "c2" (Some NOT_A_WITCH) false).
      repeat split; try reflexivity. right. by left.
  - intros [|[|[|[|k]]]] g Hk Hg; simpl in Hk; try discriminate;
      injection Hk as <-; discriminate.
Defined.

(** The sample conspiracy, run: every hand has two cards again, and each
    chosen card is in the hand of the entity that chose it. *)
Example conspiracy_sample_run :
  let state' :=
    run (processPlayerAction conspiracyState "d" "CONSPIRACY_SELECT" (onCard "c2"))
      (λ _, 0%nat) in
  map (λ p, map c_id (p_cards p)) (players state')
  = [["d1"; "a1"]; ["a2"; "b2"]; ["b1"; "c1"]; ["c2"; "d2"]]
  ∧ map p_hasRevealedWitch (players state') = [true; false; false; false]
  ∧ phase state' = DAY.
Proof. vm_compute. done. Qed.

(** The small game: the engine picks for the two ghosts, and the four hands
    keep their two cards. *)
Example conspiracy_ghost_run :
  let state' :=
    run (processPlayerAction ghostConspiracyState "b" "CONSPIRACY_SELECT"
           (onCard "n3")) (λ _, 0%nat) in
  map (λ p, map c_id (p_cards p)) (players state')
  = [["n6"; "n2"]; ["n1"; "w"]; ["n3"; "n4"]; ["k"; "n5"]]
  ∧ phase state' = DAY.
Proof. vm_compute. done. Qed.

(** ** Night resolution *)

Lemma getLeftNeighborId_alive ps playerId :
  getLeftNeighborId ps playerId
  = match findIndex (λ p, String.eqb (p_id p) playerId) (aliveOf ps) with
    | None => None
    | Some index => truthyId (p_id <$> leftNeighborAt (aliveOf ps) (Some index))
    end.
Proof.
  unfold getLeftNeighborId. fold (aliveOf ps).
  destruct (findIndex _ (aliveOf ps)) as [[|k]|]; simpl; try done.
  by rewrite Nat.sub_0_r.
Qed.

Lemma truthyId_Some v s : truthyId v = Some s → v = Some s ∧ s ≠ "".
Proof.
  destruct v as [t|]; simpl; [|done].
  destruct (String.eqb t "") eqn:E; [done|]. intros [= ->].
  split; [done|]. by apply String.eqb_neq.
Qed.

Lemma leftNeighborAt_In alive index nb :
  leftNeighborAt alive index = Some nb → In nb alive.
Proof.
  unfold leftNeighborAt. intros H. apply list_elem_of_In.
  by apply list_elem_of_lookup_2 in H.
Qed.

Lemma same_id_same_player ps p q :
  NoDup (map p_id ps) → In p ps → In q ps → p_id p = p_id q → p = q.
Proof.
  intros Hnd Hp Hq Hid.
  pose proof (find_by_id ps p Hnd Hp) as H1.
  pose proof (find_by_id ps q Hnd Hq) as H2.
  rewrite Hid in H1. congruence.
Qed.

(** X1. With distinct, non-empty ids, [getLeftNeighborId] turns the ring of
    the living by one seat: listed for the living in seating order, the
    neighbours are the living with the last one moved to the front. *)
Theorem left_neighbor_turns_ring (ps : list Player) :
  NoDup (map p_id ps) →
  (∀ p, In p ps → p_id p ≠ "") →
  map (getLeftNeighborId ps) (map p_id (aliveOf ps))
  = map (λ p, Some (p_id p)) (ringLeft (aliveOf ps)).
Proof.
  intros Hnd Hne. pose proof (aliveOf_NoDup ps Hnd) as Hnda.
  apply list_eq. intros k. rewrite !list_lookup_fmap.
  destruct (aliveOf ps !! k) as [p|] eqn:Hk; simpl.
  - rewrite getLeftNeighborId_alive.
    rewrite (findIndex_by_id (aliveOf ps) k p Hnda Hk).
    pose proof (lookup_lt_Some _ _ _ Hk) as Hlt.
    rewrite (ringLeft_lookup (aliveOf ps) k Hlt).
    destruct (ringLeft (aliveOf ps) !! k) as [nb|] eqn:E; simpl.
    + assert (In nb ps) as Hin.
      { apply list_elem_of_lookup_2 in E.
        rewrite (ringLeft_Permutation (aliveOf ps)) in E.
        by apply list_elem_of_In, aliveOf_In in E as [E _]. }
      apply Hne, String.eqb_neq in Hin. by rewrite Hin.
    + apply lookup_ge_None in E.
      rewrite (Permutation_length (ringLeft_Permutation (aliveOf ps))) in E. lia.
  - apply lookup_ge_None in Hk.
    assert (ringLeft (aliveOf ps) !! k = None) as ->; [|done].
    apply lookup_ge_None.
    by rewrite (Permutation_length (ringLeft_Permutation (aliveOf ps))).
Qed.

Lemma left_neighbor_turns_ring_witness :
  map (getLeftNeighborId (players ghostWitchState))
    (map p_id (aliveOf (players ghostWitchState)))
  = map (λ p, Some (p_id p)) (ringLeft (aliveOf (players ghostWitchState))).
Proof.
  apply (left_neighbor_turns_ring (players ghostWitchState)).
  - apply (bool_decide_unpack _). vm_compute. reflexivity.
  - intros p Hp. simpl in Hp.
    destruct Hp as [<-|[<-|[<-|[<-|[]]]]]; discriminate.
Defined.

(** X2. The entity [getLeftNeighborId] names for a living player is the
    one the conspiracy takes that player's card from: with distinct ids,
    [transferFor] moves the selected card from that neighbour to the
    player. *)
Theorem night_chooser_is_conspiracy_giver (ps : list Player) (p : Player)
    (nb : string) (c : option string) :
  NoDup (map p_id ps) →
  In p ps →
  getLeftNeighborId ps (p_id p) = Some nb →
  transferFor ps (mkSelection (Some (p_id p)) c) = [mkTransfer nb (p_id p) c].
Proof.
  intros Hnd Hp. rewrite getLeftNeighborId_alive.
  destruct (findIndex _ (aliveOf ps)) as [index|] eqn:E; [|done].
  intros H. apply truthyId_Some in H as [H _].
  destruct (leftNeighborAt (aliveOf ps) (Some index)) as [q|] eqn:Eq; [|done].
  injection H as H.
  pose proof E as E'.
  apply findIndex_lookup in E' as (x & Hx & Hid & _).
  apply list_elem_of_lookup_2, list_elem_of_In, aliveOf_In in Hx as [Hx Hd].
  apply String.eqb_eq in Hid.
  assert (x = p) as -> by (by apply (same_id_same_player ps)).
  unfold transferFor. cbn [cs_playerId cs_selectedCardId].
  rewrite (find_by_id ps p Hnd Hp). rewrite Hd.
  fold (aliveOf ps). rewrite E, Eq. by rewrite H.
Qed.

Lemma night_chooser_is_conspiracy_giver_witness :
  transferFor (players ghostWitchState) (mkSelection (Some "b") (Some "w"))
  = [mkTransfer "g1" "b" (Some "w")].
Proof.
  apply (night_chooser_is_conspiracy_giver (players ghostWitchState)
           (mkPlayer "b" "Ben" "b" false false false
              [mkCard "k" (Some CONSTABLE) false;
               mkCard "n4" (Some NOT_A_WITCH) false]
              false false false false) "g1" (Some "w")).
  - apply (bool_decide_unpack _). vm_compute. reflexivity.
  - simpl. tauto.
  - reflexivity.
Defined.

(** *** [resolveNight] *)

Lemma endNight_players state newPlayers logs0 :
  players (endNight state newPlayers logs0) = newPlayers.
Proof. unfold endNight. by destruct (checkWinCondition _ _). Qed.

Lemma endNight_logs state newPlayers logs0 :
  logs (endNight state newPlayers logs0)
  = logs0 ++ winTail newPlayers (isSmallGameMode state).
Proof.
  unfold endNight, winTail. destruct (checkWinCondition _ _); simpl; [done|].
  by rewrite app_nil_r.
Qed.

Lemma endNight_phase state newPlayers logs0 :
  phase (endNight state newPlayers logs0)
  = match checkWinCondition newPlayers (isSmallGameMode state) with
    | Some _ => GAME_OVER
    | None => DAY
    end.
Proof. unfold endNight. by destruct (checkWinCondition _ _). Qed.

Lemma endNight_turnCounter state newPlayers logs0 :
  turnCounter (endNight state newPlayers logs0)
  = match checkWinCondition newPlayers (isSmallGameMode state) with
    | Some _ => turnCounter state
    | None => (turnCounter state + 1)%Z
    end.
Proof. unfold endNight. by destruct (checkWinCondition _ _). Qed.

Lemma endNight_cleared state newPlayers logs0 :
  let s' := endNight state newPlayers logs0 in
  nightDamageSelection s' = None ∧ witchVotes s' = []
  ∧ constableGuardId s' = None ∧ nightKillTargetId s' = None.
Proof. unfold endNight. by destruct (checkWinCondition _ _). Qed.

(** The players [resolvePlayers] returns, whatever it draws. *)
Lemma resolvePlayers_players killed targetDies ps :
  ∀ msg r,
    fst (fst (resolvePlayers killed targetDies msg ps r))
    = map (λ p, if idIs killed (p_id p) && targetDies then slain p
                else p_with_immune false p) ps.
Proof.
  induction ps as [|p ps IH]; intros msg r; [done|].
  cbn [resolvePlayers map]. unfold resolvePlayer.
  cbv [mbind M_bind mret M_ret getRandomMessage randomBelow]. cbv beta iota.
  destruct (idIs killed (p_id p) && targetDies); cbv beta iota.
  - match goal with
    | |- context [resolvePlayers killed targetDies ?m ps ?r'] =>
        specialize (IH m r'); destruct (resolvePlayers killed targetDies m ps r')
          as [[rest m2] r2]
    end.
    simpl in *. by rewrite IH.
  - specialize (IH msg r).
    destruct (resolvePlayers killed targetDies msg ps r) as [[rest m2] r2].
    simpl in *. by rewrite IH.
Qed.

(** The message [resolvePlayers] returns: the one it was given, or a kill
    message for a player it killed. *)
Lemma resolvePlayers_message killed targetDies ps :
  ∀ msg r,
    let out := snd (fst (resolvePlayers killed targetDies msg ps r)) in
    (out = msg ∧ ∀ p, In p ps → idIs killed (p_id p) && targetDies = false)
    ∨ ∃ p before after,
        In p ps ∧ idIs killed (p_id p) && targetDies = true
        ∧ In (before, after) NIGHT_KILL_MESSAGES
        ∧ out = before +:+ p_name p +:+ after.
Proof.
  induction ps as [|p ps IH]; intros msg r; [by left|].
  cbn [resolvePlayers]. unfold resolvePlayer.
  cbv [mbind M_bind mret M_ret getRandomMessage randomBelow]. cbv beta iota.
  destruct (idIs killed (p_id p) && targetDies) eqn:Ek; cbv beta iota.
  - match goal with
    | |- context [resolvePlayers killed targetDies ?m ps ?r'] =>
        pose proof (IH m r') as IH'; set (m1 := m) in *;
        destruct (resolvePlayers killed targetDies m1 ps r') as [[rest m2] r2]
    end.
    cbn [fst snd] in *. right. destruct IH' as [[-> Hno]|(q & b & a & Hq & Hk & Hin & ->)].
    + subst m1.
      set (j := (r 0%nat `mod` length NIGHT_KILL_MESSAGES)%nat) in *.
      assert (j < length NIGHT_KILL_MESSAGES)%nat as Hj.
      { apply Nat.mod_upper_bound. discriminate. }
      destruct (NIGHT_KILL_MESSAGES !! j) as [[b a]|] eqn:Ej.
      * exists p, b, a. split; [by left|]. split; [done|]. split.
        -- apply list_elem_of_In. by apply list_elem_of_lookup_2 in Ej.
        -- done.
      * apply lookup_ge_None in Ej. lia.
    + exists q, b, a. split; [by right|]. by repeat split.
  - pose proof (IH msg r) as IH'.
    destruct (resolvePlayers killed targetDies msg ps r) as [[rest m2] r2].
    cbn [fst snd] in *. destruct IH' as [[-> Hno]|(q & b & a & Hq & Hk & Hin & ->)].
    + left. split; [done|]. intros q [<-|Hq]; auto.
    + right. exists q, b, a. split; [by right|]. by repeat split.
Qed.

Lemma resolveNightFull_players state targetDies r :
  players (run (resolveNightFull state targetDies) r)
  = map (λ p, if idIs (nightKillTargetId state) (p_id p) && targetDies
              then slain p else p_with_immune false p) (players state).
Proof.
  unfold run, resolveNightFull. cbv [mbind M_bind mret M_ret]. cbv beta.
  pose proof (resolvePlayers_players (nightKillTargetId state) targetDies
                (players state) "The night was peaceful." r) as H.
  destruct (resolvePlayers _ _ _ _ r) as [[newPlayers msg] r1]. simpl in *.
  by rewrite endNight_players.
Qed.

Lemma resolveNight_quiet state targetDies :
  nightKillTargetId state = None ∨ targetDies = false →
  resolveNight state targetDies = resolveNightFull state targetDies.
Proof.
  intros H. unfold resolveNight.
  destruct (findPlayer _ _) as [target|]; [|done].
  destruct (nightKillTargetId state) as [k|] eqn:Ek; [|done].
  destruct H as [H| ->]; [done|]. by rewrite andb_false_r.
Qed.

(** X3. A night without a death. When the witches named nobody, or the host
    lets the target survive, [resolveNight] changes no hand and no life: it
    clears every immunity, logs one report, and the win check on the
    unchanged roster decides between DAY and GAME_OVER. *)
Theorem night_without_death (state : GameState) (targetDies : bool) (r : Rand) :
  nightKillTargetId state = None ∨ targetDies = false →
  let state' := run (resolveNight state targetDies) r in
  let report :=
    if falsy (nightKillTargetId state)
    then "The witches did not select a target."
    else nameOrUndefined (findPlayer (nightKillTargetId state) (players state))
           +:+ " was targeted but survived the night!" in
  players state' = map (p_with_immune false) (players state)
  ∧ logs state'
    = logs state ++ [report] ++ winTail (players state') (isSmallGameMode state)
  ∧ phase state'
    = match checkWinCondition (players state') (isSmallGameMode state) with
      | Some _ => GAME_OVER
      | None => DAY
      end
  ∧ nightDamageSelection state' = None
  ∧ nightKillTargetId state' = None.
Proof.
  intros H. rewrite (resolveNight_quiet state targetDies H).
  intros state' report.
  assert (players state' = map (p_with_immune false) (players state)) as Hp.
  { unfold state'. rewrite resolveNightFull_players. apply map_ext.
    intros p. destruct H as [-> | ->]; [done|]. by rewrite andb_false_r. }
  split; [done|]. rewrite Hp. clear Hp.
  unfold state', run, resolveNightFull.
  cbv [mbind M_bind mret M_ret]. cbv beta.
  pose proof (resolvePlayers_players (nightKillTargetId state) targetDies
                (players state) "The night was peaceful." r) as Hps.
  destruct (resolvePlayers _ _ _ _ r) as [[newPlayers msg] r1].
  cbn [fst snd] in *.
  assert (newPlayers = map (p_with_immune false) (players state)) as ->.
  { rewrite Hps. apply map_ext. intros p.
    destruct H as [-> | ->]; [done|]. by rewrite andb_false_r. }
  rewrite endNight_logs, endNight_phase.
  pose proof (endNight_cleared state (map (p_with_immune false) (players state))
    (logs state
     ++ [if falsy (nightKillTargetId state)
         then "The witches did not select a target."
         else if negb targetDies
              then nameOrUndefined
                     (findPlayer (nightKillTargetId state) (players state))
                   +:+ " was targeted but survived the night!"
              else msg])) as (Hn & _ & _ & Hk).
  repeat split; try done.
  rewrite <- app_assoc. do 2 f_equal. unfold report.
  destruct (falsy (nightKillTargetId state)) eqn:Ef; [done|].
  destruct H as [H | ->]; [|done]. by rewrite H in Ef.
Qed.

Lemma night_without_death_witness :
  let state' := run (resolveNight guardedState false) countingOracle in
  let report :=
    if falsy (nightKillTargetId guardedState)
    then "The witches did not select a target."
    else nameOrUndefined
           (findPlayer (nightKillTargetId guardedState) (players guardedState))
           +:+ " was targeted but survived the night!" in
  players state' = map (p_with_immune false) (players guardedState)
  ∧ logs state'
    = logs guardedState ++ [report]
      ++ winTail (players state') (isSmallGameMode guardedState)
  ∧ phase state'
    = match checkWinCondition (players state') (isSmallGameMode guardedState) with
      | Some _ => GAME_OVER
      | None => DAY
      end
  ∧ nightDamageSelection state' = None
  ∧ nightKillTargetId state' = None.
Proof.
  apply (night_without_death guardedState false countingOracle).
  right. reflexivity.
Defined.

(** X4. A kill in a standard game. With [targetDies] true, [resolveNight]
    marks every entity with the target id dead and reveals its whole hand,
    clears every immunity and touches nothing else of the roster; the log
    gets one report, "The night was peaceful." when the roster has no
    entity with that id; the votes, the target and the guard are
    cleared. *)
Theorem standard_night_kill (state : GameState) (k : string) (r : Rand) :
  isSmallGameMode state = false →
  nightKillTargetId state = Some k →
  k ≠ "" →
  let state' := run (resolveNight state true) r in
  players state'
  = map (λ p, if String.eqb (p_id p) k then slain p else p_with_immune false p)
      (players state)
  ∧ (∃ msg, logs state' = logs state ++ [msg] ++ winTail (players state') false
       ∧ ((msg = "The night was peaceful."
           ∧ ∀ p, In p (players state) → p_id p ≠ k)
          ∨ ∃ p, In p (players state) ∧ p_id p = k))
  ∧ phase state'
    = match checkWinCondition (players state') false with
      | Some _ => GAME_OVER
      | None => DAY
      end
  ∧ witchVotes state' = [] ∧ nightKillTargetId state' = None
  ∧ constableGuardId state' = None.
Proof.
  intros Hsmall Hk Hne.
  assert (resolveNight state true = resolveNightFull state true) as ->.
  { unfold resolveNight. rewrite Hsmall.
    destruct (findPlayer _ _); [|done]. by rewrite Hk. }
  intros state'.
  assert (players state'
          = map (λ p, if String.eqb (p_id p) k then slain p
                      else p_with_immune false p) (players state)) as Hp.
  { unfold state'. rewrite resolveNightFull_players. rewrite Hk.
    apply map_ext. intros p. simpl. by rewrite andb_true_r. }
  split; [done|]. rewrite Hp. clear Hp.
  unfold state', run, resolveNightFull.
  cbv [mbind M_bind mret M_ret]. cbv beta.
  pose proof (resolvePlayers_players (nightKillTargetId state) true
                (players state) "The night was peaceful." r) as Hps.
  pose proof (resolvePlayers_message (nightKillTargetId state) true
                (players state) "The night was peaceful." r) as Hmsg.
  destruct (resolvePlayers _ _ _ _ r) as [[newPlayers msg] r1].
  cbn [fst snd] in *.
  assert (newPlayers
          = map (λ p, if String.eqb (p_id p) k then slain p
                      else p_with_immune false p) (players state)) as ->.
  { rewrite Hps, Hk. apply map_ext. intros p. simpl. by rewrite andb_true_r. }
  rewrite endNight_logs, endNight_phase, Hsmall.
  rewrite Hk in *. cbn [falsy negb].
  apply String.eqb_neq in Hne. rewrite Hne.
  match goal with
  | |- context [endNight state ?np ?lg] =>
      pose proof (endNight_cleared state np lg) as (_ & Hv & Hg & Ht)
  end.
  split; [|done].
  exists msg. split; [by rewrite <- app_assoc|].
  destruct Hmsg as [[-> Hno]|(p & b & a & Hin & Hid & Hba & ->)].
  - left. split; [done|]. intros p Hin Hid. specialize (Hno p Hin).
    simpl in Hno. rewrite andb_true_r in Hno.
    apply String.eqb_neq in Hno. done.
  - right. exists p. split; [done|].
    simpl in Hid. rewrite andb_true_r in Hid. by apply String.eqb_eq.
Qed.

Lemma standard_night_kill_witness :
  let state' := run (resolveNight guardedState true) countingOracle in
  players state'
  = map (λ p, if String.eqb (p_id p) "b" then slain p else p_with_immune false p)
      (players guardedState)
  ∧ (∃ msg, logs state'
            = logs guardedState ++ [msg] ++ winTail (players state') false
       ∧ ((msg = "The night was peaceful."
           ∧ ∀ p, In p (players guardedState) → p_id p ≠ "b")
          ∨ ∃ p, In p (players guardedState) ∧ p_id p = "b"))
  ∧ phase state'
    = match checkWinCondition (players state') false with
      | Some _ => GAME_OVER
      | None => DAY
      end
  ∧ witchVotes state' = [] ∧ nightKillTargetId state' = None
  ∧ constableGuardId state' = None.
Proof.
  apply (standard_night_kill guardedState "b" countingOracle);
    [reflexivity|reflexivity|discriminate].
Defined.

(** *** The small game *)

Lemma findIndex_None {A} (f : A → bool) l :
  findIndex f l = None → ∀ x, In x l → f x = false.
Proof.
  induction l as [|a l IH]; simpl; [done|].
  destruct (f a) eqn:Fa; [done|].
  destruct (findIndex f l); [done|]. intros _ x [<-|Hx]; auto.
Qed.

Lemma leftNeighborAt_found (f : Player → bool) alive index :
  findIndex f alive = Some index →
  is_Some (leftNeighborAt alive (Some index)).
Proof.
  intros H. apply findIndex_lookup in H as (x & Hx & _).
  apply lookup_lt_Some in Hx. unfold leftNeighborAt.
  apply lookup_lt_is_Some. destruct index; lia.
Qed.

(** The left neighbour of a living entity exists. *)
Lemma getLeftNeighborId_living ps p :
  In p ps → p_isDead p = false → (∀ q, In q ps → p_id q ≠ "") →
  ∃ nb, getLeftNeighborId ps (p_id p) = Some (p_id nb)
        ∧ In nb ps ∧ p_isDead nb = false.
Proof.
  intros Hp Hd Hne. rewrite getLeftNeighborId_alive.
  destruct (findIndex _ (aliveOf ps)) as [index|] eqn:E.
  - destruct (leftNeighborAt_found _ _ _ E) as [nb Hnb].
    rewrite Hnb. exists nb.
    apply leftNeighborAt_In, aliveOf_In in Hnb as [Hin Hnd].
    pose proof (Hne nb Hin) as Hn. apply String.eqb_neq in Hn.
    simpl. by rewrite Hn.
  - apply findIndex_None with (x := p) in E; [|by apply aliveOf_In].
    by rewrite String.eqb_refl in E.
Qed.

(** X5. A night attack in the small game kills nobody by itself. When the
    target is alive and some real player is alive, [resolveNight] with
    [targetDies] leaves every hand and life as it is and stays in its phase:
    it clears the immunities and records a pending selection for a living
    chooser, a real player whenever the target is a ghost. *)
Theorem small_night_attack_is_pending (state : GameState) (k : string)
    (target : Player) (r : Rand) :
  isSmallGameMode state = true →
  nightKillTargetId state = Some k →
  findPlayer (Some k) (players state) = Some target →
  p_isDead target = false →
  (∀ p, In p (players state) → p_id p ≠ "") →
  (∃ p, In p (players state) ∧ p_isGhost p = false ∧ p_isDead p = false) →
  let state' := run (resolveNight state true) r in
  ∃ chooser,
    In chooser (players state) ∧ p_isDead chooser = false
    ∧ (p_isGhost target = true → p_isGhost chooser = false)
    ∧ nightDamageSelection state' = Some (mkDamage k (p_id chooser) true)
    ∧ players state' = map (p_with_immune false) (players state)
    ∧ phase state' = phase state
    ∧ logs state'
      = logs state
        ++ [p_name target +:+ " was attacked! "
              +:+ nameOrSomeone (findPlayer (Some (p_id chooser)) (players state))
              +:+ " must choose 2 cards to reveal."].
Proof.
  intros Hsmall Hk Hfind Hd Hne (real & Hreal & Hrg & Hrd).
  unfold findPlayer in Hfind. pose proof Hfind as Hfind'.
  apply find_some in Hfind' as [Hin Hid]. simpl in Hid.
  apply String.eqb_eq in Hid. subst k.
  assert (String.eqb (p_id target) "" = false) as Hnek.
  { by apply String.eqb_neq, Hne. }
  unfold run, resolveNight. rewrite Hk. unfold findPlayer. rewrite Hfind.
  rewrite Hsmall. cbn [andb falsy negb]. rewrite Hnek. cbn [negb].
  destruct (p_isGhost target) eqn:Hg.
  - destruct (List.find (λ p, negb (p_isGhost p) && negb (p_isDead p))
                (players state)) as [chooser|] eqn:Ec.
    + pose proof Ec as Ec'. apply find_some in Ec' as [Hcin Hc].
      apply andb_true_iff in Hc as [Hcg Hcd].
      apply negb_true_iff in Hcg, Hcd.
      cbn [fmap option_fmap option_map truthyId].
      pose proof (Hne chooser Hcin) as Hcne.
      apply String.eqb_neq in Hcne. rewrite Hcne. cbv [from_option id].
      rewrite Hcne. cbn [negb].
      exists chooser. by repeat split.
    + apply find_none with (x := real) in Ec; [|done].
      by rewrite Hrg, Hrd in Ec.
  - destruct (getLeftNeighborId_living (players state) target Hin Hd Hne)
      as (nb & Hnb & Hnin & Hnd).
    rewrite Hnb. cbv [from_option id].
    pose proof (Hne nb Hnin) as Hnne. apply String.eqb_neq in Hnne.
    rewrite Hnne. cbn [negb].
    exists nb. by repeat split.
Qed.

Lemma small_night_attack_is_pending_witness :
  let state' := run (resolveNight (dawnState "g1") true) countingOracle in
  ∃ chooser,
    In chooser (players (dawnState "g1")) ∧ p_isDead chooser = false
    ∧ (true = true → p_isGhost chooser = false)
    ∧ nightDamageSelection state' = Some (mkDamage "g1" (p_id chooser) true)
    ∧ players state' = map (p_with_immune false) (players (dawnState "g1"))
    ∧ phase state' = phase (dawnState "g1")
    ∧ logs state'
      = logs (dawnState "g1")
        ++ ["Ghost 1" +:+ " was attacked! "
              +:+ nameOrSomeone
                    (findPlayer (Some (p_id chooser)) (players (dawnState "g1")))
              +:+ " must choose 2 cards to reveal."].
Proof.
  apply (small_night_attack_is_pending (dawnState "g1") "g1"
           (mkPlayer "g1" "Ghost 1" "" false false false
              [mkCard "w" (Some WITCH) false; mkCard "n3" (Some NOT_A_WITCH) false]
              true false false true) countingOracle).
  - reflexivity.
  - reflexivity.
  - reflexivity.
  - reflexivity.
  - intros p Hp. simpl in Hp.
    destruct Hp as [<-|[<-|[<-|[<-|[]]]]]; discriminate.
  - exists (mkPlayer "a" "Ann" "a" true false false
              [mkCard "n1" (Some NOT_A_WITCH) false;
               mkCard "n2" (Some NOT_A_WITCH) false]
              true false false false).
    simpl. tauto.
Defined.

(** *** Protection *)

Lemma find_map_inv {A} (f : A → bool) (g : A → A) l :
  (∀ x, f (g x) = f x) → List.find f (map g l) = g <$> List.find f l.
Proof.
  intros H. induction l as [|a l IH]; simpl; [done|].
  rewrite H. by destruct (f a).
Qed.

Lemma filter_map_inv {A} (f : A → bool) (g : A → A) l :
  (∀ x, f (g x) = f x) → List.filter f (map g l) = map g (List.filter f l).
Proof.
  intros H. induction l as [|a l IH]; simpl; [done|].
  rewrite H. destruct (f a); simpl; by rewrite IH.
Qed.

Lemma findIndex_map_inv {A} (f : A → bool) (g : A → A) l :
  (∀ x, f (g x) = f x) → findIndex f (map g l) = findIndex f l.
Proof.
  intros H. induction l as [|a l IH]; simpl; [done|].
  rewrite H. destruct (f a); [done|]. by rewrite IH.
Qed.

Lemma getLeftNeighborId_immune ps k :
  getLeftNeighborId (map (p_with_immune false) ps) k = getLeftNeighborId ps k.
Proof.
  unfold getLeftNeighborId.
  rewrite (filter_map_inv (λ p, negb (p_isDead p))) by done.
  rewrite (findIndex_map_inv (λ p, String.eqb (p_id p) k)) by done.
  destruct (findIndex _ _) as [index|]; [|done].
  rewrite length_map, list_lookup_fmap.
  by destruct (_ !! _).
Qed.

Lemma resolvePlayers_immune killed targetDies ps :
  ∀ msg r,
    resolvePlayers killed targetDies msg (map (p_with_immune false) ps) r
    = resolvePlayers killed targetDies msg ps r.
Proof.
  induction ps as [|p ps IH]; intros msg r; [done|].
  cbn [map resolvePlayers]. cbv [mbind M_bind]. cbv beta.
  assert (resolvePlayer killed targetDies msg (p_with_immune false p)
          = resolvePlayer killed targetDies msg p) as -> by (by destruct p).
  destruct (resolvePlayer killed targetDies msg p r) as [[p' m1] r1].
  by rewrite IH.
Qed.

Lemma map_immune_idem ps :
  map (p_with_immune false) (map (p_with_immune false) ps)
  = map (p_with_immune false) ps.
Proof. rewrite map_map. apply map_ext. by intros []. Qed.

Lemma resolveNightFull_unprotected s d r :
  nightView (run (resolveNightFull s d) r)
  = nightView (run (resolveNightFull (unprotected s) d) r).
Proof.
  unfold run, resolveNightFull, unprotected.
  cbv [mbind M_bind mret M_ret]. cbv beta.
  destruct s as [rid ph ps lg kt cg tc wv pa csel nc fv small nds].
  cbn [players logs nightKillTargetId set_players set_constableGuardId
       isSmallGameMode turnCounter].
  rewrite resolvePlayers_immune.
  destruct (resolvePlayers kt d _ ps r) as [[newPlayers msg] r1].
  cbn [fst]. unfold findPlayer.
  rewrite (find_map_inv (λ p, idIs kt (p_id p))) by done.
  assert (nameOrUndefined
            (p_with_immune false <$> List.find (λ p, idIs kt (p_id p)) ps)
          = nameOrUndefined (List.find (λ p, idIs kt (p_id p)) ps)) as ->.
  { by destruct (List.find _ ps). }
  unfold endNight, nightView.
  cbn [isSmallGameMode set_constableGuardId set_players].
  destruct (checkWinCondition newPlayers small); reflexivity.
Qed.

Lemma resolveNight_unprotected s d r :
  nightView (run (resolveNight s d) r)
  = nightView (run (resolveNight (unprotected s) d) r).
Proof.
  pose proof (resolveNightFull_unprotected s d r) as Hfull.
  unfold resolveNight.
  assert (nightKillTargetId (unprotected s) = nightKillTargetId s) as -> by done.
  assert (isSmallGameMode (unprotected s) = isSmallGameMode s) as -> by done.
  assert (players (unprotected s) = map (p_with_immune false) (players s))
    as -> by done.
  assert (logs (unprotected s) = logs s) as -> by done.
  unfold findPlayer.
  rewrite (find_map_inv (λ p, idIs (nightKillTargetId s) (p_id p))) by done.
  destruct (List.find (λ p, idIs (nightKillTargetId s) (p_id p)) (players s))
    as [target|]; [|exact Hfull].
  cbn [fmap option_fmap option_map].
  destruct (nightKillTargetId s) as [k|] eqn:Ek; [|exact Hfull].
  destruct (isSmallGameMode s && d && negb (falsy (Some k))); [|exact Hfull].
  rewrite getLeftNeighborId_immune.
  rewrite (find_map_inv (λ p, negb (p_isGhost p) && negb (p_isDead p))) by done.
  assert (p_isGhost (p_with_immune false target) = p_isGhost target) as -> by done.
  assert (p_name (p_with_immune false target) = p_name target) as -> by done.
  assert (p_id <$> (p_with_immune false
                      <$> List.find (λ p, negb (p_isGhost p) && negb (p_isDead p))
                            (players s))
          = p_id <$> List.find (λ p, negb (p_isGhost p) && negb (p_isDead p))
                       (players s)) as ->.
  { by destruct (List.find _ (players s)). }
  match goal with
  | |- context [if negb (String.eqb ?c "") then _ else _] =>
      destruct (negb (String.eqb c "")); [|exact Hfull];
      rewrite (find_map_inv (λ p, idIs (Some c) (p_id p))) by done;
      assert (nameOrSomeone
                (p_with_immune false
                   <$> List.find (λ p, idIs (Some c) (p_id p)) (players s))
              = nameOrSomeone (List.find (λ p, idIs (Some c) (p_id p)) (players s)))
        as -> by (by destruct (List.find _ (players s)))
  end.
  unfold run, nightView. cbv [mret M_ret]. cbn [fst].
  rewrite map_immune_idem. by destruct s.
Qed.

Lemma unprotected_same s1 s2 :
  sameButProtection s1 s2 → unprotected s2 = unprotected s1.
Proof.
  intros [Hs Hp]. rewrite Hs. unfold unprotected.
  destruct s1. cbn [players set_players set_constableGuardId]. by rewrite Hp.
Qed.

(** X6. [resolveNight] looks neither at the constable's guard nor at
    anybody's immunity: on two states that differ only there it builds the
    same roster, log, phase, pending selection and turn. Whether the target
    dies is the [targetDies] argument alone. *)
Theorem night_ignores_protection (s1 s2 : GameState) (targetDies : bool)
    (r : Rand) :
  sameButProtection s1 s2 →
  nightView (run (resolveNight s1 targetDies) r)
  = nightView (run (resolveNight s2 targetDies) r).
Proof.
  intros H. rewrite (resolveNight_unprotected s1), (resolveNight_unprotected s2).
  by rewrite (unprotected_same s1 s2 H).
Qed.

Lemma night_ignores_protection_witness :
  nightView (run (resolveNight guardedState true) countingOracle)
  = nightView (run (resolveNight (unprotected guardedState) true) countingOracle).
Proof.
  apply (night_ignores_protection guardedState (unprotected guardedState) true
           countingOracle).
  split; reflexivity.
Defined.

(** *** [applyNightDamage] *)

Lemma processPlayerAction_NIGHT_DAMAGE_SELECT state playerId data r :
  run (processPlayerAction state playerId "NIGHT_DAMAGE_SELECT" data) r
  = finishAction state (nightDamageSelect playerId data (state, logs state)).
Proof. reflexivity. Qed.

(** X7. The chooser's NIGHT_DAMAGE_SELECT action does what the host's
    [applyNightDamage] does with the same cards, except for the log: the
    action's own win check writes the win message once more. *)
Theorem night_damage_action_is_applyNightDamage (state : GameState)
    (playerId : string) (data : ActionData) (nds : NightDamageSelection)
    (r : Rand) :
  nightDamageSelection state = Some nds →
  nd_chooserId nds = playerId →
  phase state ≠ GAME_OVER →
  let direct := applyNightDamage state (cardIds data) in
  run (processPlayerAction state playerId "NIGHT_DAMAGE_SELECT" data) r
  = set_logs (logs direct ++ winTail (players direct) (isSmallGameMode state))
      direct.
Proof.
  intros Hsel Hch Hph. rewrite processPlayerAction_NIGHT_DAMAGE_SELECT.
  unfold nightDamageSelect, applyNightDamage. rewrite Hsel, Hch.
  rewrite String.eqb_refl. cbv zeta.
  set (players' := map _ (players state)).
  assert (GamePhase_eqb (phase state) GAME_OVER = false) as Hpe.
  { by destruct (phase state). }
  unfold endNight, finishAction, winTail.
  cbn [players isSmallGameMode set_players].
  destruct state as [rid ph ps lg kt cg tc wv pa csel nc fv small nds0].
  cbn [players isSmallGameMode set_players logs phase] in *.
  destruct (checkWinCondition players' small) as [win|] eqn:Ew;
    cbn [players isSmallGameMode set_players set_phase set_logs
         set_nightKillTargetId set_constableGuardId set_witchVotes
         set_nightDamageSelection set_turnCounter logs phase turnCounter].
  - rewrite Ew. rewrite Hpe. cbn [negb]. reflexivity.
  - rewrite Ew. by rewrite app_nil_r.
Qed.

Lemma night_damage_action_is_applyNightDamage_witness :
  let direct := applyNightDamage damageState (cardIds (onCards ["k"; "n4"])) in
  run (processPlayerAction damageState "a" "NIGHT_DAMAGE_SELECT"
         (onCards ["k"; "n4"])) countingOracle
  = set_logs (logs direct
              ++ winTail (players direct) (isSmallGameMode damageState)) direct.
Proof.
  apply (night_damage_action_is_applyNightDamage damageState "a"
           (onCards ["k"; "n4"]) (mkDamage "b" "a" true) countingOracle);
    [reflexivity|reflexivity|discriminate].
Defined.

(** ** Phase machine, continued *)

Lemma Forall2_diag {A} (R : A → A → Prop) l : (∀ x, R x x) → Forall2 R l l.
Proof. intros H. induction l; constructor; auto. Qed.

Lemma Forall2_map_r {A} (R : A → A → Prop) (f : A → A) l :
  (∀ x, R x (f x)) → Forall2 R l (map f l).
Proof. intros H. induction l; simpl; constructor; auto. Qed.



Local Ltac advance_branches :=
  repeat match goal with
         | |- context [if ?c then _ else _] => destruct c
         | |- context [match ?l !! ?j with _ => _ end] => destruct (l !! j)
         | |- context [match List.find ?f ?l with _ => _ end] =>
             destruct (List.find f l)
         end.


Lemma advanceTimes_S n state r :
  run (advanceTimes (S n) state) r
  = run (advanceTimes n (fst (advancePhase state r))) (snd (advancePhase state r)).
Proof.
  unfold run. cbn [advanceTimes]. cbv [mbind M_bind]. cbv beta.
  by destruct (advancePhase state r).
Qed.

(** What one step from each night phase leaves. *)
Lemma advancePhase_DAY state r :
  phase state = DAY →
  let state' := fst (advancePhase state r) in
  phase state' = NIGHT_WITCH_VOTE ∧ players state' = players state
  ∧ turnCounter state' = turnCounter state ∧ nightConfirmations state' = [].
Proof.
  intros Hph. unfold advancePhase. rewrite Hph.
  cbv [mbind M_bind mret M_ret randomBelow]; cbv beta iota.
  advance_branches; by destruct state.
Qed.

Lemma advancePhase_NIGHT_WITCH_VOTE state r :
  phase state = NIGHT_WITCH_VOTE →
  let state' := fst (advancePhase state r) in
  (phase state' = NIGHT_CONSTABLE ∨ phase state' = NIGHT_CONFESSION)
  ∧ players state' = players state
  ∧ turnCounter state' = turnCounter state ∧ nightConfirmations state' = [].
Proof.
  intros Hph. unfold advancePhase. rewrite Hph.
  cbv [mbind M_bind mret M_ret randomBelow]; cbv beta iota.
  advance_branches; destruct state; cbn; auto.
Qed.

Lemma advancePhase_NIGHT_CONSTABLE state r :
  phase state = NIGHT_CONSTABLE →
  let state' := fst (advancePhase state r) in
  phase state' = NIGHT_CONFESSION ∧ players state' = players state
  ∧ turnCounter state' = turnCounter state ∧ nightConfirmations state' = [].
Proof.
  intros Hph. unfold advancePhase. rewrite Hph.
  cbv [mbind M_bind mret M_ret randomBelow]; cbv beta iota.
  advance_branches; by destruct state.
Qed.

Lemma advancePhase_NIGHT_CONFESSION state r :
  phase state = NIGHT_CONFESSION →
  let state' := fst (advancePhase state r) in
  phase state' = NIGHT_RESOLUTION ∧ players state' = players state
  ∧ turnCounter state' = turnCounter state
  ∧ nightConfirmations state' = nightConfirmations state.
Proof.
  intros Hph. unfold advancePhase. rewrite Hph.
  cbv [mbind M_bind mret M_ret randomBelow]; cbv beta iota.
  by destruct state.
Qed.

Lemma advancePhase_NIGHT_RESOLUTION state r :
  phase state = NIGHT_RESOLUTION → fst (advancePhase state r) = state.
Proof. intros Hph. unfold advancePhase. by rewrite Hph. Qed.

(** X9. From DAY the night runs by itself to its resolution: after four
    presses of "next phase" (the constable phase may be skipped, and
    NIGHT_RESOLUTION does not advance) the phase is NIGHT_RESOLUTION, with
    the roster and the turn counter of the day and no night confirmation
    left. *)
Theorem night_reaches_resolution (state : GameState) (r : Rand) :
  phase state = DAY →
  let state' := run (advanceTimes 4 state) r in
  phase state' = NIGHT_RESOLUTION
  ∧ players state' = players state
  ∧ turnCounter state' = turnCounter state
  ∧ nightConfirmations state' = [].
Proof.
  intros Hph. cbv zeta. rewrite advanceTimes_S.
  destruct (advancePhase_DAY state r Hph) as (H1 & Hp1 & Ht1 & Hn1).
  destruct (advancePhase state r) as [s1 r1]. cbn [fst snd] in *.
  rewrite advanceTimes_S.
  destruct (advancePhase_NIGHT_WITCH_VOTE s1 r1 H1) as (H2 & Hp2 & Ht2 & Hn2).
  destruct (advancePhase s1 r1) as [s2 r2]. cbn [fst snd] in *.
  rewrite advanceTimes_S.
  destruct H2 as [H2|H2].
  - destruct (advancePhase_NIGHT_CONSTABLE s2 r2 H2) as (H3 & Hp3 & Ht3 & Hn3).
    destruct (advancePhase s2 r2) as [s3 r3]. cbn [fst snd] in *.
    rewrite advanceTimes_S.
    destruct (advancePhase_NIGHT_CONFESSION s3 r3 H3) as (H4 & Hp4 & Ht4 & Hn4).
    destruct (advancePhase s3 r3) as [s4 r4]. cbn [fst snd] in *.
    unfold run. cbn [advanceTimes]. cbv [mret M_ret]. cbn [fst].
    repeat split; congruence.
  - destruct (advancePhase_NIGHT_CONFESSION s2 r2 H2) as (H3 & Hp3 & Ht3 & Hn3).
    destruct (advancePhase s2 r2) as [s3 r3]. cbn [fst snd] in *.
    rewrite advanceTimes_S.
    pose proof (advancePhase_NIGHT_RESOLUTION s3 r3 H3) as H4.
    destruct (advancePhase s3 r3) as [s4 r4]. cbn [fst snd] in *. subst s4.
    unfold run. cbn [advanceTimes]. cbv [mret M_ret]. cbn [fst].
    repeat split; congruence.
Qed.

Lemma night_reaches_resolution_witness :
  let state' := run (advanceTimes 4 (ghostCovenState DAY)) countingOracle in
  phase state' = NIGHT_RESOLUTION
  ∧ players state' = players (ghostCovenState DAY)
  ∧ turnCounter state' = turnCounter (ghostCovenState DAY)
  ∧ nightConfirmations state' = [].
Proof.
  apply (night_reaches_resolution (ghostCovenState DAY) countingOracle).
  reflexivity.
Defined.

(** *** Ghost witches *)

Lemma filter_length_pos {A} (f : A → bool) l x :
  In x l → f x = true → (0 <? length (List.filter f l))%nat = true.
Proof.
  intros Hx Hf. apply Nat.ltb_lt.
  assert (In x (List.filter f l)) as H by (by apply filter_In).
  destruct (List.filter f l); [done|simpl; lia].
Qed.

Lemma randomBelow_lookup {A} (l : list A) (r : Rand) :
  (0 <? length l)%nat = true →
  ∃ x, l !! fst (randomBelow (length l) r) = Some x.
Proof.
  intros H. apply Nat.ltb_lt in H. apply lookup_lt_is_Some. simpl.
  apply Nat.mod_upper_bound. lia.
Qed.

(** X10. Ghost witches place the black cat without a trace. In a small
    game leaving SETUP with witches alive and every living witch a ghost,
    [advancePhase] gives the black cat to exactly the entities with the id
    of some real player of the roster, changes nothing else of the roster
    and logs nothing. *)
Theorem ghost_witches_place_cat (state : GameState) (r : Rand) :
  phase state = SETUP →
  isSmallGameMode state = true →
  onlyGhostWitches (players state) →
  (∃ p, In p (players state) ∧ p_isGhost p = false) →
  let state' := run (advancePhase state) r in
  ∃ t, In t (players state) ∧ p_isGhost t = false
    ∧ players state'
      = map (λ p, p_with_hasBlackCat (String.eqb (p_id p) (p_id t)) p)
          (players state)
    ∧ logs state' = logs state
    ∧ phase state' = NIGHT_INITIAL_WITCH.
Proof.
  intros Hph Hsmall [(w & Hw & Hww & Hwd) Hghost] (real & Hreal & Hrg).
  unfold run, advancePhase. rewrite Hph, Hsmall.
  rewrite (filter_length_pos (λ p, p_hasRevealedWitch p && negb (p_isDead p))
             (players state) w Hw) by (by rewrite Hww, Hwd).
  assert ((length
             (List.filter (λ p, negb (p_isGhost p))
                (List.filter (λ p, p_hasRevealedWitch p && negb (p_isDead p))
                   (players state))) =? 0)%nat = true) as ->.
  { apply filter_length_0. intros x Hx. apply filter_In in Hx as [Hx Hc].
    apply andb_true_iff in Hc as [Hxw Hxd]. apply negb_true_iff in Hxd.
    by rewrite (Hghost x Hx Hxw Hxd). }
  cbn [andb].
  pose proof (filter_length_pos (λ p, negb (p_isGhost p)) (players state) real
                Hreal) as Hpos.
  rewrite Hpos by (by rewrite Hrg).
  destruct (randomBelow_lookup
              (List.filter (λ p, negb (p_isGhost p)) (players state)) r)
    as [t Ht]; [by rewrite Hpos; [|rewrite Hrg]|].
  cbv [mbind M_bind mret M_ret]. cbv beta.
  destruct (randomBelow _ r) as [j r1]. cbn [fst] in Ht. rewrite Ht.
  cbn [fst]. exists t.
  apply list_elem_of_lookup_2, list_elem_of_In, filter_In in Ht as [Hin Hg].
  apply negb_true_iff in Hg. by repeat split.
Qed.

Lemma ghost_witches_place_cat_witness :
  let state' := run (advancePhase (ghostCovenState SETUP)) countingOracle in
  ∃ t, In t (players (ghostCovenState SETUP)) ∧ p_isGhost t = false
    ∧ players state'
      = map (λ p, p_with_hasBlackCat (String.eqb (p_id p) (p_id t)) p)
          (players (ghostCovenState SETUP))
    ∧ logs state' = logs (ghostCovenState SETUP)
    ∧ phase state' = NIGHT_INITIAL_WITCH.
Proof.
  apply (ghost_witches_place_cat (ghostCovenState SETUP) countingOracle).
  - reflexivity.
  - reflexivity.
  - split.
    + exists (mkPlayer "g1" "Ghost 1" "" false false false
                [mkCard "w" (Some WITCH) false;
                 mkCard "n3" (Some NOT_A_WITCH) false]
                true false false true).
      simpl. tauto.
    + intros w Hw. simpl in Hw.
      destruct Hw as [<-|[<-|[<-|[<-|[]]]]]; simpl; congruence.
  - exists (mkPlayer "a" "Ann" "a" true false false
              [mkCard "n1" (Some NOT_A_WITCH) false;
               mkCard "n2" (Some NOT_A_WITCH) false]
              false false false false).
    simpl. tauto.
Defined.

(** X11. Ghost witches choose their victim without a trace. In a small
    game leaving DAY with witches alive and every living witch a ghost,
    [advancePhase] overwrites the kill target with the id of a living real
    player, leaves the roster as it is and logs nothing. *)
Theorem ghost_witches_pick_target (state : GameState) (r : Rand) :
  phase state = DAY →
  isSmallGameMode state = true →
  onlyGhostWitches (players state) →
  (∃ p, In p (players state) ∧ p_isGhost p = false ∧ p_isDead p = false) →
  let state' := run (advancePhase state) r in
  ∃ t, In t (players state) ∧ p_isGhost t = false ∧ p_isDead t = false
    ∧ nightKillTargetId state' = Some (p_id t)
    ∧ players state' = players state
    ∧ logs state' = logs state
    ∧ phase state' = NIGHT_WITCH_VOTE.
Proof.
  intros Hph Hsmall [(w & Hw & Hww & Hwd) Hghost] (real & Hreal & Hrg & Hrd).
  unfold run, advancePhase. rewrite Hph, Hsmall.
  fold (aliveOf (players state)).
  assert (In w (aliveOf (players state))) as Hwa by (by apply aliveOf_In).
  assert (In real (aliveOf (players state))) as Hra by (by apply aliveOf_In).
  rewrite (filter_length_pos p_hasRevealedWitch (aliveOf (players state)) w Hwa Hww).
  assert ((length
             (List.filter (λ p, negb (p_isGhost p))
                (List.filter p_hasRevealedWitch (aliveOf (players state))))
           =? 0)%nat = true) as ->.
  { apply filter_length_0. intros x Hx. apply filter_In in Hx as [Hx Hxw].
    apply aliveOf_In in Hx as [Hx Hxd].
    by rewrite (Hghost x Hx Hxw Hxd). }
  cbn [andb].
  pose proof (filter_length_pos (λ p, negb (p_isGhost p))
                (aliveOf (players state)) real Hra) as Hpos.
  rewrite Hpos by (by rewrite Hrg).
  destruct (randomBelow_lookup
              (List.filter (λ p, negb (p_isGhost p)) (aliveOf (players state))) r)
    as [t Ht]; [by rewrite Hpos; [|rewrite Hrg]|].
  cbv [mbind M_bind mret M_ret]. cbv beta.
  destruct (randomBelow _ r) as [j r1]. cbn [fst] in Ht. rewrite Ht.
  cbn [fst]. exists t.
  apply list_elem_of_lookup_2, list_elem_of_In, filter_In in Ht as [Hin Hg].
  apply aliveOf_In in Hin as [Hin Hd].
  apply negb_true_iff in Hg. by repeat split.
Qed.

Lemma ghost_witches_pick_target_witness :
  let state' := run (advancePhase (ghostCovenState DAY)) countingOracle in
  ∃ t, In t (players (ghostCovenState DAY)) ∧ p_isGhost t = false
    ∧ p_isDead t = false
    ∧ nightKillTargetId state' = Some (p_id t)
    ∧ players state' = players (ghostCovenState DAY)
    ∧ logs state' = logs (ghostCovenState DAY)
    ∧ phase state' = NIGHT_WITCH_VOTE.
Proof.
  apply (ghost_witches_pick_target (ghostCovenState DAY) countingOracle).
  - reflexivity.
  - reflexivity.
  - split.
    + exists (mkPlayer "g1" "Ghost 1" "" false false false
                [mkCard "w" (Some WITCH) false;
                 mkCard "n3" (Some NOT_A_WITCH) false]
                true false false true).
      simpl. tauto.
    + intros w Hw. simpl in Hw.
      destruct Hw as [<-|[<-|[<-|[<-|[]]]]]; simpl; congruence.
  - exists (mkPlayer "a" "Ann" "a" true false false
              [mkCard "n1" (Some NOT_A_WITCH) false;
               mkCard "n2" (Some NOT_A_WITCH) false]
              false false false false).
    simpl. tauto.
Defined.

(** ** Actions, continued *)

Lemma sameIdentity_refl p : sameIdentity p p.
Proof. by repeat split. Qed.

Lemma Forall2_sameIdentity_refl ps : Forall2 sameIdentity ps ps.
Proof. apply Forall2_diag, sameIdentity_refl. Qed.

Lemma Forall2_mutateFirst {A} (R : A → A → Prop) (f : A → bool) (g : A → A) l :
  (∀ x, R x x) → (∀ x, R x (g x)) → Forall2 R l (mutateFirst f g l).
Proof.
  intros Hr Hg. induction l as [|a l IH]; simpl; [constructor|].
  destruct (f a); constructor; auto. by apply Forall2_diag.
Qed.

Lemma confirmsOnly_refl playerId nc : confirmsOnly playerId nc nc.
Proof. by left. Qed.

Lemma confirm_confirmsOnly playerId updates :
  confirmsOnly playerId (nightConfirmations updates)
    (nightConfirmations (confirm playerId updates)).
Proof.
  unfold confirm.
  destruct (includes playerId (nightConfirmations updates)) eqn:E; [by left|].
  by right.
Qed.

Lemma confirm_fields playerId updates :
  players (confirm playerId updates) = players updates
  ∧ isSmallGameMode (confirm playerId updates) = isSmallGameMode updates
  ∧ roomId (confirm playerId updates) = roomId updates
  ∧ phase (confirm playerId updates) = phase updates.
Proof. unfold confirm. by destruct (includes _ _). Qed.

Lemma actionStep_refl playerId action l : actionStep playerId action l l.
Proof.
  unfold actionStep. repeat split; auto using Forall2_sameIdentity_refl.
  by left.
Qed.

(** A step that confirms for the caller on top of an update that leaves the
    confirmations alone. *)
Lemma actionStep_confirm playerId action updates updates1 logs0 logs1 :
  Forall2 sameIdentity (players updates) (players updates1) →
  logs0 `prefix_of` logs1 →
  nightConfirmations updates1 = nightConfirmations updates →
  isSmallGameMode updates1 = isSmallGameMode updates →
  roomId updates1 = roomId updates →
  phase updates1 = phase updates →
  actionStep playerId action (updates, logs0) (confirm playerId updates1, logs1).
Proof.
  intros Hp Hl Hn Hm Hr Hph. unfold actionStep. cbn [fst snd].
  destruct (confirm_fields playerId updates1) as (-> & -> & -> & ->).
  pose proof (confirm_confirmsOnly playerId updates1) as Hc.
  rewrite Hn in Hc. repeat split; auto.
Qed.

(** A step that leaves the confirmations and the phase alone. *)
Lemma actionStep_plain playerId action updates updates1 logs0 logs1 :
  Forall2 sameIdentity (players updates) (players updates1) →
  logs0 `prefix_of` logs1 →
  nightConfirmations updates1 = nightConfirmations updates →
  isSmallGameMode updates1 = isSmallGameMode updates →
  roomId updates1 = roomId updates →
  phase updates1 = phase updates →
  actionStep playerId action (updates, logs0) (updates1, logs1).
Proof.
  intros Hp Hl Hn Hm Hr Hph. unfold actionStep. cbn [fst snd].
  rewrite Hn. repeat split; auto. by left.
Qed.

Lemma prefix_app_2 {A} (l k1 k2 : list A) : l `prefix_of` (l ++ k1) ++ k2.
Proof. rewrite <- app_assoc. apply prefix_app_r. done. Qed.

Create HintDb step.

Local Hint Resolve Forall2_sameIdentity_refl prefix_app_r prefix_app_2
  actionStep_refl : step.

Local Hint Extern 1 (_ `prefix_of` _) => reflexivity : step.
Local Hint Extern 1 (_ `prefix_of` _ ++ _) => (apply prefix_app_r; reflexivity) : step.

Lemma accuseStart_step playerId action data l :
  actionStep playerId action l (accuseStart playerId data l).
Proof.
  destruct l as [updates logs0]. unfold accuseStart.
  destruct (findPlayer _ _) as [accuser|]; auto with step.
  destruct (findPlayer _ _) as [target|]; auto with step.
  destruct (targetId data); auto with step.
  destruct (negb _); auto with step.
  apply actionStep_plain; auto with step.
  destruct (p_isGhost target); auto with step.
Qed.

Lemma accuseAccept_step playerId action l :
  actionStep playerId action l (accuseAccept playerId l).
Proof.
  destruct l as [updates logs0]. unfold accuseAccept.
  destruct (pendingAccusation updates) as [pa|]; auto with step.
  destruct (String.eqb _ _); auto with step.
  apply actionStep_plain; auto with step.
Qed.

Lemma accuseCancel_step playerId action l :
  actionStep playerId action l (accuseCancel l).
Proof.
  destruct l as [updates logs0]. unfold accuseCancel.
  destruct (pendingAccusation updates) as [pa|]; auto with step.
  apply actionStep_plain; auto with step.
Qed.

Lemma accuseReveal_step playerId action data l r :
  actionStep playerId action l (fst (accuseReveal playerId data l r)).
Proof.
  destruct l as [updates logs0]. unfold accuseReveal.
  destruct (pendingAccusation updates) as [pa|]; auto with step.
  destruct (_ && _); auto with step.
  destruct (List.find _ (players updates)) as [targetPlayer|]; auto with step.
  destruct (findCard _ _) as [card|]; auto with step.
  destruct (negb (c_isRevealed card)); auto with step.
  cbv [mbind M_bind mret M_ret getRandomMessage randomBelow]. cbv beta iota.
  destruct (typeIs WITCH card); [|destruct (allRevealed _)]; cbn [fst];
    apply actionStep_plain; auto with step;
    cbn [players set_players set_pendingAccusation];
    apply Forall2_mutateFirst; auto using sameIdentity_refl; by intros [].
Qed.

Lemma nightConfirm_step playerId action data l :
  actionStep playerId action l (nightConfirm playerId data l).
Proof.
  destruct l as [updates logs0]. unfold nightConfirm.
  destruct (includes playerId (nightConfirmations updates)) eqn:E;
    cbn [negb]; auto with step.
  assert (confirmsOnly playerId (nightConfirmations updates)
            (nightConfirmations updates ++ [playerId])) as Hc by (by right).
  destruct (fakeTargetId data) as [t|]; [destruct (negb _)|];
    unfold actionStep; cbn [fst snd]; repeat split; auto with step.
Qed.

Lemma castWitchVote_fields playerId tid voter target updates :
  let updates1 := castWitchVote playerId tid voter target updates in
  players updates1 = players updates
  ∧ nightConfirmations updates1 = nightConfirmations updates
  ∧ isSmallGameMode updates1 = isSmallGameMode updates
  ∧ roomId updates1 = roomId updates ∧ phase updates1 = phase updates.
Proof. done. Qed.

Lemma blackCat_step playerId action data l :
  actionStep playerId action l (blackCat playerId data l).
Proof.
  destruct l as [updates logs0]. unfold blackCat.
  destruct (findPlayer _ _) as [voter|]; auto with step.
  destruct (findPlayer _ _) as [target|]; auto with step.
  destruct (targetId data) as [tid|]; auto with step.
  apply actionStep_confirm; auto with step.
  cbn [players set_players castWitchVote set_witchVotes].
  apply Forall2_map_r. by intros [].
Qed.

Lemma killVote_step playerId action data l :
  actionStep playerId action l (killVote playerId data l).
Proof.
  destruct l as [updates logs0]. unfold killVote.
  destruct (findPlayer _ _) as [voter|]; auto with step.
  destruct (findPlayer _ _) as [target|]; auto with step.
  destruct (targetId data) as [tid|]; auto with step.
  apply actionStep_confirm; auto with step.
Qed.

Lemma guardVote_step playerId action data l :
  actionStep playerId action l (guardVote playerId data l).
Proof.
  destruct l as [updates logs0]. unfold guardVote.
  apply actionStep_confirm; auto with step.
Qed.

Lemma guardSkip_step playerId action l :
  actionStep playerId action l (guardSkip playerId l).
Proof.
  destruct l as [updates logs0]. unfold guardSkip.
  apply actionStep_confirm; auto with step.
Qed.

Lemma selfReveal_step playerId action data l :
  actionStep playerId action l (selfReveal playerId data l).
Proof.
  destruct l as [updates logs0]. unfold selfReveal.
  destruct (List.find _ (players updates)) as [player|];
    [|apply actionStep_confirm; auto with step].
  destruct (findCard _ _) as [card|];
    apply actionStep_confirm; auto with step.
  cbn [players set_players].
  apply Forall2_mutateFirst; auto using sameIdentity_refl; by intros [].
Qed.

Lemma confessionPass_step playerId action l :
  actionStep playerId action l (confessionPass playerId l).
Proof.
  destruct l as [updates logs0]. unfold confessionPass.
  apply actionStep_confirm; auto with step.
Qed.

Lemma shuffleHidden_step playerId action f l r :
  actionStep playerId action l (fst (shuffleHidden f l r)).
Proof.
  destruct l as [updates logs0]. unfold shuffleHidden.
  destruct (List.find f (players updates)) as [player|]; auto with step.
  cbv [mbind M_bind mret M_ret]. cbv beta.
  destruct (shuffle _ r) as [shuffled r1]. cbn [fst].
  apply actionStep_plain; auto with step.
  cbn [players set_players].
  apply Forall2_mutateFirst; auto using sameIdentity_refl; by intros [].
Qed.

Lemma nightDamageSelect_step playerId data l :
  actionStep playerId "NIGHT_DAMAGE_SELECT" l (nightDamageSelect playerId data l).
Proof.
  destruct l as [updates logs0]. unfold nightDamageSelect.
  destruct (nightDamageSelection updates) as [nds|]; auto with step.
  destruct (String.eqb _ _); auto with step.
  cbv zeta. set (players' := map _ (players updates)).
  assert (Forall2 sameIdentity (players updates) players') as Hp.
  { apply Forall2_map_r. intros p. destruct (negb _); [apply sameIdentity_refl|].
    by destruct p. }
  set (logs1 := if _ : bool then _ else _).
  assert (logs0 `prefix_of` logs1) as Hl.
  { unfold logs1.
    match goal with |- context [if ?c then _ else _] => destruct c end;
      auto with step. }
  cbn [players isSmallGameMode set_players].
  destruct (checkWinCondition _ _); unfold actionStep; cbn [fst snd];
    repeat split; auto with step; try (by left); try (right; simpl; tauto).
Qed.

Lemma triggerConspiracy_step playerId l :
  actionStep playerId "TRIGGER_CONSPIRACY" l (triggerConspiracy l).
Proof.
  destruct l as [updates logs0]. unfold actionStep. cbn [fst snd triggerConspiracy].
  repeat split; auto with step; try (by left). right. simpl. tauto.
Qed.

Lemma mapR_shuffle_back_identity (m : gmap string (list Card)) (newW : list string) ps :
  ∀ r,
    Forall2 sameIdentity ps
      (fst (mapR (λ p,
                    cards ← shuffle (default (p_cards p) (m !! p_id p));
                    mret (p_with_hasRevealedWitch
                            (p_hasRevealedWitch p || includes (p_id p) newW)
                            (p_with_cards cards p))) ps r)).
Proof.
  induction ps as [|p ps IH]; intros r; [constructor|].
  cbn [mapR]. cbv [mbind M_bind mret M_ret]. cbv beta.
  destruct (shuffle _ r) as [cards r1].
  specialize (IH r1). destruct (mapR _ ps r1) as [rest r2]. cbn [fst] in *.
  constructor; [|done]. destruct p. repeat split. simpl. by intros ->.
Qed.

Lemma conspiracySelect_step forOther playerId action data l r :
  In action phaseActions →
  actionStep playerId action l (fst (conspiracySelect forOther playerId data l r)).
Proof.
  intros Hact. destruct l as [updates logs0]. unfold conspiracySelect.
  destruct (forallb _ _).
  - unfold conspiracyResolve. cbv [mbind M_bind mret M_ret]. cbv beta.
    destruct (foldR _ _ _ r) as [sels r1].
    destruct (fold_left executeTransfer _ _) as [m newW].
    pose proof (mapR_shuffle_back_identity m newW (players updates) r1) as Hb.
    cbn [players set_conspiracySelections] in *.
    destruct (mapR _ (players updates) r1) as [players' r2]. cbn [fst] in *.
    unfold actionStep. cbn [fst snd]. repeat split; auto with step. by left.
  - cbv [mret M_ret]. cbn [fst]. apply actionStep_plain; auto with step.
Qed.

(** Every branch of the dispatcher is such a step. *)
Lemma dispatch_step playerId action data l r :
  actionStep playerId action l (fst (dispatch playerId action data l r)).
Proof.
  unfold dispatch.
  repeat (match goal with
          | |- context [if String.eqb action ?s then _ else _] =>
              let E := fresh "E" in
              destruct (String.eqb action s) eqn:E;
              [apply String.eqb_eq in E; subst action|]
          end);
    cbv [mret M_ret]; cbn [fst];
    auto using accuseStart_step, accuseAccept_step, accuseCancel_step,
      accuseReveal_step, nightConfirm_step, blackCat_step, killVote_step,
      guardVote_step, guardSkip_step, selfReveal_step, confessionPass_step,
      shuffleHidden_step, nightDamageSelect_step, triggerConspiracy_step,
      actionStep_refl.
  - apply shuffleHidden_step.
  - apply shuffleHidden_step.
  - apply conspiracySelect_step. simpl. tauto.
  - apply conspiracySelect_step. simpl. tauto.
Qed.

Lemma finishAction_fields state l :
  isSmallGameMode (finishAction state l) = isSmallGameMode (fst l)
  ∧ roomId (finishAction state l) = roomId (fst l)
  ∧ snd l `prefix_of` logs (finishAction state l)
  ∧ (phase (finishAction state l) = phase (fst l)
     ∨ phase (finishAction state l) = GAME_OVER).
Proof.
  destruct l as [updates logs0]. unfold finishAction. cbn [fst snd].
  destruct (checkWinCondition _ _); [destruct (negb _)|]; cbn;
    repeat split; auto with step.
Qed.

Lemma processPlayerAction_dispatch state playerId action data r :
  run (processPlayerAction state playerId action data) r
  = finishAction state (fst (dispatch playerId action data (state, logs state) r)).
Proof.
  unfold run, processPlayerAction. cbv [mbind M_bind mret M_ret]. cbv beta.
  by destruct (dispatch playerId action data (state, logs state) r).
Qed.




(** X15. Actions do not drive the night. Apart from NIGHT_DAMAGE_SELECT,
    TRIGGER_CONSPIRACY and the two conspiracy selections, an action leaves
    the phase where it is or, through the win check, ends the game. *)
Theorem action_keeps_phase (state : GameState) (playerId action : string)
    (data : ActionData) (r : Rand) :
  ¬ In action phaseActions →
  let state' := run (processPlayerAction state playerId action data) r in
  phase state' = phase state ∨ phase state' = GAME_OVER.
Proof.
  intros Hact. cbv zeta. rewrite processPlayerAction_dispatch.
  destruct (dispatch_step playerId action data (state, logs state) r)
    as (_ & _ & _ & _ & _ & [Hph|Hph]); [|done].
  destruct (finishAction_fields state
              (fst (dispatch playerId action data (state, logs state) r)))
    as (_ & _ & _ & [H|H]); [|by right].
  left. cbn [fst] in *. congruence.
Qed.

Lemma action_keeps_phase_witness :
  let state' :=
    run (processPlayerAction confessionState "c" "GUARD_VOTE" (onTarget "a"))
      countingOracle in
  phase state' = phase confessionState ∨ phase state' = GAME_OVER.
Proof.
  apply (action_keeps_phase confessionState "c" "GUARD_VOTE" (onTarget "a")
           countingOracle).
  simpl. intros [H|[H|[H|[H|[]]]]]; discriminate.
Defined.

(** *** Single actions *)

(** X16. TRIGGER_CONSPIRACY is open to every caller in every phase, a
    finished game included: on a state in GAME_OVER it leaves the roster as
    it is, empties the conspiracy selections and puts the game into
    CONSPIRACY. *)
Theorem conspiracy_reopens_finished_game (state : GameState) (playerId : string)
    (data : ActionData) (r : Rand) :
  phase state = GAME_OVER →
  let state' :=
    run (processPlayerAction state playerId "TRIGGER_CONSPIRACY" data) r in
  phase state' = CONSPIRACY
  ∧ players state' = players state
  ∧ conspiracySelections state' = [].
Proof.
  intros Hph. cbv zeta.
  change (run (processPlayerAction state playerId "TRIGGER_CONSPIRACY" data) r)
    with (finishAction state (triggerConspiracy (state, logs state))).
  unfold finishAction, triggerConspiracy. rewrite Hph. cbn [GamePhase_eqb negb].
  by destruct (checkWinCondition _ _).
Qed.

Lemma conspiracy_reopens_finished_game_witness :
  let state' :=
    run (processPlayerAction finishedState "d" "TRIGGER_CONSPIRACY" noData)
      countingOracle in
  phase state' = CONSPIRACY
  ∧ players state' = players finishedState
  ∧ conspiracySelections state' = [].
Proof.
  apply (conspiracy_reopens_finished_game finishedState "d" noData countingOracle).
  reflexivity.
Defined.

(** X17. An accusation always names a living entity. After ACCUSE_START
    the pending accusation is the one before, or a new one by the caller
    (who is in the roster, alive or not) against a living entity of the
    roster, accepted from the start exactly when that entity is a ghost. *)
Theorem accusation_names_the_living (state : GameState) (playerId : string)
    (data : ActionData) (r : Rand) :
  let state' := run (processPlayerAction state playerId "ACCUSE_START" data) r in
  pendingAccusation state' = pendingAccusation state
  ∨ ∃ accuser target,
      In accuser (players state) ∧ p_id accuser = playerId
      ∧ In target (players state) ∧ p_isDead target = false
      ∧ targetId data = Some (p_id target)
      ∧ pendingAccusation state'
        = Some (mkAccusation playerId (p_name accuser) (p_id target)
                  (p_name target) (p_isGhost target)).
Proof.
  cbv zeta.
  change (run (processPlayerAction state playerId "ACCUSE_START" data) r)
    with (finishAction state (accuseStart playerId data (state, logs state))).
  assert (∀ l, pendingAccusation (finishAction state l)
               = pendingAccusation (fst l)) as Hfin.
  { intros [updates logs0]. unfold finishAction. cbn [fst].
    destruct (checkWinCondition _ _); [destruct (negb _)|]; reflexivity. }
  rewrite Hfin. unfold accuseStart.
  destruct (findPlayer (Some playerId) (players state)) as [accuser|] eqn:Ea;
    [|by left].
  destruct (findPlayer (targetId data) (players state)) as [target|] eqn:Et;
    [|by left].
  destruct (targetId data) as [tid|] eqn:Etid; [|by left].
  destruct (p_isDead target) eqn:Ed; cbn [negb]; [by left|].
  right. exists accuser, target.
  unfold findPlayer in Ea, Et.
  apply find_some in Ea as [Hain Haid]. apply find_some in Et as [Htin Htid].
  simpl in Haid, Htid. apply String.eqb_eq in Haid, Htid. subst tid.
  by repeat split.
Qed.

Lemma map_reveal_mutateFirst f cs :
  map card_reveal (mutateFirst f card_reveal cs) = map card_reveal cs.
Proof.
  induction cs as [|c cs IH]; simpl; [done|].
  destruct (f c); simpl; [done|]. by rewrite IH.
Qed.

(** X18. Revealing the last hidden WITCH card ends a standard game for the
    town. When the accuser reveals an unrevealed WITCH card of the accused
    after an accepted accusation, the accused dies with the whole hand
    revealed, the accusation is closed, and, no other living player holding
    an unrevealed WITCH card, the phase is GAME_OVER with "Town Win!" as the
    last log entry. *)
Theorem last_witch_revealed_town_wins (state : GameState) (playerId : string)
    (data : ActionData) (r : Rand) (pa : PendingAccusation)
    (before after : list Player) (target : Player) (card : Card) :
  isSmallGameMode state = false →
  phase state ≠ GAME_OVER →
  pendingAccusation state = Some pa →
  pa_accepted pa = true →
  pa_accuserId pa = playerId →
  players state = before ++ target :: after →
  (∀ p, In p before → p_id p ≠ pa_targetId pa) →
  p_id target = pa_targetId pa →
  findCard (cardId data) (p_cards target) = Some card →
  c_isRevealed card = false →
  c_type card = Some WITCH →
  noLivingHiddenWitch (before ++ after) →
  let state' := run (processPlayerAction state playerId "ACCUSE_REVEAL" data) r in
  players state' = before ++ executed target :: after
  ∧ pendingAccusation state' = None
  ∧ phase state' = GAME_OVER
  ∧ last (logs state') = Some "Town Win!".
Proof.
  intros Hsmall Hph Hpa Hacc Hby Hps Hbefore Hid Hcard Hrev Htype Hothers.
  cbv zeta. rewrite processPlayerAction_dispatch.
  change (dispatch playerId "ACCUSE_REVEAL" data (state, logs state) r)
    with (accuseReveal playerId data (state, logs state) r).
  unfold accuseReveal. rewrite Hpa, Hacc, Hby, String.eqb_refl. cbn [andb].
  assert (List.find (λ p, String.eqb (p_id p) (pa_targetId pa)) (players state)
          = Some target) as Hfind.
  { rewrite Hps. apply find_first. exists before, after. split; [done|].
    split; [|by apply String.eqb_eq].
    intros y Hy. by apply String.eqb_neq, Hbefore. }
  rewrite Hfind, Hcard, Hrev. cbn [negb].
  assert (typeIs WITCH card = true) as -> by (by apply typeIs_spec).
  cbv [mbind M_bind mret M_ret getRandomMessage randomBelow]. cbv beta iota.
  cbn [fst].
  rewrite Hps.
  rewrite mutateFirst_first;
    [|by intros y Hy; apply String.eqb_neq, Hbefore|by apply String.eqb_eq].
  rewrite map_reveal_mutateFirst.
  unfold finishAction. cbn [players set_players set_pendingAccusation
                             isSmallGameMode].
  rewrite Hsmall.
  assert (checkWinCondition
            (before
             ++ p_with_cards (map card_reveal (p_cards target))
                  (p_with_isDead true target) :: after) false
          = Some TOWN_WIN) as ->.
  { apply standard_town_win. intros p Hp Hd.
    apply in_app_iff in Hp as [Hp|[<-|Hp]].
    - apply Hothers; [apply in_app_iff; by left|done].
    - by destruct target.
    - apply Hothers; [apply in_app_iff; by right|done]. }
  assert (GamePhase_eqb (phase state) GAME_OVER = false) as ->.
  { by destruct (phase state). }
  cbn [negb]. split; [reflexivity|]. split; [reflexivity|].
  split; [reflexivity|]. unfold set_logs. cbn [logs]. by rewrite last_snoc.
Qed.

Lemma last_witch_revealed_town_wins_witness :
  let state' :=
    run (processPlayerAction trialState "b" "ACCUSE_REVEAL" (onCard "a1"))
      countingOracle in
  players state'
  = [] ++ executed (twoCards "a" "Ann" "a1" "a2" WITCH)
       :: [twoCards "b" "Bob" "b1" "b2" CONSTABLE;
           twoCards "c" "Cid" "c1" "c2" NOT_A_WITCH;
           twoCards "d" "Dee" "d1" "d2" NOT_A_WITCH]
  ∧ pendingAccusation state' = None
  ∧ phase state' = GAME_OVER
  ∧ last (logs state') = Some "Town Win!".
Proof.
  apply (last_witch_revealed_town_wins trialState "b" (onCard "a1") countingOracle
           (mkAccusation "b" "Bob" "a" "Ann" true) []
           [twoCards "b" "Bob" "b1" "b2" CONSTABLE;
            twoCards "c" "Cid" "c1" "c2" NOT_A_WITCH;
            twoCards "d" "Dee" "d1" "d2" NOT_A_WITCH]
           (twoCards "a" "Ann" "a1" "a2" WITCH) (mkCard "a1" (Some WITCH) false));
    try reflexivity.
  - discriminate.
  - intros p [].
  - intros p Hp _. simpl in Hp.
    destruct Hp as [<-|[<-|[<-|[]]]]; repeat constructor.
Defined.

Lemma shuffleHidden_players f updates logs0 r :
  Forall2 (λ p q, q = p ∨ (f p = true ∧ handShuffled p q))
    (players updates)
    (players (fst (fst (shuffleHidden f (updates, logs0) r)))).
Proof.
  unfold shuffleHidden.
  destruct (List.find f (players updates)) as [player|] eqn:Ef.
  - cbv [mbind M_bind mret M_ret]. cbv beta.
    pose proof (shuffle_Permutation
                  (List.filter (λ c, negb (c_isRevealed c)) (p_cards player)) r)
      as Hperm.
    destruct (shuffle _ r) as [shuffled r1]. cbn [fst] in *.
    cbn [players set_players].
    apply find_first in Ef as (before & after & -> & Hb & Hx).
    rewrite mutateFirst_first by done.
    apply Forall2_app; [apply Forall2_diag; by left|].
    constructor; [|apply Forall2_diag; by left].
    right. split; [done|]. split; [by destruct player|].
    exists shuffled. by split.
  - cbv [mret M_ret]. cbn [fst]. apply Forall2_diag. by left.
Qed.

(** X19. Shuffling a hand loses nothing and moves nothing into view.
    SHUFFLE_HAND changes at most the caller's hand, and SHUFFLE_GHOST, open
    to every caller, at most the hand of a ghost with the named id: the hand
    becomes its hidden cards in some order followed by its revealed cards in
    their old order, every card as it was. *)
Theorem shuffle_keeps_cards (state : GameState) (playerId : string)
    (data : ActionData) (r : Rand) :
  Forall2 (λ p q, q = p ∨ (p_id p = playerId ∧ handShuffled p q))
    (players state)
    (players (run (processPlayerAction state playerId "SHUFFLE_HAND" data) r))
  ∧ Forall2
      (λ p q, q = p
              ∨ (ghostId data = Some (p_id p) ∧ p_isGhost p = true
                 ∧ handShuffled p q))
      (players state)
      (players (run (processPlayerAction state playerId "SHUFFLE_GHOST" data) r)).
Proof.
  split; rewrite processPlayerAction_dispatch, finishAction_players.
  - change (dispatch playerId "SHUFFLE_HAND" data (state, logs state) r)
      with (shuffleHidden (λ p, String.eqb (p_id p) playerId)
              (state, logs state) r).
    eapply Forall2_impl; [apply shuffleHidden_players|].
    intros p q [->|[Hf Hs]]; [by left|]. right.
    apply String.eqb_eq in Hf. by split.
  - change (dispatch playerId "SHUFFLE_GHOST" data (state, logs state) r)
      with (shuffleHidden (λ p, idIs (ghostId data) (p_id p) && p_isGhost p)
              (state, logs state) r).
    eapply Forall2_impl; [apply shuffleHidden_players|].
    intros p q [->|[Hf Hs]]; [by left|]. right.
    apply andb_true_iff in Hf as [Hid Hg].
    destruct (ghostId data) as [g|]; [|done]. simpl in Hid.
    apply String.eqb_eq in Hid. subst g. split; [done|]. by split.
Qed.

(** ** Dealer, continued *)

Lemma filter_replicate {A} (f : A → bool) k x :
  List.filter f (replicate k x) = if f x then replicate k x else [].
Proof.
  induction k as [|k IH]; simpl; [by destruct (f x)|].
  rewrite IH. by destruct (f x).
Qed.

Lemma unshuffledDeck_counts n :
  (1 ≤ n)%nat →
  length (unshuffledDeck n) = (n * getCardsPerPlayer n)%nat
  ∧ countType WITCH (unshuffledDeck n) = (if (n <=? 5)%nat then 1 else 2)%nat
  ∧ countType CONSTABLE (unshuffledDeck n) = 1%nat.
Proof.
  intros Hn.
  do 13 (destruct n as [|n]; [first [lia|by vm_compute]|]).
  unfold unshuffledDeck, countType.
  cbn [TRYAL_CARD_DISTRIBUTION getCardsPerPlayer Nat.leb Nat.ltb].
  rewrite !List.filter_app, !filter_replicate, !length_app.
  cbn [CardType_eqb]. rewrite !length_replicate. cbn [length]. lia.
Qed.

Lemma deck_counts_aux n r :
  (1 ≤ n)%nat →
  length (fst (generateDeck n r)) = (n * getCardsPerPlayer n)%nat
  ∧ fst (generateDeck n r) ≡ₚ unshuffledDeck n.
Proof.
  intros Hn. pose proof (generateDeck_Permutation n r) as Hperm.
  split; [|done]. rewrite (Permutation_length Hperm).
  by destruct (unshuffledDeck_counts n Hn) as (Hl & _).
Qed.

(** X20. The deck fits the table. For every number of entities from one up,
    inside and outside the rulebook's range, [generateDeck] returns as many
    cards as [distributeCards] hands out, with exactly one CONSTABLE and one
    WITCH up to five entities, two WITCH from six. *)
Theorem deck_fits_table (playerCount : nat) (r : Rand) :
  (1 ≤ playerCount)%nat →
  let deck := run (generateDeck playerCount) r in
  length deck = (playerCount * getCardsPerPlayer playerCount)%nat
  ∧ countType WITCH deck = (if (playerCount <=? 5)%nat then 1 else 2)%nat
  ∧ countType CONSTABLE deck = 1%nat.
Proof.
  intros Hn deck.
  pose proof (generateDeck_Permutation playerCount r) as Hperm.
  fold (run (generateDeck playerCount) r) in Hperm. fold deck in Hperm.
  destruct (unshuffledDeck_counts playerCount Hn) as (Hl & Hw & Hc).
  unfold countType in *.
  rewrite (Permutation_length Hperm).
  rewrite (filter_length_Permutation (CardType_eqb WITCH) _ _ Hperm).
  rewrite (filter_length_Permutation (CardType_eqb CONSTABLE) _ _ Hperm).
  done.
Qed.

Lemma deck_fits_table_witness :
  let deck := run (generateDeck 13) countingOracle in
  length deck = (13 * getCardsPerPlayer 13)%nat
  ∧ countType WITCH deck = (if (13 <=? 5)%nat then 1 else 2)%nat
  ∧ countType CONSTABLE deck = 1%nat.
Proof. apply (deck_fits_table 13 countingOracle). lia. Defined.

Lemma dealAll_roles randomId cpp deck ps :
  ∀ idx r,
    Forall (λ p, p_cards p = []) ps →
    dealtRoles (fst (dealAll randomId cpp deck idx ps r))
    = map (λ k, deck !! k) (seq idx (length ps * cpp))
    ∧ Forall (λ p, length (p_cards p) = cpp)
        (fst (dealAll randomId cpp deck idx ps r)).
Proof.
  induction ps as [|q ps IH]; intros idx r Hempty; [by split|].
  apply Forall_cons in Hempty as [Hq Hempty].
  cbn [dealAll]. unfold mbind, M_bind, mret, M_ret.
  destruct (dealPlayer_spec randomId cpp deck idx q r) as (q' & E & _ & Hc & _).
  rewrite E.
  destruct (IH (idx + cpp)%nat (λ k, r (cpp + k)%nat) Hempty) as [IH1 IH2].
  destruct (dealAll randomId cpp deck (idx + cpp) ps (λ k, r (cpp + k)%nat))
    as [rest r2].
  cbn [fst] in *. rewrite Hq in Hc. cbn [app] in Hc. split.
  - unfold dealtRoles in *. cbn [map concat length]. rewrite IH1, Hc.
    rewrite map_map. cbn [c_type].
    replace ((S (length ps)) * cpp)%nat with (cpp + length ps * cpp)%nat by lia.
    by rewrite seq_app, map_app.
  - constructor; [|done]. by rewrite Hc, length_map, length_seq.
Qed.

Lemma lookup_all {A} (l : list A) :
  map (λ k, l !! k) (seq 0 (length l)) = map Some l.
Proof.
  induction l as [|a l IH]; [done|].
  cbn [length seq map]. f_equal. rewrite <- seq_shift, map_map. exact IH.
Qed.

(** [dealDeck] on a deck of the right size hands out the deck, in order. *)
Lemma dealDeck_whole_deck (randomId : nat → string) (deck : list CardType)
    (ps : list Player) (r : Rand) :
  length deck = (length ps * getCardsPerPlayer (length ps))%nat →
  dealtRoles (run (dealDeck randomId deck ps) r) = map Some deck
  ∧ Forall (λ p, length (p_cards p) = getCardsPerPlayer (length ps))
      (run (dealDeck randomId deck ps) r).
Proof.
  intros Hlen. unfold run, dealDeck.
  destruct (dealAll_roles randomId (getCardsPerPlayer (length ps)) deck
              (map (λ p, p_with_hasRevealedWitch false (p_with_cards [] p)) ps)
              0%nat r) as [Hroles Hhands].
  { apply Forall_forall. intros p Hp.
    apply list_elem_of_In, in_map_iff in Hp as (q & <- & _). done. }
  split; [|exact Hhands].
  by rewrite Hroles, length_map, <- Hlen, lookup_all.
Qed.

Lemma dealAll_dealtFrom randomId cpp deck ps :
  ∀ idx r, Forall2 dealtFrom ps (fst (dealAll randomId cpp deck idx ps r)).
Proof.
  induction ps as [|q ps IH]; intros idx r; [constructor|].
  cbn [dealAll]. unfold mbind, M_bind, mret, M_ret.
  destruct (dealPlayer_spec randomId cpp deck idx q r) as (q' & E & Hd & _).
  rewrite E. specialize (IH (idx + cpp)%nat (λ k, r (cpp + k)%nat)).
  destruct (dealAll randomId cpp deck (idx + cpp) ps (λ k, r (cpp + k)%nat))
    as [rest r2].
  cbn [fst] in *. by constructor.
Qed.

Lemma Forall2_map_left {A B C} (R : B → C → Prop) (f : A → B) l k :
  Forall2 R (map f l) k → Forall2 (λ x y, R (f x) y) l k.
Proof.
  revert k. induction l as [|a l IH]; intros k H; inversion H; subst;
    constructor; auto.
Qed.

Lemma distributeCards_dealtFrom randomId ps r :
  Forall2 dealtFrom ps (run (distributeCards randomId ps) r).
Proof.
  rewrite distributeCards_dealDeck. unfold run, dealDeck.
  pose proof (dealAll_dealtFrom randomId (getCardsPerPlayer (length ps))
                (fst (generateDeck (length ps) r))
                (map (λ p, p_with_hasRevealedWitch false (p_with_cards [] p)) ps)
                0%nat (snd (generateDeck (length ps) r))) as H.
  apply Forall2_map_left in H. eapply Forall2_impl; [exact H|].
  intros p q Hpq. cbv beta in Hpq. unfold dealtFrom in *. rewrite Hpq.
  by destruct p.
Qed.

(** X21. The whole deck is dealt. For a table of at least one entity
    [distributeCards] gives every entity exactly [getCardsPerPlayer] cards,
    and the roles in the hands, taken together, are the rulebook deck for
    that table: every card has a role, none is left over and none is dealt
    twice. *)
Theorem whole_deck_is_dealt (randomId : nat → string) (ps : list Player)
    (r : Rand) :
  (1 ≤ length ps)%nat →
  let dealt := run (distributeCards randomId ps) r in
  dealtRoles dealt ≡ₚ map Some (unshuffledDeck (length ps))
  ∧ Forall (λ p, length (p_cards p) = getCardsPerPlayer (length ps)) dealt.
Proof.
  intros Hn dealt. unfold dealt. rewrite distributeCards_dealDeck.
  destruct (deck_counts_aux (length ps) r Hn) as [Hlen Hperm].
  destruct (dealDeck_whole_deck randomId (fst (generateDeck (length ps) r)) ps
              (snd (generateDeck (length ps) r)) Hlen) as [Hroles Hhands].
  split; [|exact Hhands]. by rewrite Hroles, Hperm.
Qed.

Lemma whole_deck_is_dealt_witness :
  let dealt := run (distributeCards sampleId fourPlayers) countingOracle in
  dealtRoles dealt ≡ₚ map Some (unshuffledDeck (length fourPlayers))
  ∧ Forall (λ p, length (p_cards p) = getCardsPerPlayer (length fourPlayers))
      dealt.
Proof.
  apply (whole_deck_is_dealt sampleId fourPlayers countingOracle). simpl. lia.
Defined.

(** ** The host *)

(** *** Seating *)

Lemma swap_lookup {A} (l : list A) i j x y :
  l !! i = Some x → l !! j = Some y →
  swap i j l = <[j := x]> (<[i := y]> l).
Proof. intros Hi Hj. unfold swap. by rewrite Hi, Hj. Qed.

Lemma swap_swap {A} (l : list A) i j :
  (i < length l)%nat → (j < length l)%nat → swap j i (swap i j l) = l.
Proof.
  intros Hi Hj.
  destruct (lookup_lt_is_Some_2 l i Hi) as [x Hx].
  destruct (lookup_lt_is_Some_2 l j Hj) as [y Hy].
  rewrite (swap_lookup l i j x y Hx Hy).
  assert ((<[j := x]> (<[i := y]> l)) !! j = Some x) as Hj'.
  { apply list_lookup_insert_eq. by rewrite length_insert. }
  assert ((<[j := x]> (<[i := y]> l)) !! i = Some y) as Hi'.
  { destruct (decide (i = j)) as [->|Hne].
    - rewrite Hx in Hy. injection Hy as ->. exact Hj'.
    - rewrite list_lookup_insert_ne by done.
      by apply list_lookup_insert_eq. }
  rewrite (swap_lookup _ j i x y Hj' Hi').
  apply list_eq. intros k.
  destruct (decide (k = i)) as [->|Hki].
  - rewrite list_lookup_insert_eq; [by rewrite Hx|]. by rewrite !length_insert.
  - rewrite list_lookup_insert_ne by done.
    destruct (decide (k = j)) as [->|Hkj].
    + rewrite list_lookup_insert_eq; [by rewrite Hy|]. by rewrite !length_insert.
    + by rewrite !list_lookup_insert_ne by done.
Qed.

Lemma swap_length {A} (l : list A) i j : length (swap i j l) = length l.
Proof. apply Permutation_length, swap_Permutation. Qed.

Lemma set_players_same s : set_players (players s) s = s.
Proof. by destruct s. Qed.

Lemma players_set_players ps s : players (set_players ps s) = ps.
Proof. by destruct s. Qed.

Lemma set_players_twice ps qs s :
  set_players ps (set_players qs s) = set_players ps s.
Proof. by destruct s. Qed.

(** X22. Moving a player up and then down again restores the seating. For
    the host and a seat that has a seat above it, [movePlayer] up succeeds,
    rearranges the roster without losing or adding anybody and changes
    nothing else; moving the seat above down again gives the first state
    back. *)
Theorem move_up_then_down (state : GameState) (index : Z) :
  (1 ≤ index < Z.of_nat (length (players state)))%Z →
  ∃ state1,
    movePlayer true index up state = Some state1
    ∧ players state1 ≡ₚ players state
    ∧ state1 = set_players (players state1) state
    ∧ movePlayer true (index - 1) down state1 = Some state.
Proof.
  intros [Hlo Hhi]. unfold movePlayer. cbn [negb].
  assert ((index - 1 <? 0)%Z = false) as H1 by lia.
  assert ((Z.of_nat (length (players state)) <=? index - 1)%Z = false) as H2 by lia.
  assert ((index <? 0)%Z = false) as H3 by lia.
  assert ((Z.of_nat (length (players state)) <=? index)%Z = false) as H4 by lia.
  rewrite H1, H2, H3, H4.
  cbn [orb]. eexists. split; [reflexivity|].
  rewrite !players_set_players. split; [apply swap_Permutation|].
  split; [done|].
  replace (index - 1 + 1)%Z with index by lia.
  rewrite swap_length. rewrite ?H1, ?H2, ?H3, ?H4.
  cbn [orb]. rewrite swap_swap by lia.
  by rewrite set_players_twice, set_players_same.
Qed.

Lemma move_up_then_down_witness :
  ∃ state1,
    movePlayer true 2 up lobbyState = Some state1
    ∧ players state1 ≡ₚ players lobbyState
    ∧ state1 = set_players (players state1) lobbyState
    ∧ movePlayer true (2 - 1) down state1 = Some lobbyState.
Proof. apply (move_up_then_down lobbyState 2). simpl. lia. Defined.

(** X23. [movePlayer] checks the seat it moves to, not the seat it moves.
    For every call the result is the state itself (a guest's call, or a
    target seat outside the roster), a roster with an [undefined] entry
    (exactly when the host calls it for seat -1 going down or for the seat
    after the last going up, on a roster that is not empty), or the state
    with two neighbouring seats exchanged. *)
Theorem movePlayer_cases (isHost : bool) (index : Z) (direction : Direction)
    (state : GameState) :
  let newIndex :=
    match direction with up => (index - 1)%Z | down => (index + 1)%Z end in
  let len := Z.of_nat (length (players state)) in
  match movePlayer isHost index direction state with
  | None =>
      isHost = true ∧ (0 < len)%Z
      ∧ ((direction = down ∧ index = (-1)%Z) ∨ (direction = up ∧ index = len))
  | Some state' =>
      state' = state
      ∨ (isHost = true ∧ (0 ≤ index < len)%Z ∧ (0 ≤ newIndex < len)%Z
         ∧ state' = set_players (players state') state
         ∧ players state' !! Z.to_nat index = players state !! Z.to_nat newIndex
         ∧ players state' !! Z.to_nat newIndex = players state !! Z.to_nat index
         ∧ ∀ k, k ≠ Z.to_nat index → k ≠ Z.to_nat newIndex →
                players state' !! k = players state !! k)
  end.
Proof.
  cbv zeta. unfold movePlayer. destruct isHost; cbn [negb]; [|by left].
  set (newIndex := match direction with
                   | up => (index - 1)%Z | down => (index + 1)%Z end).
  set (len := Z.of_nat (length (players state))).
  destruct ((newIndex <? 0)%Z || (len <=? newIndex)%Z) eqn:En; [by left|].
  apply orb_false_iff in En as [En1 En2].
  apply Z.ltb_ge in En1. apply Z.leb_gt in En2.
  destruct ((index <? 0)%Z || (len <=? index)%Z) eqn:Ei.
  - split; [done|]. split; [lia|].
    apply orb_true_iff in Ei.
    destruct direction; subst newIndex; [right|left]; split; try done;
      destruct Ei as [Ei|Ei]; first [apply Z.ltb_lt in Ei|apply Z.leb_le in Ei];
      lia.
  - apply orb_false_iff in Ei as [Ei1 Ei2].
    apply Z.ltb_ge in Ei1. apply Z.leb_gt in Ei2.
    right. split; [done|]. split; [lia|]. split; [lia|].
    rewrite !players_set_players. split; [done|].
    assert (Z.to_nat index < length (players state))%nat as Hi by lia.
    assert (Z.to_nat newIndex < length (players state))%nat as Hn by lia.
    destruct (lookup_lt_is_Some_2 _ _ Hi) as [x Hx].
    destruct (lookup_lt_is_Some_2 _ _ Hn) as [y Hy].
    rewrite (swap_lookup _ _ _ x y Hx Hy).
    assert (Z.to_nat index ≠ Z.to_nat newIndex) as Hne.
    { subst newIndex. destruct direction; lia. }
    repeat split.
    + rewrite list_lookup_insert_ne by done.
      rewrite list_lookup_insert_eq by done. by rewrite Hy.
    + rewrite list_lookup_insert_eq by (by rewrite length_insert). by rewrite Hx.
    + intros k Hk1 Hk2. by rewrite !list_lookup_insert_ne by done.
Qed.

(** *** [startGame] *)

Lemma filter_all {A} (f : A → bool) l :
  Forall (λ x, f x = true) l → List.filter f l = l.
Proof.
  induction 1 as [|a l Ha _ IH]; simpl; [done|]. by rewrite Ha, IH.
Qed.

Lemma Forall2_filter {A} (R : A → A → Prop) (f : A → bool) l k :
  (∀ x y, R x y → f y = f x) →
  Forall2 R l k → Forall2 R (List.filter f l) (List.filter f k).
Proof.
  intros Hf. induction 1 as [|a b l k Hab _ IH]; simpl; [constructor|].
  rewrite (Hf a b Hab). destruct (f a); [constructor|]; done.
Qed.

Lemma dealtFrom_isGhost p q : dealtFrom p q → p_isGhost q = p_isGhost p.
Proof. unfold dealtFrom. intros ->. by destruct p. Qed.

Lemma seatEntities_spec randomId ps r :
  (2 ≤ length ps)%nat →
  Forall (λ p, p_isGhost p = false) ps →
  let allEntities := fst (seatEntities randomId ps r) in
  length allEntities = Nat.max 4 (length ps)
  ∧ List.filter (λ p, negb (p_isGhost p)) allEntities = ps
  ∧ map p_isGhost allEntities = ghostSeats (length ps).
Proof.
  intros Hn Hreal.
  destruct ps as [|p1 [|p2 [|p3 [|p4 rest]]]]; cbn [length] in Hn; try lia.
  - apply Forall_cons in Hreal as [H1 Hreal].
    apply Forall_cons in Hreal as [H2 _].
    destruct p1, p2. cbn in H1, H2. subst. by cbn.
  - apply Forall_cons in Hreal as [H1 Hreal].
    apply Forall_cons in Hreal as [H2 Hreal].
    apply Forall_cons in Hreal as [H3 _].
    destruct p1, p2, p3. cbn in H1, H2, H3. subst. by cbn.
  - cbv zeta. cbn [seatEntities]. cbv [mret M_ret]. cbn [fst].
    split; [cbn [length]; lia|]. split.
    + apply filter_all. eapply Forall_impl; [exact Hreal|].
      intros p Hp. cbv beta in *. by rewrite Hp.
    + cbn [length ghostSeats].
      change (replicate (S (S (S (S (length rest))))) false)
        with (replicate (length (p1 :: p2 :: p3 :: p4 :: rest)) false).
      induction Hreal as [|q qs Hq _ IH]; [done|].
      cbn [map length replicate]. by rewrite Hq, IH.
Qed.

(** X24. [startGame] fills the table. From a lobby of at least two real
    players it seats ghosts so that the table has at least four entities
    (one ghost after each of two players, one ghost after three players,
    none from four), keeps the real players in their order and as they
    were but for the new hand and allegiance, deals every entity a full
    hand whose roles together are the rulebook deck for that table, and
    enters SETUP, in small-game mode exactly for two or three players. *)
Theorem game_starts_with_full_table (randomId : nat → string)
    (state : GameState) (r : Rand) :
  (2 ≤ length (players state))%nat →
  Forall (λ p, p_isGhost p = false) (players state) →
  let state' := run (startGame randomId state) r in
  let n := Nat.max 4 (length (players state)) in
  phase state' = SETUP
  ∧ isSmallGameMode state' = (length (players state) <=? 3)%nat
  ∧ length (players state') = n
  ∧ map p_isGhost (players state') = ghostSeats (length (players state))
  ∧ Forall2 dealtFrom (players state)
      (List.filter (λ p, negb (p_isGhost p)) (players state'))
  ∧ dealtRoles (players state') ≡ₚ map Some (unshuffledDeck n)
  ∧ Forall (λ p, length (p_cards p) = getCardsPerPlayer n) (players state').
Proof.
  intros Hn Hreal. cbv zeta. unfold run, startGame.
  assert ((length (players state) <? MIN_PLAYERS)%nat = false) as ->.
  { apply Nat.ltb_ge. unfold MIN_PLAYERS. lia. }
  cbv [mbind M_bind mret M_ret]. cbv beta.
  destruct (seatEntities_spec randomId (players state) r Hn Hreal)
    as (Hlen & Hfilter & Hseats).
  destruct (seatEntities randomId (players state) r) as [allEntities r1].
  cbn [fst] in Hlen, Hfilter, Hseats.
  pose proof (distributeCards_dealtFrom randomId allEntities r1) as Hfrom.
  assert (1 ≤ length allEntities)%nat as Hone by lia.
  destruct (deck_counts_aux (length allEntities) r1 Hone) as [Hdeck Hperm].
  destruct (dealDeck_whole_deck randomId (fst (generateDeck (length allEntities) r1))
              allEntities (snd (generateDeck (length allEntities) r1)) Hdeck)
    as [Hroles Hhands].
  rewrite <- distributeCards_dealDeck in Hroles, Hhands.
  assert (dealtRoles (run (distributeCards randomId allEntities) r1)
          ≡ₚ map Some (unshuffledDeck (length allEntities))) as Hroles'.
  { by rewrite Hroles, Hperm. }
  clear Hroles. rename Hroles' into Hroles.
  unfold run in Hfrom, Hroles, Hhands.
  destruct (distributeCards randomId allEntities r1) as [playersWithCards r2].
  cbn [fst] in *.
  cbn [players phase isSmallGameMode set_logs set_fakeVotes
       set_isSmallGameMode set_players set_phase].
  assert (length playersWithCards = length allEntities) as Hl.
  { symmetry. by eapply Forall2_length. }
  assert (map p_isGhost playersWithCards = map p_isGhost allEntities) as Hg.
  { clear -Hfrom. induction Hfrom as [|p q ps qs Hpq _ IH]; [done|].
    simpl. by rewrite (dealtFrom_isGhost p q Hpq), IH. }
  split; [done|]. split; [done|]. split; [congruence|]. split; [congruence|].
  rewrite <- Hlen. split; [|by split].
  rewrite <- Hfilter. apply Forall2_filter; [|done].
  intros p q Hpq. by rewrite (dealtFrom_isGhost p q Hpq).
Qed.

Lemma game_starts_with_full_table_witness :
  let state' := run (startGame sampleId (lobbyOf twoPlayers)) countingOracle in
  let n := Nat.max 4 (length (players (lobbyOf twoPlayers))) in
  phase state' = SETUP
  ∧ isSmallGameMode state' = (length (players (lobbyOf twoPlayers)) <=? 3)%nat
  ∧ length (players state') = n
  ∧ map p_isGhost (players state')
    = ghostSeats (length (players (lobbyOf twoPlayers)))
  ∧ Forall2 dealtFrom (players (lobbyOf twoPlayers))
      (List.filter (λ p, negb (p_isGhost p)) (players state'))
  ∧ dealtRoles (players state') ≡ₚ map Some (unshuffledDeck n)
  ∧ Forall (λ p, length (p_cards p) = getCardsPerPlayer n) (players state').
Proof.
  apply (game_starts_with_full_table sampleId (lobbyOf twoPlayers) countingOracle).
  - simpl. lia.
  - repeat constructor.
Defined.

(** *** Messages from the clients *)

Lemma findPlayer_None i ps :
  findPlayer (Some i) ps = None → i ∉ map p_id ps.
Proof.
  unfold findPlayer. intros H Hin. apply list_elem_of_In in Hin.
  apply in_map_iff in Hin as (p & Hp & Hin).
  apply find_none with (x := p) in H; [|done]. simpl in H.
  by rewrite Hp, String.eqb_refl in H.
Qed.

Lemma find_name_None name ps :
  List.find (λ p, String.eqb (p_name p) name) ps = None → name ∉ map p_name ps.
Proof.
  intros H Hin. apply list_elem_of_In in Hin.
  apply in_map_iff in Hin as (p & Hp & Hin).
  apply find_none with (x := p) in H; [|done]. simpl in H.
  by rewrite Hp, String.eqb_refl in H.
Qed.

Lemma NoDup_snoc {A} (l : list A) x : NoDup l → x ∉ l → NoDup (l ++ [x]).
Proof.
  intros Hl Hx. apply NoDup_app. split; [done|].
  split; [|apply NoDup_singleton].
  intros y Hy Hy'. apply list_elem_of_singleton in Hy'. by subst.
Qed.

Lemma reattach_sameButConnection i connId ps :
  Forall2 sameButConnection ps (reattach i connId ps).
Proof.
  unfold reattach. apply Forall2_map_r. intros p.
  destruct (String.eqb (p_id p) i); by destruct p.
Qed.

Lemma sameButConnection_ids ps qs :
  Forall2 sameButConnection ps qs →
  map p_id qs = map p_id ps ∧ map p_name qs = map p_name ps.
Proof.
  induction 1 as [|p q ps qs Hpq _ [IH1 IH2]]; [done|].
  simpl. rewrite IH1, IH2. unfold sameButConnection in Hpq. rewrite Hpq.
  by destruct p.
Qed.

Lemma sameIdentity_ids ps qs :
  Forall2 sameIdentity ps qs → map p_id qs = map p_id ps.
Proof.
  induction 1 as [|p q ps qs (Hid & _) _ IH]; [done|].
  simpl. by rewrite Hid, IH.
Qed.

Lemma disconnect_sameButConnection (f : Player → bool) ps :
  Forall2 sameButConnection ps
    (map (λ p, if f p then p_with_isDisconnected true p else p) ps).
Proof. apply Forall2_map_r. intros p. destruct (f p); by destruct p. Qed.

(** X25. The host keeps the ids of the roster distinct under every message
    of a client, whatever the phase, and a JOIN keeps the names distinct as
    well. *)
Theorem host_keeps_ids_distinct (prev : GameState) (connId : string)
    (msg : ClientMessage) (r : Rand) :
  NoDup (map p_id (players prev)) →
  NoDup (map p_id (players (hostState prev connId msg r)))
  ∧ (∀ name, msg = JOIN name → NoDup (map p_name (players prev)) →
             NoDup (map p_name (players (hostState prev connId msg r)))).
Proof.
  intros Hnd. unfold hostState, run, handleHostMessage. cbn [negb].
  destruct msg as [name|name playerId|playerId|action data].
  - destruct (findPlayer (Some connId) (players prev)) eqn:Ec;
      [cbv [mret M_ret]; cbn [fst]; split; [done|by intros]|].
    destruct (List.find (λ p, String.eqb (p_name p) name) (players prev))
      as [existingPlayer|] eqn:En;
      destruct (negb (GamePhase_eqb (phase prev) LOBBY));
      cbv [mret M_ret]; cbn [fst reconnected joined];
      rewrite ?players_set_players; cbn [players set_logs set_players].
    + destruct (sameButConnection_ids _ _
                  (reattach_sameButConnection (p_id existingPlayer) connId
                     (players prev))) as [-> ->].
      split; [done|by intros].
    + split; [done|by intros].
    + split; [done|by intros].
    + rewrite !map_app. cbn [map newPlayer p_id p_name]. split.
      * apply NoDup_snoc; [done|]. by apply findPlayer_None.
      * intros name' [= <-] Hnames. apply NoDup_snoc; [done|].
        by apply find_name_None.
  - split; [|intros ? [=]].
    destruct (findPlayer (Some playerId) (players prev)) as [existingPlayer|] eqn:Ep;
      cbv [mret M_ret]; cbn [fst reconnected joined players set_logs set_players].
    + by destruct (sameButConnection_ids _ _
                     (reattach_sameButConnection (p_id existingPlayer) connId
                        (players prev))) as [-> _].
    + rewrite map_app. cbn [map newPlayer p_id].
      apply NoDup_snoc; [done|]. by apply findPlayer_None.
  - split; [|intros ? [=]].
    destruct (GamePhase_eqb (phase prev) LOBBY);
      cbv [mret M_ret]; cbn [fst players set_logs set_players].
    + by apply filter_ids_NoDup.
    + by destruct (sameButConnection_ids _ _
                     (disconnect_sameButConnection
                        (λ p, String.eqb (p_id p) playerId) (players prev)))
        as [-> _].
  - split; [|intros ? [=]].
    cbv [mbind M_bind mret M_ret]. cbv beta.
    pose proof (processPlayerAction_dispatch prev connId action data r) as Hrun.
    unfold run in Hrun.
    destruct (processPlayerAction prev connId action data r) as [state' r1].
    cbn [fst] in *. subst state'. rewrite finishAction_players.
    destruct (dispatch_step connId action data (prev, logs prev) r) as (Hp & _).
    cbn [fst] in Hp. by rewrite (sameIdentity_ids _ _ Hp).
Qed.

Lemma host_keeps_ids_distinct_witness :
  NoDup (map p_id (players (hostState lobbyState "e" (JOIN "Eve") countingOracle)))
  ∧ (∀ name, JOIN "Eve" = JOIN name → NoDup (map p_name (players lobbyState)) →
             NoDup (map p_name
                      (players (hostState lobbyState "e" (JOIN "Eve")
                                  countingOracle)))).
Proof.
  apply (host_keeps_ids_distinct lobbyState "e" (JOIN "Eve") countingOracle).
  apply (bool_decide_unpack _). vm_compute. reflexivity.
Defined.

(** X26. After the start a seat is taken over by name. A JOIN from a new
    connection in a started game, under the name of some entity of the
    roster, attaches the connection to the first entity of that name,
    whether or not it was marked disconnected: that entity's hand is sent
    to the connection, and nothing of the roster changes but the connection
    fields of the entities with its id. *)
Theorem late_join_takes_seat_by_name (prev : GameState) (connId name : string)
    (existingPlayer : Player) (r : Rand) :
  phase prev ≠ LOBBY →
  findPlayer (Some connId) (players prev) = None →
  List.find (λ p, String.eqb (p_name p) name) (players prev)
  = Some existingPlayer →
  let state' := hostState prev connId (JOIN name) r in
  hostReplies prev connId (JOIN name) r
  = [(connId, WELCOME state' (p_id existingPlayer));
     (connId, HAND (p_cards existingPlayer))]
  ∧ Forall2 sameButConnection (players prev) (players state')
  ∧ (∀ q, In q (players state') →
          if String.eqb (p_id q) (p_id existingPlayer)
          then p_peerId q = connId ∧ p_isDisconnected q = false
          else In q (players prev)).
Proof.
  intros Hph Hc Hn. cbv zeta.
  unfold hostReplies, hostState, run, handleHostMessage. cbn [negb].
  rewrite Hc, Hn.
  assert (GamePhase_eqb (phase prev) LOBBY = false) as ->
    by (by destruct (phase prev)).
  cbn [negb]. cbv [mret M_ret]. cbn [fst snd reconnected].
  split; [done|]. cbn [players set_logs set_players].
  split; [apply reattach_sameButConnection|].
  intros q Hq. unfold reattach in Hq.
  apply in_map_iff in Hq as (p & <- & Hp).
  destruct (String.eqb (p_id p) (p_id existingPlayer)) eqn:E.
  - assert (p_id (p_with_isDisconnected false (p_with_peerId connId p)) = p_id p)
      as -> by (by destruct p).
    rewrite E. by destruct p.
  - by rewrite E.
Qed.

Lemma late_join_takes_seat_by_name_witness :
  let state' := hostState awayState "x" (JOIN "Ann") countingOracle in
  hostReplies awayState "x" (JOIN "Ann") countingOracle
  = [("x", WELCOME state' "a");
     ("x", HAND (p_cards (twoCards "a" "Ann" "a1" "a2" WITCH)))]
  ∧ Forall2 sameButConnection (players awayState) (players state')
  ∧ (∀ q, In q (players state') →
          if String.eqb (p_id q) "a"
          then p_peerId q = "x" ∧ p_isDisconnected q = false
          else In q (players awayState)).
Proof.
  apply (late_join_takes_seat_by_name awayState "x" "Ann"
           (twoCards "a" "Ann" "a1" "a2" WITCH) countingOracle).
  - discriminate.
  - reflexivity.
  - reflexivity.
Defined.

(** X27. A WELCOME carries the host's own state. Every WELCOME the host
    answers with goes to the connection the message came from and holds the
    new state as the host has it, every hand with the roles of its cards. *)
Theorem welcome_carries_host_state (prev : GameState) (connId : string)
    (msg : ClientMessage) (r : Rand) (c : string) (gs : GameState)
    (i : string) :
  In (c, WELCOME gs i) (hostReplies prev connId msg r) →
  c = connId ∧ gs = hostState prev connId msg r.
Proof.
  unfold hostReplies, hostState, run, handleHostMessage. cbn [negb].
  destruct msg as [name|name playerId|playerId|action data].
  - destruct (findPlayer (Some connId) (players prev));
      [cbv [mret M_ret]; cbn [fst snd]; by intros []|].
    destruct (List.find (λ p, String.eqb (p_name p) name) (players prev));
      destruct (negb (GamePhase_eqb (phase prev) LOBBY));
      cbv [mret M_ret]; cbn [fst snd reconnected joined];
      intros H; cbn [In] in H;
      repeat (destruct H as [H|H]; [by (injection H as <- <- <-) || discriminate|]);
      by destruct H.
  - destruct (findPlayer (Some playerId) (players prev));
      cbv [mret M_ret]; cbn [fst snd reconnected joined];
      intros H; cbn [In] in H;
      repeat (destruct H as [H|H]; [by (injection H as <- <- <-) || discriminate|]);
      by destruct H.
  - destruct (GamePhase_eqb (phase prev) LOBBY);
      cbv [mret M_ret]; cbn [fst snd]; by intros [].
  - cbv [mbind M_bind mret M_ret]. cbv beta.
    destruct (processPlayerAction prev connId action data r) as [state' r1].
    cbn [fst snd]. by intros [].
Qed.

Lemma welcome_carries_host_state_witness :
  "x" = "x"
  ∧ hostState awayState "x" (JOIN "Ann") countingOracle
    = hostState awayState "x" (JOIN "Ann") countingOracle.
Proof.
  apply (welcome_carries_host_state awayState "x" (JOIN "Ann") countingOracle
           "x" (hostState awayState "x" (JOIN "Ann") countingOracle) "a").
  left. reflexivity.
Defined.

(** X28. Connection events are no game moves. In a started game a JOIN, a
    REJOIN, a LEAVE and the loss of a connection change nothing of the
    entities of the roster but their connection fields; only a REJOIN
    under an id the roster does not have adds an entity, a new player with
    no cards, at the end. *)
Theorem connection_events_keep_game (prev : GameState) (connId : string)
    (msg : ClientMessage) (r : Rand) :
  phase prev ≠ LOBBY →
  (∀ action data, msg ≠ ACTION action data) →
  (∃ kept rest,
      players (hostState prev connId msg r) = kept ++ rest
      ∧ Forall2 sameButConnection (players prev) kept
      ∧ (rest = []
         ∨ ∃ name playerId,
             msg = REJOIN name playerId
             ∧ findPlayer (Some playerId) (players prev) = None
             ∧ rest = [newPlayer playerId name connId]))
  ∧ Forall2 sameButConnection (players prev)
      (players (handleDisconnect prev connId)).
Proof.
  intros Hph Hmsg.
  assert (GamePhase_eqb (phase prev) LOBBY = false) as Hlobby
    by (by destruct (phase prev)).
  assert (Forall2 sameButConnection (players prev) (players prev)) as Hsame.
  { apply Forall2_diag. by intros []. }
  split.
  - unfold hostState, run, handleHostMessage. cbn [negb].
    destruct msg as [name|name playerId|playerId|action data].
    + rewrite Hlobby. cbn [negb].
      destruct (findPlayer (Some connId) (players prev));
        [|destruct (List.find _ (players prev))];
        cbv [mret M_ret]; cbn [fst reconnected players set_logs set_players];
        eexists _, []; rewrite app_nil_r; (split; [reflexivity|]);
        (split; [|by left]); auto using reattach_sameButConnection.
    + destruct (findPlayer (Some playerId) (players prev)) eqn:Ep;
        cbv [mret M_ret];
        cbn [fst reconnected joined players set_logs set_players].
      * eexists _, []. rewrite app_nil_r. split; [reflexivity|].
        split; [apply reattach_sameButConnection|by left].
      * eexists _, _. split; [reflexivity|]. split; [exact Hsame|].
        right. by exists name, playerId.
    + rewrite Hlobby. cbv [mret M_ret]. cbn [fst players set_logs set_players].
      eexists _, []. rewrite app_nil_r. split; [reflexivity|].
      split; [apply disconnect_sameButConnection|by left].
    + by destruct (Hmsg action data).
  - unfold handleDisconnect.
    destruct (List.find _ (players prev)); [|exact Hsame].
    cbn [players set_logs set_players].
    apply disconnect_sameButConnection.
Qed.

Lemma connection_events_keep_game_witness :
  (∃ kept rest,
      players (hostState awayState "x" (REJOIN "Eve" "e") countingOracle)
      = kept ++ rest
      ∧ Forall2 sameButConnection (players awayState) kept
      ∧ (rest = []
         ∨ ∃ name playerId,
             REJOIN "Eve" "e" = REJOIN name playerId
             ∧ findPlayer (Some playerId) (players awayState) = None
             ∧ rest = [newPlayer playerId name "x"]))
  ∧ Forall2 sameButConnection (players awayState)
      (players (handleDisconnect awayState "x")).
Proof.
  apply (connection_events_keep_game awayState "x" (REJOIN "Eve" "e")
           countingOracle).
  - discriminate.
  - discriminate.
Defined.

(** ** Session storage *)

(** X29. A saved session can be read back for thirty minutes. Whatever was
    stored before, [saveSession] leaves a session stamped with the time of
    the save that holds the given game state, name and room; [loadSession]
    returns exactly that session, and leaves the storage alone, while the
    clock is at most 1 800 000 ms past the stamp, and returns nothing and
    erases the storage once it is later. *)
Theorem session_lives_thirty_minutes (randomPeerId : nat → string)
    (data : SessionPatch) (tLoad tSave now : Z) (store : Storage) (r : Rand) :
  let store' := run (saveSession randomPeerId data tLoad tSave store) r in
  ∃ session,
    store' = Some session
    ∧ s_timestamp session = tSave
    ∧ (∀ g, d_gameState data = Some g → s_gameState session = Some g)
    ∧ (∀ n, d_playerName data = Some n → s_playerName session = n)
    ∧ (∀ i, d_roomId data = Some i → s_roomId session = i)
    ∧ loadSession now store'
      = (if (now - tSave <=? 1800000)%Z then (Some session, store')
         else (None, None)).
Proof.
  cbv zeta. unfold run, saveSession.
  cbv [mbind M_bind mret M_ret generatePlayerId randomSample]. cbv beta.
  set (existing := fst (loadSession tLoad store)).
  set (pick := match truthyId (d_playerId data) with
               | Some i => _ | None => _ end).
  destruct (pick r) as [playerId r1]. cbn [fst].
  eexists. split; [reflexivity|]. cbn [s_timestamp s_gameState s_playerName s_roomId].
  split; [done|]. split; [by intros g ->|]. split; [by intros n ->|].
  split; [by intros i ->|].
  unfold loadSession, SESSION_EXPIRY_MS. cbn [s_timestamp].
  change (30 * 60 * 1000)%Z with 1800000%Z.
  destruct (1800000 <? now - tSave)%Z eqn:E.
  - apply Z.ltb_lt in E. assert ((now - tSave <=? 1800000)%Z = false) as -> by lia.
    done.
  - apply Z.ltb_ge in E. assert ((now - tSave <=? 1800000)%Z = true) as -> by lia.
    done.
Qed.

(** X30. What the host's [saveGameState] keeps. On top of a stored session
    that has not expired and has an id, it keeps that session's id, name,
    room and host flag and replaces the game state and the stamp; on top of
    an expired one it keeps nothing: the new session has a freshly drawn
    id, no name, no room and is not a host's. *)
Theorem saveGameState_keeps_fresh_identity (randomPeerId : nat → string)
    (gameState : GameState) (tLoad tSave : Z) (old : SessionData) (r : Rand) :
  s_playerId old ≠ "" →
  run (saveGameState randomPeerId gameState tLoad tSave (Some old)) r
  = Some (if expired tLoad old
          then mkSession (randomPeerId (r 0%nat)) "" "" false (Some gameState) tSave
          else mkSession (s_playerId old) (s_playerName old) (s_roomId old)
                 (s_isHost old) (Some gameState) tSave).
Proof.
  intros Hid. apply String.eqb_neq in Hid.
  unfold run, saveGameState, saveSession, loadSession, expired.
  cbn [d_playerId d_playerName d_roomId d_isHost d_gameState truthyId].
  destruct (SESSION_EXPIRY_MS <? tLoad - s_timestamp old)%Z;
    cbn [fst fmap option_fmap option_map truthyId mbind option_bind];
    rewrite ?Hid;
    cbv [mbind M_bind mret M_ret generatePlayerId randomSample];
    reflexivity.
Qed.

Lemma saveGameState_keeps_fresh_identity_witness :
  run (saveGameState samplePeerId lobbyState 2000 2001 (Some hostSession))
    countingOracle
  = Some (if expired 2000 hostSession
          then mkSession (samplePeerId (countingOracle 0%nat)) "" "" false
                 (Some lobbyState) 2001
          else mkSession (s_playerId hostSession) (s_playerName hostSession)
                 (s_roomId hostSession) (s_isHost hostSession)
                 (Some lobbyState) 2001).
Proof.
  apply (saveGameState_keeps_fresh_identity samplePeerId lobbyState 2000 2001
           hostSession countingOracle).
  discriminate.
Defined.
